(** * Pinpoint Go agent: transport and telemetry core

    A shallow embedding of the gRPC transport layer (stream creation with
    back-off, span / stat / command encoders) and of the runtime statistics
    aggregator of the agent, followed by the properties established about
    them.

    Conventions.
    - Go's sized integers are [Z] with the wrap-around written out
      ([GoInt.int32], [GoInt.int64]); integer division panics on a zero
      divisor and is therefore partial ([GoInt.div64]).
    - [float64] is IEEE-754 binary64, computed bit for bit with the
      specification floats of the standard library ([spec_float] at
      precision 53), every operation rounded to nearest-even on its own
      (no fused multiply-add, as the compiler emits for amd64).
    - Pointers to mutable structs ([*span], [*spanEvent], the stream
      wrappers, the package-level counters) are modelled by explicit state
      passing: a function that mutates its argument returns the updated
      value next to its result.
    - Logging has no effect on any modelled state and is left out. *)

From Stdlib Require Import ZArith List String Ascii Bool Lia.
From Stdlib Require Import DecimalString DecimalZ DecimalPos.
From Stdlib Require Import Floats.SpecFloat.
From stdpp Require Import gmap strings list.

Local Open Scope Z_scope.

(* ===================================================================== *)
(** * Part I: the model                                                   *)
(* ===================================================================== *)

(** ** Go integers *)

Module GoInt.

Definition wrap (bits z : Z) : Z :=
  (z + 2 ^ (bits - 1)) mod 2 ^ bits - 2 ^ (bits - 1).

Definition int32 (z : Z) : Z := wrap 32 z.
Definition int64 (z : Z) : Z := wrap 64 z.
Definition uint32 (z : Z) : Z := z mod 2 ^ 32.
Definition uint64 (z : Z) : Z := z mod 2 ^ 64.

Definition minInt64 : Z := - 2 ^ 63.
Definition maxInt64 : Z := 2 ^ 63 - 1.

Definition add64 (a b : Z) : Z := int64 (a + b).
Definition incr32 (a : Z) : Z := int32 (a + 1).
Definition incr64 (a : Z) : Z := int64 (a + 1).

(** [a / b] on int64: truncated towards zero; a zero divisor is a
    run-time panic ([None]). *)
Definition div64 (a b : Z) : option Z :=
  if b =? 0 then None else Some (int64 (Z.quot a b)).

End GoInt.

(** ** float64 *)

Module Float64.

Definition prec : Z := 53.
Definition emax : Z := 1024.

Definition float64 : Type := spec_float.

Definition add : float64 -> float64 -> float64 := SFadd prec emax.
Definition sub : float64 -> float64 -> float64 := SFsub prec emax.
Definition mul : float64 -> float64 -> float64 := SFmul prec emax.
Definition div : float64 -> float64 -> float64 := SFdiv prec emax.
Definition ltb : float64 -> float64 -> bool := SFltb.
Definition leb : float64 -> float64 -> bool := SFleb.

(** The conversion [float64(z)] of an integer. *)
Definition of_int (z : Z) : float64 := binary_normalize prec emax z 0 false.

(** [math.Pow(2, float64(n))] for an integer [n]: the power of two,
    exact where it is representable, saturating to [+Inf] above the
    range and rounding to the subnormals and to zero below it. *)
Definition pow2 (n : Z) : float64 := SFldexp prec emax (SFone prec emax) n.

(** The conversion [int64(f)]: truncation towards zero.  Outside the
    range of int64 (and for NaN and the infinities) Go leaves the result
    to the implementation; amd64 yields the minimal int64. *)
Definition to_int64 (f : float64) : Z :=
  match f with
  | S754_zero _ => 0
  | S754_finite s m e =>
      let mag := if 0 <=? e then Z.pos m * 2 ^ e else Z.pos m / 2 ^ (- e) in
      let v := if s then - mag else mag in
      if (GoInt.minInt64 <=? v) && (v <=? GoInt.maxInt64) then v
      else GoInt.minInt64
  | _ => GoInt.minInt64
  end.

End Float64.

(** ** Package time *)

Module time.

(** A [Duration] is an int64 count of nanoseconds; a [Time] is an
    instant, in nanoseconds since the Unix epoch. *)
Definition Duration : Type := Z.
Definition Time : Type := Z.

Definition Millisecond : Duration := 1000000.
Definition Second : Duration := 1000000000.

(** [t.Sub(u)]: the difference, saturated to the range of [Duration]. *)
Definition Sub (t u : Time) : Duration :=
  if t - u <? GoInt.minInt64 then GoInt.minInt64
  else if GoInt.maxInt64 <? t - u then GoInt.maxInt64
  else t - u.

(** [d.Seconds()]:
    [sec := d / Second; nsec := d % Second;
     return float64(sec) + float64(nsec)/1e9]. *)
Definition Seconds (d : Duration) : Float64.float64 :=
  let sec := Z.quot d Second in
  let nsec := Z.rem d Second in
  Float64.add (Float64.of_int sec)
              (Float64.div (Float64.of_int nsec) (Float64.of_int 1000000000)).

Definition UnixNano (t : Time) : Z := t.

(** [t.UnixNano() / int64(time.Millisecond)], the wire timestamp. *)
Definition UnixMilli (t : Time) : Z := Z.quot (UnixNano t) Millisecond.

End time.

(** ** Package strconv *)

Module strconv.

(** [strconv.FormatInt(i, 10)], which is also what the verb [%d] of
    [fmt.Sprintf] prints for an integer: the decimal digits without
    leading zeros, after a minus sign for a negative number. *)
Definition FormatInt (i : Z) : string := NilZero.string_of_int (Z.to_int i).

End strconv.

(** ** gRPC status errors and client streams *)

Module grpc.

Inductive Code : Set :=
| Canceled | Unknown | DeadlineExceeded | Unavailable | Internal.

(** An [error] value; [status.Errorf(c, msg)] builds one. *)
Record error : Set := Errorf { code : Code; message : string }.

(** The client side of a stream carrying messages of type [M].  [sent]
    is the sequence of messages handed to the transport, [answers k] is
    the transport's answer to the [k]-th [Send] (it is the collector and
    the network that decide), [halfClosed] records [CloseSend] /
    [CloseAndRecv]. *)
Record ClientStream (M : Type) : Type := mkStream {
  sent : list M;
  halfClosed : bool;
  answers : nat -> option error
}.
Arguments mkStream {M}.
Arguments sent {M}.
Arguments halfClosed {M}.
Arguments answers {M}.

Definition fresh {M : Type} (ans : nat -> option error) : ClientStream M :=
  mkStream [] false ans.

Definition Send {M : Type} (s : ClientStream M) (m : M)
  : option error * ClientStream M :=
  (answers s (length (sent s)),
   mkStream (sent s ++ [m]) (halfClosed s) (answers s)).

Definition CloseSend {M : Type} (s : ClientStream M) : ClientStream M :=
  mkStream (sent s) true (answers s).

End grpc.

(** ** Wire messages (package pb)

    The generated protocol-buffer structs, restricted to the fields the
    encoders fill in with something else than the zero value of the field
    (the thread dumps, for one, set their lock and blocking fields to 0,
    "" or nil).  A field of message [PFoo] named [Bar] is [PFoo_Bar]. *)

Module pb.

Record PTransactionId : Type := {
  PTransactionId_AgentId : string;
  PTransactionId_AgentStartTime : Z;
  PTransactionId_Sequence : Z
}.

Inductive PAnnotationValue : Type :=
| PAnnotationValue_IntValue (i : Z)
| PAnnotationValue_StringValue (s : string)
| PAnnotationValue_StringStringValue (s1 s2 : string)
| PAnnotationValue_IntStringStringValue (i : Z) (s1 s2 : string)
| PAnnotationValue_LongIntIntByteByteStringValue
    (l i1 i2 b1 b2 : Z) (s : string).

Record PAnnotation : Type := {
  PAnnotation_Key : Z;
  PAnnotation_Value : PAnnotationValue
}.

Record PIntStringValue : Type := {
  PIntStringValue_IntValue : Z;
  PIntStringValue_StringValue : string
}.

Record PMessageEvent : Type := {
  PMessageEvent_NextSpanId : Z;
  PMessageEvent_EndPoint : string;
  PMessageEvent_DestinationId : string
}.

Inductive PNextEvent : Type :=
| PNextEvent_MessageEvent (MessageEvent : PMessageEvent).

Record PSpanEvent : Type := {
  PSpanEvent_Sequence : Z;
  PSpanEvent_Depth : Z;
  PSpanEvent_StartElapsed : Z;
  PSpanEvent_EndElapsed : Z;
  PSpanEvent_ServiceType : Z;
  PSpanEvent_Annotation : list PAnnotation;
  PSpanEvent_ApiId : Z;
  PSpanEvent_ExceptionInfo : option PIntStringValue;
  PSpanEvent_NextEvent : option PNextEvent;
  PSpanEvent_AsyncEvent : Z
}.

Record PParentInfo : Type := {
  PParentInfo_ParentApplicationName : string;
  PParentInfo_ParentApplicationType : Z;
  PParentInfo_AcceptorHost : string
}.

Record PAcceptEvent : Type := {
  PAcceptEvent_Rpc : string;
  PAcceptEvent_EndPoint : string;
  PAcceptEvent_RemoteAddr : string;
  PAcceptEvent_ParentInfo : option PParentInfo
}.

Record PSpan : Type := {
  PSpan_Version : Z;
  PSpan_TransactionId : PTransactionId;
  PSpan_SpanId : Z;
  PSpan_ParentSpanId : Z;
  PSpan_StartTime : Z;
  PSpan_Elapsed : Z;
  PSpan_ApiId : Z;
  PSpan_ServiceType : Z;
  PSpan_AcceptEvent : PAcceptEvent;
  PSpan_Annotation : list PAnnotation;
  PSpan_Flag : Z;
  PSpan_SpanEvent : list PSpanEvent;
  PSpan_Err : Z;
  PSpan_ExceptionInfo : option PIntStringValue;
  PSpan_ApplicationServiceType : Z;
  PSpan_LoggingTransactionInfo : Z
}.

Record PLocalAsyncId : Type := {
  PLocalAsyncId_AsyncId : Z;
  PLocalAsyncId_Sequence : Z
}.

Record PSpanChunk : Type := {
  PSpanChunk_Version : Z;
  PSpanChunk_TransactionId : PTransactionId;
  PSpanChunk_SpanId : Z;
  PSpanChunk_EndPoint : string;
  PSpanChunk_SpanEvent : list PSpanEvent;
  PSpanChunk_ApplicationServiceType : Z;
  PSpanChunk_KeyTime : Z;
  PSpanChunk_LocalAsyncId : PLocalAsyncId
}.

(** The [oneof] of [PSpanMessage]: the discriminated encoding. *)
Inductive PSpanMessage : Type :=
| PSpanMessage_Span (Span : PSpan)
| PSpanMessage_SpanChunk (SpanChunk : PSpanChunk).

Inductive PPing : Type := mkPPing.

Record PJvmGc : Type := {
  PJvmGc_Type : Z;
  PJvmGc_JvmMemoryHeapUsed : Z;
  PJvmGc_JvmMemoryHeapMax : Z;
  PJvmGc_JvmMemoryNonHeapUsed : Z;
  PJvmGc_JvmMemoryNonHeapMax : Z;
  PJvmGc_JvmGcOldCount : Z;
  PJvmGc_JvmGcOldTime : Z
}.

Record PCpuLoad : Type := {
  PCpuLoad_JvmCpuLoad : Float64.float64;
  PCpuLoad_SystemCpuLoad : Float64.float64
}.

Record PTransaction : Type := {
  PTransaction_SampledNewCount : Z;
  PTransaction_SampledContinuationCount : Z;
  PTransaction_UnsampledNewCount : Z;
  PTransaction_UnsampledContinuationCount : Z;
  PTransaction_SkippedNewCount : Z;
  PTransaction_SkippedContinuationCount : Z
}.

Record PActiveTraceHistogram : Type := {
  PActiveTraceHistogram_Version : Z;
  PActiveTraceHistogram_HistogramSchemaType : Z;
  PActiveTraceHistogram_ActiveTraceCount : list Z
}.

Record PResponseTime : Type := {
  PResponseTime_Avg : Z;
  PResponseTime_Max : Z
}.

(** The sub-messages [JvmGcDetailed], [DataSourceList], [Deadlock],
    [FileDescriptor] and [DirectBuffer] are always nil and [Metadata] is
    always empty; they are left out. *)
Record PAgentStat : Type := {
  PAgentStat_Timestamp : Z;
  PAgentStat_CollectInterval : Z;
  PAgentStat_Gc : PJvmGc;
  PAgentStat_CpuLoad : PCpuLoad;
  PAgentStat_Transaction : PTransaction;
  PAgentStat_ActiveTrace : PActiveTraceHistogram;
  PAgentStat_ResponseTime : PResponseTime
}.

Inductive PStatMessage : Type :=
| PStatMessage_AgentStatBatch (AgentStat : list PAgentStat).

Inductive PThreadState : Set :=
| PThreadState_THREAD_STATE_NEW
| PThreadState_THREAD_STATE_RUNNABLE
| PThreadState_THREAD_STATE_BLOCKED
| PThreadState_THREAD_STATE_WAITING
| PThreadState_THREAD_STATE_TIMED_WAITING
| PThreadState_THREAD_STATE_TERMINATED
| PThreadState_THREAD_STATE_UNKNOWN.

Record PThreadDump : Type := {
  PThreadDump_ThreadName : string;
  PThreadDump_ThreadId : Z;
  PThreadDump_ThreadState : PThreadState;
  PThreadDump_StackTrace : list string
}.

Record PActiveThreadDump : Type := {
  PActiveThreadDump_StartTime : Z;
  PActiveThreadDump_LocalTraceId : Z;
  PActiveThreadDump_ThreadDump : PThreadDump;
  PActiveThreadDump_Sampled : bool;
  PActiveThreadDump_TransactionId : string;
  PActiveThreadDump_EntryPoint : string
}.

Record PThreadLightDump : Type := {
  PThreadLightDump_ThreadName : string;
  PThreadLightDump_ThreadId : Z;
  PThreadLightDump_ThreadState : PThreadState
}.

Record PActiveThreadLightDump : Type := {
  PActiveThreadLightDump_StartTime : Z;
  PActiveThreadLightDump_LocalTraceId : Z;
  PActiveThreadLightDump_ThreadDump : PThreadLightDump;
  PActiveThreadLightDump_Sampled : bool;
  PActiveThreadLightDump_TransactionId : string;
  PActiveThreadLightDump_EntryPoint : string
}.

(** [PCmdMessage] with its handshake, and the command request. *)
Inductive PCmdMessage : Type :=
| PCmdMessage_HandshakeMessage (SupportCommandServiceKey : list Z).

(** The response of the stream of active-thread counts. *)
Record PCmdStreamResponse : Type := {
  PCmdStreamResponse_ResponseId : Z;
  PCmdStreamResponse_SequenceId : Z;
  PCmdStreamResponse_Message : string
}.

Record PCmdActiveThreadCountRes : Type := {
  PCmdActiveThreadCountRes_CommonStreamResponse : PCmdStreamResponse;
  PCmdActiveThreadCountRes_HistogramSchemaType : Z;
  PCmdActiveThreadCountRes_ActiveThreadCount : list Z;
  PCmdActiveThreadCountRes_TimeStamp : Z
}.

End pb.

(** ** The agent (package pinpoint) *)

Module pinpoint.

Import pb.

(** *** Declarations of the package that the modelled files only use *)

(** [TransactionId] of tracer.go. *)
Record TransactionId : Type := {
  AgentId : string;
  StartTime : Z;
  Sequence : Z
}.

(** The part of the configuration the transport reads. *)
Record Config : Type := {
  Config_AgentId : string;
  Config_ApplicationName : string;
  Config_ApplicationType : Z;
  Config_IsContainer : bool
}.

(** What the transport reads of an [Agent] apart from [Enable()], whose
    value may change between two calls (see [Env] below). *)
Record Agent : Type := {
  Agent_Config : Config;
  Agent_StartTime : Z
}.

(** A goroutine of a dump, and the dump: the fields the command
    encoders read.  [metas] is a Go map, read with the zero value for a
    missing key. *)
Record Goroutine : Type := {
  Goroutine_id : Z;
  Goroutine_header : string;
  Goroutine_trace : string;
  Goroutine_metas : gmap Z string
}.

Record GoroutineDump : Type := {
  GoroutineDump_goroutines : list Goroutine
}.

(** Helpers, constants and methods that are declared in files of the
    package outside the modelled ones; the model is parametric in
    them. *)
Class Extern : Type := {
  (** [(gd *GoroutineDump) Search(name string) *Goroutine], nil when no
      goroutine is found *)
  Search : GoroutineDump -> string -> option Goroutine;
  (** [toMilliseconds(d time.Duration) int64] *)
  toMilliseconds : time.Duration -> Z;
  (** [toMicroseconds(d time.Duration) int64] *)
  toMicroseconds : time.Duration -> Z;
  (** [runtime.NumCPU()] *)
  NumCPU : Z;
  (** The key [MetaState] of a goroutine's [metas] map. *)
  MetaState : Z
}.

(** The annotation container behind the [Annotation] interface of
    tracer.go; its field [list] is [alist] here. *)
Module annotation.
Record t : Type := mk { alist : list PAnnotation }.

(** Modelled from the spec: the struct and its [AppendString] method
    are not in the modelled files.  Annotations form an ordered list
    that preserves insertion order, so appending a string entry adds
    one entry, keyed by [key], at the end of the list. *)
Definition AppendString (a : t) (key : Z) (s : string) : t :=
  mk (alist a ++ [ {| PAnnotation_Key := key;
                      PAnnotation_Value := PAnnotationValue_StringValue s |} ]).
End annotation.

(** The struct [spanEvent] (declared outside the modelled files), with
    the fields the encoder reads. *)
Module spanEvent.
Record t : Type := mk {
  operationName : string;
  apiId : Z;
  annotations : annotation.t;
  sequence : Z;
  depth : Z;
  startElapsed : time.Duration;
  duration : time.Duration;
  serviceType : Z;
  asyncId : Z;
  errorFuncId : Z;
  errorString : string;
  destinationId : string;
  nextSpanId : Z;
  endPoint : string
}.

Definition set_annotations (e : t) (a : annotation.t) : t :=
  mk (operationName e) (apiId e) a (sequence e) (depth e)
     (startElapsed e) (duration e) (serviceType e) (asyncId e)
     (errorFuncId e) (errorString e) (destinationId e) (nextSpanId e)
     (endPoint e).
End spanEvent.

(** The struct [span] (declared outside the modelled files), with the
    fields the encoders read. *)
Module span.
Record t : Type := mk {
  agent : Agent;
  txId : TransactionId;
  spanId : Z;
  parentSpanId : Z;
  startTime : time.Time;
  duration : time.Duration;
  serviceType : Z;
  operationName : string;
  rpcName : string;
  endPoint : string;
  remoteAddr : string;
  acceptorHost : string;
  parentAppName : string;
  parentAppType : Z;
  flags : Z;
  err : Z;
  apiId : Z;
  loggingInfo : Z;
  asyncId : Z;
  asyncSequence : Z;
  annotations : annotation.t;
  spanEvents : list spanEvent.t
}.

Definition set_annotations (s : t) (a : annotation.t) : t :=
  mk (agent s) (txId s) (spanId s) (parentSpanId s) (startTime s)
     (duration s) (serviceType s) (operationName s) (rpcName s)
     (endPoint s) (remoteAddr s) (acceptorHost s) (parentAppName s)
     (parentAppType s) (flags s) (err s) (apiId s) (loggingInfo s)
     (asyncId s) (asyncSequence s) a (spanEvents s).

Definition set_spanEvents (s : t) (evs : list spanEvent.t) : t :=
  mk (agent s) (txId s) (spanId s) (parentSpanId s) (startTime s)
     (duration s) (serviceType s) (operationName s) (rpcName s)
     (endPoint s) (remoteAddr s) (acceptorHost s) (parentAppName s)
     (parentAppType s) (flags s) (err s) (apiId s) (loggingInfo s)
     (asyncId s) (asyncSequence s) (annotations s) evs.
End span.

(** *** Span encoding *)

Section SpanEncoder.
Context `{Extern}.

(** [makePSpanEvent(event *spanEvent)].  The event is behind a
    pointer: the encoder's append to its annotations is visible to
    the owner, so the updated event is returned with the message. *)
Definition makePSpanEvent (event : spanEvent.t)
  : PSpanEvent * spanEvent.t :=
  let event :=
    if (spanEvent.apiId event =? 0)
       && negb (String.eqb (spanEvent.operationName event) "")
    then spanEvent.set_annotations event
           (annotation.AppendString (spanEvent.annotations event) 12
              (spanEvent.operationName event))
    else event in
  let aSpanEvent :=
    {| PSpanEvent_Sequence := spanEvent.sequence event;
       PSpanEvent_Depth := spanEvent.depth event;
       PSpanEvent_StartElapsed :=
         GoInt.int32 (toMilliseconds (spanEvent.startElapsed event));
       PSpanEvent_EndElapsed :=
         GoInt.int32 (toMilliseconds (spanEvent.duration event));
       PSpanEvent_ServiceType := spanEvent.serviceType event;
       PSpanEvent_Annotation :=
         annotation.alist (spanEvent.annotations event);
       PSpanEvent_ApiId := spanEvent.apiId event;
       PSpanEvent_ExceptionInfo :=
         if negb (String.eqb (spanEvent.errorString event) "")
         then Some {| PIntStringValue_IntValue := spanEvent.errorFuncId event;
                      PIntStringValue_StringValue := spanEvent.errorString event |}
         else None;
       PSpanEvent_NextEvent :=
         if negb (String.eqb (spanEvent.destinationId event) "")
         then Some (PNextEvent_MessageEvent
                {| PMessageEvent_NextSpanId := spanEvent.nextSpanId event;
                   PMessageEvent_EndPoint := spanEvent.endPoint event;
                   PMessageEvent_DestinationId := spanEvent.destinationId event |})
         else None;
       PSpanEvent_AsyncEvent := spanEvent.asyncId event |} in
  (aSpanEvent, event).

(** The loop
    [for _, event := range span.spanEvents {
       spanEventList = append(spanEventList, makePSpanEvent(event)) }],
    returning the list built and the events as the loop leaves
    them. *)
Fixpoint encodeSpanEvents (spanEventList : list PSpanEvent)
    (done : list spanEvent.t) (events : list spanEvent.t)
  : list PSpanEvent * list spanEvent.t :=
  match events with
  | [] => (spanEventList, done)
  | event :: rest =>
      let '(aSpanEvent, event') := makePSpanEvent event in
      encodeSpanEvents (spanEventList ++ [aSpanEvent]) (done ++ [event']) rest
  end.

Definition makePTransactionId (tid : TransactionId) : PTransactionId :=
  {| PTransactionId_AgentId := AgentId tid;
     PTransactionId_AgentStartTime := StartTime tid;
     PTransactionId_Sequence := Sequence tid |}.

(** [makePSpan(span *span)]: the root-span message, and the span as
    the encoder leaves it. *)
Definition makePSpan (s : span.t) : PSpanMessage * span.t :=
  let s := span.set_annotations s
             (annotation.AppendString (span.annotations s) 12
                (span.operationName s)) in
  let '(spanEventList, events') := encodeSpanEvents [] [] (span.spanEvents s) in
  let s := span.set_spanEvents s events' in
  let gspan :=
    {| PSpan_Version := 1;
       PSpan_TransactionId := makePTransactionId (span.txId s);
       PSpan_SpanId := span.spanId s;
       PSpan_ParentSpanId := span.parentSpanId s;
       PSpan_StartTime := time.UnixMilli (span.startTime s);
       PSpan_Elapsed := GoInt.int32 (toMilliseconds (span.duration s));
       PSpan_ApiId := if 0 <? span.apiId s then span.apiId s else 0;
       PSpan_ServiceType := span.serviceType s;
       PSpan_AcceptEvent :=
         {| PAcceptEvent_Rpc := span.rpcName s;
            PAcceptEvent_EndPoint := span.endPoint s;
            PAcceptEvent_RemoteAddr := span.remoteAddr s;
            PAcceptEvent_ParentInfo :=
              if negb (String.eqb (span.parentAppName s) "")
              then Some {| PParentInfo_ParentApplicationName := span.parentAppName s;
                           PParentInfo_ParentApplicationType :=
                             GoInt.int32 (span.parentAppType s);
                           PParentInfo_AcceptorHost := span.acceptorHost s |}
              else None |};
       PSpan_Annotation := annotation.alist (span.annotations s);
       PSpan_Flag := GoInt.int32 (span.flags s);
       PSpan_SpanEvent := spanEventList;
       PSpan_Err := GoInt.int32 (span.err s);
       PSpan_ExceptionInfo := None;
       PSpan_ApplicationServiceType :=
         Config_ApplicationType (Agent_Config (span.agent s));
       PSpan_LoggingTransactionInfo := span.loggingInfo s |} in
  (PSpanMessage_Span gspan, s).

(** [makePSpanChunk(span *span)]. *)
Definition makePSpanChunk (s : span.t) : PSpanMessage * span.t :=
  let '(spanEventList, events') := encodeSpanEvents [] [] (span.spanEvents s) in
  let s := span.set_spanEvents s events' in
  let gspan :=
    {| PSpanChunk_Version := 1;
       PSpanChunk_TransactionId := makePTransactionId (span.txId s);
       PSpanChunk_SpanId := span.spanId s;
       PSpanChunk_EndPoint := span.endPoint s;
       PSpanChunk_SpanEvent := spanEventList;
       PSpanChunk_ApplicationServiceType :=
         Config_ApplicationType (Agent_Config (span.agent s));
       PSpanChunk_KeyTime := time.UnixMilli (span.startTime s);
       PSpanChunk_LocalAsyncId :=
         {| PLocalAsyncId_AsyncId := span.asyncId s;
            PLocalAsyncId_Sequence := span.asyncSequence s |} |} in
  (PSpanMessage_SpanChunk gspan, s).

End SpanEncoder.

(** *** The environment of the transport

    What the agent cannot decide by itself is read from an [Env], indexed
    by a step counter that every interaction advances: the value of the
    agent's enabled flag when it is polled, whether the collector accepts
    a stream (and how that stream will answer each [Send]), and the
    number drawn by [rand.Float64()]. *)

Inductive Channel : Set :=
| PingChannel | SpanChannel | StatChannel | CommandChannel.

Record Env : Type := {
  enableAt : nat -> bool;
  openAt : nat -> option (nat -> option grpc.error);
  randAt : nat -> Float64.float64
}.

Inductive Event : Type :=
| EvEnable (enabled : bool)
| EvOpen (ch : Channel) (socketId : option Z) (ok : bool)
| EvSleep (attempt : Z) (d : time.Duration).

Record World : Type := mkWorld {
  step : nat;
  events : list Event
}.

Definition tick (w : World) (ev : Event) : World :=
  mkWorld (S (step w)) (events w ++ [ev]).

(** [agent.Enable()] *)
Definition Enable (env : Env) (w : World) : bool * World :=
  let b := enableAt env (step w) in (b, tick w (EvEnable b)).

(** The only part of [grpcMetadataContext] that varies from one stream
    to the next: [if socketId > 0 { m["socketid"] = ... }]. *)
Definition socketIdMetadata (socketId : Z) : option Z :=
  if 0 <? socketId then Some socketId else None.

(** A stream-opening RPC ([PingSession], [SendSpan], [SendAgentStat],
    [HandleCommand]) with the metadata of [grpcMetadataContext]. *)
Definition openStream {M : Type} (env : Env) (ch : Channel) (socketId : Z)
    (w : World) : option (grpc.ClientStream M) * World :=
  match openAt env (step w) with
  | Some ans => (Some (grpc.fresh ans), tick w (EvOpen ch (socketIdMetadata socketId) true))
  | None => (None, tick w (EvOpen ch (socketIdMetadata socketId) false))
  end.

(** *** Back-off *)

Definition backOffBase : Float64.float64 := Float64.of_int (1 * time.Second).
Definition backOffMax : Float64.float64 := Float64.of_int (60 * time.Second).

(** The value of [dur] when [backOffSleep] draws the jitter:
    [dur := base * math.Pow(2, float64(attempt));
     if dur > max { dur = max }]. *)
Definition backOffDur (attempt : Z) : Float64.float64 :=
  let dur := Float64.mul backOffBase (Float64.pow2 attempt) in
  if Float64.ltb backOffMax dur then backOffMax else dur.

(** [jitter := time.Duration(rand.Float64()*(dur-base) + base)], where
    [u] is the number drawn. *)
Definition backOffJitter (attempt : Z) (u : Float64.float64) : time.Duration :=
  let dur := backOffDur attempt in
  Float64.to_int64
    (Float64.add (Float64.mul u (Float64.sub dur backOffBase)) backOffBase).

(** [backOffSleep(attempt)]: draws the jitter and sleeps for it. *)
Definition backOffSleep (env : Env) (attempt : Z) (w : World) : World :=
  tick w (EvSleep attempt (backOffJitter attempt (randAt env (step w)))).

(** *** Stream creation with retry

    The four functions [newPingStreamWithRetry],
    [newSpanStreamWithRetry], [newStatStreamWithRetry] and
    [newCommandStreamWithRetry] are the same loop

    [for n := 1; n < 100; n++ {
       if !agent.Enable() { break }
       s := open()
       if s.stream != nil { return s }
       backOffSleep(n)
     }
     return &stream{nil}]

    around four different [open] functions.  [withRetryFrom] is that
    loop from the iteration numbered [n] on, with [fuel] iterations
    left before [n] reaches 100; [G] is the state of the connection
    object the opener may update. *)

Section WithRetry.
Context {G T : Type}.
Variable env : Env.
(** [open()], e.g. [agentGrpc.newPingStream()] *)
Variable open : G -> World -> T * G * World.
(** [s.stream != nil] *)
Variable live : T -> bool.
(** [&stream{nil}] *)
Variable nilStream : T.

Fixpoint withRetryFrom (fuel : nat) (n : Z) (g : G) (w : World)
  : T * G * World :=
  match fuel with
  | O => (nilStream, g, w)
  | S fuel' =>
      let '(enabled, w) := Enable env w in
      if negb enabled then (nilStream, g, w)
      else
        let '(s, g, w) := open g w in
        if live s then (s, g, w)
        else withRetryFrom fuel' (n + 1) g (backOffSleep env n w)
  end.

Definition withRetry (g : G) (w : World) : T * G * World :=
  withRetryFrom 99 1 g w.
End WithRetry.

(** *** The agent channel: ping stream *)

Record agentGrpc : Type := {
  agentGrpc_pingSocketId : Z;
  agentGrpc_agent : Agent
}.

Record pingStream : Type := mkPingStream {
  pingStream_stream : option (grpc.ClientStream PPing)
}.

Definition newPingStream (env : Env) (g : agentGrpc) (w : World)
  : pingStream * agentGrpc * World :=
  let g := {| agentGrpc_pingSocketId := GoInt.incr64 (agentGrpc_pingSocketId g);
              agentGrpc_agent := agentGrpc_agent g |} in
  let '(stream, w) := openStream env PingChannel (agentGrpc_pingSocketId g) w in
  (mkPingStream stream, g, w).

Definition pingStream_live (s : pingStream) : bool :=
  bool_decide (is_Some (pingStream_stream s)).

Definition newPingStreamWithRetry (env : Env) (g : agentGrpc) (w : World)
  : pingStream * agentGrpc * World :=
  withRetry env (newPingStream env) pingStream_live (mkPingStream None) g w.

Definition ping : PPing := mkPPing.

Definition pingStream_sendPing (s : pingStream)
  : option grpc.error * pingStream :=
  match pingStream_stream s with
  | None => (Some (grpc.Errorf grpc.Unavailable "ping stream is nil"), s)
  | Some stream =>
      let '(e, stream) := grpc.Send stream ping in
      (e, mkPingStream (Some stream))
  end.

Definition pingStream_close (s : pingStream) : pingStream :=
  match pingStream_stream s with
  | Some _ => mkPingStream None
  | None => s
  end.

(** *** The span channel *)

Record spanGrpc : Type := { spanGrpc_agent : Agent }.

Record spanStream : Type := mkSpanStream {
  spanStream_stream : option (grpc.ClientStream PSpanMessage)
}.

Definition newSpanStream (env : Env) (g : spanGrpc) (w : World)
  : spanStream * spanGrpc * World :=
  let '(stream, w) := openStream env SpanChannel (-1) w in
  (mkSpanStream stream, g, w).

Definition spanStream_live (s : spanStream) : bool :=
  bool_decide (is_Some (spanStream_stream s)).

Definition newSpanStreamWithRetry (env : Env) (g : spanGrpc) (w : World)
  : spanStream * spanGrpc * World :=
  withRetry env (newSpanStream env) spanStream_live (mkSpanStream None) g w.

Definition spanStream_close (s : spanStream) : spanStream :=
  match spanStream_stream s with
  | None => s
  | Some _ => mkSpanStream None
  end.

(** [(s *spanStream) sendSpan(span *span) error], returning the error
    (or nil), the stream wrapper and the span as the call leaves
    them. *)
Definition spanStream_sendSpan `{Extern} (s : spanStream) (sp : span.t)
  : option grpc.error * spanStream * span.t :=
  match spanStream_stream s with
  | None => (Some (grpc.Errorf grpc.Unavailable "span stream is nil"), s, sp)
  | Some stream =>
      let '(gspan, sp) :=
        if span.asyncId sp =? 0 then makePSpan sp else makePSpanChunk sp in
      let '(e, stream) := grpc.Send stream gspan in
      (e, mkSpanStream (Some stream), sp)
  end.

(** *** Statistics samples and the stat channel *)

Module inspectorStats.
Record t : Type := mk {
  sampleTime : time.Time;
  cpuUserTime : Float64.float64;
  cpuSysTime : Float64.float64;
  goroutineNum : Z;
  heapAlloc : Z;
  heapMax : Z;
  nonHeapAlloc : Z;
  nonHeapMax : Z;
  gcNum : Z;
  gcTime : Z;
  responseAvg : Z;
  responseMax : Z;
  sampleNew : Z;
  sampleCont : Z;
  unSampleNew : Z;
  unSampleCont : Z;
  skipNew : Z;
  skipCont : Z;
  activeSpan : list Z
}.

Definition set_nonHeapMax (s : t) (v : Z) : t :=
  mk (sampleTime s) (cpuUserTime s) (cpuSysTime s) (goroutineNum s)
     (heapAlloc s) (heapMax s) (nonHeapAlloc s) v (gcNum s) (gcTime s)
     (responseAvg s) (responseMax s) (sampleNew s) (sampleCont s)
     (unSampleNew s) (unSampleCont s) (skipNew s) (skipCont s)
     (activeSpan s).
End inspectorStats.

(** [makePAgentStat(stat *inspectorStats)] *)
Definition makePAgentStat (stat : inspectorStats.t) : PAgentStat :=
  {| PAgentStat_Timestamp := time.UnixMilli (inspectorStats.sampleTime stat);
     PAgentStat_CollectInterval := 5000;
     PAgentStat_Gc :=
       {| PJvmGc_Type := 1;
          PJvmGc_JvmMemoryHeapUsed := inspectorStats.heapAlloc stat;
          PJvmGc_JvmMemoryHeapMax := inspectorStats.heapMax stat;
          PJvmGc_JvmMemoryNonHeapUsed := inspectorStats.nonHeapAlloc stat;
          PJvmGc_JvmMemoryNonHeapMax :=
            GoInt.add64 (inspectorStats.nonHeapAlloc stat) 1000;
          PJvmGc_JvmGcOldCount := inspectorStats.gcNum stat;
          PJvmGc_JvmGcOldTime := inspectorStats.gcTime stat |};
     PAgentStat_CpuLoad :=
       {| PCpuLoad_JvmCpuLoad := inspectorStats.cpuUserTime stat;
          PCpuLoad_SystemCpuLoad := inspectorStats.cpuSysTime stat |};
     PAgentStat_Transaction :=
       {| PTransaction_SampledNewCount := inspectorStats.sampleNew stat;
          PTransaction_SampledContinuationCount := inspectorStats.sampleCont stat;
          PTransaction_UnsampledNewCount := inspectorStats.unSampleNew stat;
          PTransaction_UnsampledContinuationCount := inspectorStats.unSampleCont stat;
          PTransaction_SkippedNewCount := inspectorStats.skipNew stat;
          PTransaction_SkippedContinuationCount := inspectorStats.skipCont stat |};
     PAgentStat_ActiveTrace :=
       {| PActiveTraceHistogram_Version := 1;
          PActiveTraceHistogram_HistogramSchemaType := 2;
          PActiveTraceHistogram_ActiveTraceCount := inspectorStats.activeSpan stat |};
     PAgentStat_ResponseTime :=
       {| PResponseTime_Avg := inspectorStats.responseAvg stat;
          PResponseTime_Max := inspectorStats.responseMax stat |} |}.

Record statGrpc : Type := { statGrpc_agent : Agent }.

Record statStream : Type := mkStatStream {
  statStream_stream : option (grpc.ClientStream PStatMessage)
}.

Definition newStatStream (env : Env) (g : statGrpc) (w : World)
  : statStream * statGrpc * World :=
  let '(stream, w) := openStream env StatChannel (-1) w in
  (mkStatStream stream, g, w).

Definition statStream_live (s : statStream) : bool :=
  bool_decide (is_Some (statStream_stream s)).

Definition newStatStreamWithRetry (env : Env) (g : statGrpc) (w : World)
  : statStream * statGrpc * World :=
  withRetry env (newStatStream env) statStream_live (mkStatStream None) g w.

Definition statStream_close (s : statStream) : statStream :=
  match statStream_stream s with
  | None => s
  | Some _ => mkStatStream None
  end.

(** The loop [for _, s := range stats { as = append(as, makePAgentStat(s)) }] *)
Fixpoint encodeStats (acc : list PAgentStat) (stats : list inspectorStats.t)
  : list PAgentStat :=
  match stats with
  | [] => acc
  | s :: rest => encodeStats (acc ++ [makePAgentStat s]) rest
  end.

(** [(s *statStream) sendStats(stats []*inspectorStats) error] *)
Definition statStream_sendStats (s : statStream) (stats : list inspectorStats.t)
  : option grpc.error * statStream :=
  match statStream_stream s with
  | None => (Some (grpc.Errorf grpc.Unavailable "stat stream is nil"), s)
  | Some stream =>
      let gstats := PStatMessage_AgentStatBatch (encodeStats [] stats) in
      let '(e, stream) := grpc.Send stream gstats in
      (e, mkStatStream (Some stream))
  end.

(** *** The command channel *)

Record cmdGrpc : Type := { cmdGrpc_agent : Agent }.

Record cmdStream : Type := mkCmdStream {
  cmdStream_stream : option (grpc.ClientStream PCmdMessage)
}.

Definition newHandleCommandStream (env : Env) (g : cmdGrpc) (w : World)
  : cmdStream * cmdGrpc * World :=
  let '(stream, w) := openStream env CommandChannel (-1) w in
  (mkCmdStream stream, g, w).

Definition cmdStream_live (s : cmdStream) : bool :=
  bool_decide (is_Some (cmdStream_stream s)).

Definition newCommandStreamWithRetry (env : Env) (g : cmdGrpc) (w : World)
  : cmdStream * cmdGrpc * World :=
  withRetry env (newHandleCommandStream env) cmdStream_live (mkCmdStream None) g w.

Section ThreadDump.
Context `{Extern}.

(** [goRoutineState(g)]: the switch on [g.metas[MetaState]]. *)
Definition goRoutineState (g : Goroutine) : PThreadState :=
  let state := default ""%string (Goroutine_metas g !! MetaState) in
  if String.eqb state "running" then PThreadState_THREAD_STATE_RUNNABLE
  else if String.eqb state "select" then PThreadState_THREAD_STATE_WAITING
  else if String.eqb state "IO wait" then PThreadState_THREAD_STATE_WAITING
  else if String.eqb state "chan receive" then PThreadState_THREAD_STATE_WAITING
  else if String.eqb state "sleep" then PThreadState_THREAD_STATE_BLOCKED
  else PThreadState_THREAD_STATE_UNKNOWN.

(** [makePActiveThreadDump(g)]; [now] is the reading of [time.Now()]. *)
Definition makePActiveThreadDump (now : time.Time) (g : Goroutine)
  : PActiveThreadDump :=
  {| PActiveThreadDump_StartTime := time.UnixMilli now;
     PActiveThreadDump_LocalTraceId := 0;
     PActiveThreadDump_ThreadDump :=
       {| PThreadDump_ThreadName := Goroutine_header g;
          PThreadDump_ThreadId := GoInt.int64 (Goroutine_id g);
          PThreadDump_ThreadState := goRoutineState g;
          PThreadDump_StackTrace := [Goroutine_trace g] |};
     PActiveThreadDump_Sampled := false;
     PActiveThreadDump_TransactionId := "";
     PActiveThreadDump_EntryPoint := "" |}.

(** [makePActiveThreadLightDump(g)] *)
Definition makePActiveThreadLightDump (now : time.Time) (g : Goroutine)
  : PActiveThreadLightDump :=
  {| PActiveThreadLightDump_StartTime := time.UnixMilli now;
     PActiveThreadLightDump_LocalTraceId := 0;
     PActiveThreadLightDump_ThreadDump :=
       {| PThreadLightDump_ThreadName := Goroutine_header g;
          PThreadLightDump_ThreadId := GoInt.int64 (Goroutine_id g);
          PThreadLightDump_ThreadState := goRoutineState g |};
     PActiveThreadLightDump_Sampled := false;
     PActiveThreadLightDump_TransactionId := "";
     PActiveThreadLightDump_EntryPoint := "" |}.

(** The loop
    [for _, tn := range threadName {
       g := dump.Search(tn); if g != nil { selected = append(selected, g) } }] *)
Fixpoint selectThreads (dump : GoroutineDump) (selected : list Goroutine)
    (threadName : list string) : list Goroutine :=
  match threadName with
  | [] => selected
  | tn :: rest =>
      match Search dump tn with
      | Some g => selectThreads dump (selected ++ [g]) rest
      | None => selectThreads dump selected rest
      end
  end.

(** The loop
    [for i := 0; i < limit && i < len(src); i++ {
       dumpList = append(dumpList, mk(src[i])) }]
    shared by the two dump lists, from index [i] on; [clock i] is the
    reading of [time.Now()] in the iteration of index [i].  [fuel]
    bounds the number of iterations left; the index is in range where
    [src] is read. *)
Fixpoint dumpLoop {A : Type} (mk : time.Time -> Goroutine -> A)
    (clock : Z -> time.Time) (fuel : nat) (i limit : Z)
    (src : list Goroutine) (dumpList : list A) : list A :=
  match fuel with
  | O => dumpList
  | S fuel' =>
      if (i <? limit) && (i <? Z.of_nat (length src)) then
        match src !! Z.to_nat i with
        | Some g =>
            dumpLoop mk clock fuel' (i + 1) limit src
                     (dumpList ++ [mk (clock i) g])
        | None => dumpList
        end
      else dumpList
  end.

(** [makePActiveThreadDumpList(dump, limit, threadName, localId)] *)
Definition makePActiveThreadDumpList (clock : Z -> time.Time)
    (dump : GoroutineDump) (limit : Z) (threadName : list string)
    (localId : list Z) : list PActiveThreadDump :=
  let limit :=
    if limit <? 1 then Z.of_nat (length (GoroutineDump_goroutines dump))
    else limit in
  let selected := selectThreads dump [] threadName in
  dumpLoop makePActiveThreadDump clock (length selected) 0 limit selected [].

(** [makePActiveThreadLightDumpList(dump, limit)] *)
Definition makePActiveThreadLightDumpList (clock : Z -> time.Time)
    (dump : GoroutineDump) (limit : Z) : list PActiveThreadLightDump :=
  let limit :=
    if limit <? 1 then Z.of_nat (length (GoroutineDump_goroutines dump))
    else limit in
  dumpLoop makePActiveThreadLightDump clock
           (length (GoroutineDump_goroutines dump)) 0 limit
           (GoroutineDump_goroutines dump) [].

End ThreadDump.

(** *** The statistics aggregator

    The package-level variables of the aggregator, as one state. *)

Record Timeval : Type := { Timeval_Sec : Z; Timeval_Usec : Z }.

(** [syscall.Rusage], the two fields read. *)
Record Rusage : Type := { Rusage_Utime : Timeval; Rusage_Stime : Timeval }.

(** [runtime.MemStats], the fields read (unsigned integers). *)
Record MemStats : Type := {
  MemStats_HeapAlloc : Z;
  MemStats_Sys : Z;
  MemStats_StackInuse : Z;
  MemStats_StackSys : Z;
  MemStats_NumGC : Z;
  MemStats_PauseTotalNs : Z
}.

Record Stats : Type := mkStats {
  lastRusage : Rusage;
  lastMemStats : MemStats;
  lastCollectTime : time.Time;
  accResponseTime : Z;
  maxResponseTime : Z;
  requestCount : Z;
  sampleNew : Z;
  unsampleNew : Z;
  sampleCont : Z;
  unsampleCont : Z;
  skipNew : Z;
  skipCont : Z;
  (** [sync.Map] from span id to start time *)
  activeSpan : gmap Z time.Time
}.

(** What one call of [getStats] reads from the operating system and the
    runtime: the clock, the resource usage, the memory statistics and
    the number of goroutines. *)
Record Probe : Type := {
  Probe_now : time.Time;
  Probe_rusage : Rusage;
  Probe_mem : MemStats;
  Probe_numGoroutine : Z
}.

(** [calcResponseAvg()]; [None] is a division panic. *)
Definition calcResponseAvg (st : Stats) : option Z :=
  if 0 <? requestCount st
  then GoInt.div64 (accResponseTime st) (requestCount st)
  else Some 0.

(** [resetResponseTime()] *)
Definition resetResponseTime (st : Stats) : Stats :=
  mkStats (lastRusage st) (lastMemStats st) (lastCollectTime st)
          0 0 0 0 0 0 0 0 0 (activeSpan st).

(** [collectResponseTime(resTime)] *)
Definition collectResponseTime (resTime : Z) (st : Stats) : Stats :=
  mkStats (lastRusage st) (lastMemStats st) (lastCollectTime st)
          (GoInt.add64 (accResponseTime st) resTime)
          (if maxResponseTime st <? resTime then resTime else maxResponseTime st)
          (GoInt.incr64 (requestCount st))
          (sampleNew st) (unsampleNew st) (sampleCont st) (unsampleCont st)
          (skipNew st) (skipCont st) (activeSpan st).

Definition set_activeSpan (st : Stats) (m : gmap Z time.Time) : Stats :=
  mkStats (lastRusage st) (lastMemStats st) (lastCollectTime st)
          (accResponseTime st) (maxResponseTime st) (requestCount st)
          (sampleNew st) (unsampleNew st) (sampleCont st) (unsampleCont st)
          (skipNew st) (skipCont st) m.

(** [addActiveSpan(spanId, start)] and [dropActiveSpan(spanId)] *)
Definition addActiveSpan (spanId : Z) (start : time.Time) (st : Stats) : Stats :=
  set_activeSpan st (<[spanId := start]> (activeSpan st)).

Definition dropActiveSpan (spanId : Z) (st : Stats) : Stats :=
  set_activeSpan st (delete spanId (activeSpan st)).

(** [incrSampleNew()] and its five siblings *)
Definition incrSampleNew (st : Stats) : Stats :=
  mkStats (lastRusage st) (lastMemStats st) (lastCollectTime st)
          (accResponseTime st) (maxResponseTime st) (requestCount st)
          (GoInt.incr64 (sampleNew st)) (unsampleNew st) (sampleCont st)
          (unsampleCont st) (skipNew st) (skipCont st) (activeSpan st).

Definition incrUnsampleNew (st : Stats) : Stats :=
  mkStats (lastRusage st) (lastMemStats st) (lastCollectTime st)
          (accResponseTime st) (maxResponseTime st) (requestCount st)
          (sampleNew st) (GoInt.incr64 (unsampleNew st)) (sampleCont st)
          (unsampleCont st) (skipNew st) (skipCont st) (activeSpan st).

Definition incrSampleCont (st : Stats) : Stats :=
  mkStats (lastRusage st) (lastMemStats st) (lastCollectTime st)
          (accResponseTime st) (maxResponseTime st) (requestCount st)
          (sampleNew st) (unsampleNew st) (GoInt.incr64 (sampleCont st))
          (unsampleCont st) (skipNew st) (skipCont st) (activeSpan st).

Definition incrUnsampleCont (st : Stats) : Stats :=
  mkStats (lastRusage st) (lastMemStats st) (lastCollectTime st)
          (accResponseTime st) (maxResponseTime st) (requestCount st)
          (sampleNew st) (unsampleNew st) (sampleCont st)
          (GoInt.incr64 (unsampleCont st)) (skipNew st) (skipCont st)
          (activeSpan st).

Definition incrSkipNew (st : Stats) : Stats :=
  mkStats (lastRusage st) (lastMemStats st) (lastCollectTime st)
          (accResponseTime st) (maxResponseTime st) (requestCount st)
          (sampleNew st) (unsampleNew st) (sampleCont st) (unsampleCont st)
          (GoInt.incr64 (skipNew st)) (skipCont st) (activeSpan st).

Definition incrSkipCont (st : Stats) : Stats :=
  mkStats (lastRusage st) (lastMemStats st) (lastCollectTime st)
          (accResponseTime st) (maxResponseTime st) (requestCount st)
          (sampleNew st) (unsampleNew st) (sampleCont st) (unsampleCont st)
          (skipNew st) (GoInt.incr64 (skipCont st)) (activeSpan st).

(** The body of the closure passed to [activeSpan.Range]: the index of
    the bucket that a span started at [start] increments,
    [d := now.Sub(start).Seconds();
     if d < 1 {0} else if d < 3 {1} else if d < 5 {2} else {3}]. *)
Definition activeSpanBucket (now start : time.Time) : nat :=
  let d := time.Seconds (time.Sub now start) in
  if Float64.ltb d (Float64.of_int 1) then 0%nat
  else if Float64.ltb d (Float64.of_int 3) then 1%nat
  else if Float64.ltb d (Float64.of_int 5) then 2%nat
  else 3%nat.

(** [activeSpanCount[i]++] on a slice of int32 *)
Definition incrBucket (i : nat) (activeSpanCount : list Z) : list Z :=
  alter GoInt.incr32 i activeSpanCount.

(** [activeSpanCount := []int32{0, 0, 0, 0}; activeSpan.Range(...)].
    [Range] visits every entry once, in an order it does not specify;
    [map_fold] is such a visit. *)
Definition rangeActiveSpan (now : time.Time) (m : gmap Z time.Time) : list Z :=
  map_fold (fun _ start activeSpanCount =>
              incrBucket (activeSpanBucket now start) activeSpanCount)
           [0; 0; 0; 0] m.

(** [getActiveSpanCount(now)] *)
Definition getActiveSpanCount (now : time.Time) (st : Stats) : list Z :=
  rangeActiveSpan now (activeSpan st).

Section GetStats.
Context `{Extern}.

(** [cpuTime(timeval)]: [time.Unix(timeval.Sec, int64(timeval.Usec)*1000)] *)
Definition cpuTime (timeval : Timeval) : time.Time :=
  Timeval_Sec timeval * time.Second + GoInt.int64 (Timeval_Usec timeval * 1000).

(** [cpuUtilization(cur, prev, dur)] *)
Definition cpuUtilization (cur prev : Timeval) (dur : time.Duration)
  : Float64.float64 :=
  Float64.div
    (Float64.mul
       (Float64.div
          (Float64.of_int (toMicroseconds (time.Sub (cpuTime cur) (cpuTime prev))))
          (Float64.of_int (toMicroseconds dur)))
       (Float64.of_int 100))
    (Float64.of_int NumCPU).

(** [getStats()]: the snapshot and the state it leaves, or [None] when
    the call panics.  The rate fields divide by
    [int64(dur.Seconds())]. *)
Definition getStats (p : Probe) (st : Stats)
  : option (inspectorStats.t * Stats) :=
  let now := Probe_now p in
  let rsg := Probe_rusage p in
  let mem := Probe_mem p in
  let dur := time.Sub now (lastCollectTime st) in
  let activeSpanCount := rangeActiveSpan now (activeSpan st) in
  let secs := Float64.to_int64 (time.Seconds dur) in
  responseAvg ← calcResponseAvg st;
  rateSampleNew ← GoInt.div64 (sampleNew st) secs;
  rateSampleCont ← GoInt.div64 (sampleCont st) secs;
  rateUnSampleNew ← GoInt.div64 (unsampleNew st) secs;
  rateUnSampleCont ← GoInt.div64 (unsampleCont st) secs;
  rateSkipNew ← GoInt.div64 (skipNew st) secs;
  rateSkipCont ← GoInt.div64 (skipCont st) secs;
  let stats :=
    inspectorStats.mk
      now
      (cpuUtilization (Rusage_Utime rsg) (Rusage_Utime (lastRusage st)) dur)
      (cpuUtilization (Rusage_Stime rsg) (Rusage_Stime (lastRusage st)) dur)
      (Probe_numGoroutine p)
      (GoInt.int64 (MemStats_HeapAlloc mem))
      (GoInt.int64 (MemStats_Sys mem))
      (GoInt.int64 (MemStats_StackInuse mem))
      (GoInt.int64 (MemStats_StackSys mem))
      (GoInt.uint32 (MemStats_NumGC mem - MemStats_NumGC (lastMemStats st)))
      (Z.quot (GoInt.int64 (GoInt.uint64
                 (MemStats_PauseTotalNs mem
                  - MemStats_PauseTotalNs (lastMemStats st))))
              time.Millisecond)
      responseAvg
      (maxResponseTime st)
      rateSampleNew rateSampleCont rateUnSampleNew rateUnSampleCont
      rateSkipNew rateSkipCont
      activeSpanCount in
  let st := mkStats rsg mem now
              (accResponseTime st) (maxResponseTime st) (requestCount st)
              (sampleNew st) (unsampleNew st) (sampleCont st)
              (unsampleCont st) (skipNew st) (skipCont st)
              (activeSpan st) in
  Some (stats, resetResponseTime st).

End GetStats.

(** *** Functions of the modelled files beside the ones above *)

(** [(tid TransactionId) String()] of tracer.go:
    [fmt.Sprintf("%s^%d^%d", tid.AgentId, tid.StartTime, tid.Sequence)]. *)
Definition TransactionId_String (tid : TransactionId) : string :=
  (AgentId tid ++ "^" ++ strconv.FormatInt (StartTime tid) ++ "^"
   ++ strconv.FormatInt (Sequence tid))%string.

(** [grpcMetadataContext(agent, socketId)]: the metadata map [m] that the
    outgoing context carries (the keys are in lower case already, as
    [metadata.New] makes them). *)
Definition grpcMetadataContext (agent : Agent) (socketId : Z)
  : gmap string string :=
  let m : gmap string string := ∅ in
  let m := <["agentid"%string := Config_AgentId (Agent_Config agent)]> m in
  let m := <["applicationname"%string :=
               Config_ApplicationName (Agent_Config agent)]> m in
  let m := <["starttime"%string := strconv.FormatInt (Agent_StartTime agent)]> m in
  if 0 <? socketId
  then <["socketid"%string := strconv.FormatInt socketId]> m
  else m.

(** [(s *spanStream) sendSpanFinish()]: [s.stream.CloseSend()], with no
    check of the handle; a method call on a nil interface value is a
    run-time panic ([None]). *)
Definition spanStream_sendSpanFinish (s : spanStream) : option spanStream :=
  match spanStream_stream s with
  | None => None
  | Some stream => Some (mkSpanStream (Some (grpc.CloseSend stream)))
  end.

(** [(s *cmdStream) close()] *)
Definition cmdStream_close (s : cmdStream) : cmdStream :=
  match cmdStream_stream s with
  | None => s
  | Some _ => mkCmdStream None
  end.

(** *** The stream of active-thread counts *)

Record activeThreadCountStream : Type := mkActiveThreadCountStream {
  activeThreadCountStream_stream
    : option (grpc.ClientStream PCmdActiveThreadCountRes);
  activeThreadCountStream_reqId : Z;
  activeThreadCountStream_actCount : Z
}.

(** [(cmdGrpc *cmdGrpc) newActiveThreadCountStream(reqId)]; [opened] is
    what the call [CommandStreamActiveThreadCount] returned: the stream,
    or nil with an error. *)
Definition newActiveThreadCountStream
    (opened : option (grpc.ClientStream PCmdActiveThreadCountRes)) (reqId : Z)
  : activeThreadCountStream :=
  match opened with
  | None => mkActiveThreadCountStream None (-1) 0
  | Some stream => mkActiveThreadCountStream (Some stream) reqId 0
  end.

(** [(s *activeThreadCountStream) close()] *)
Definition activeThreadCountStream_close (s : activeThreadCountStream)
  : activeThreadCountStream :=
  match activeThreadCountStream_stream s with
  | None => s
  | Some _ =>
      mkActiveThreadCountStream None (activeThreadCountStream_reqId s)
                                (activeThreadCountStream_actCount s)
  end.

(** [(s *activeThreadCountStream) sendActiveThreadCount()]; [now] is the
    reading of [time.Now()] and [st] the aggregator, whose registry
    [getActiveSpanCount] reads. *)
Definition activeThreadCountStream_sendActiveThreadCount (now : time.Time)
    (st : Stats) (s : activeThreadCountStream)
  : option grpc.error * activeThreadCountStream :=
  match activeThreadCountStream_stream s with
  | None => (Some (grpc.Errorf grpc.Unavailable "command stream is nil"), s)
  | Some stream =>
      let activeThreadCount := getActiveSpanCount now st in
      let actCount := GoInt.incr32 (activeThreadCountStream_actCount s) in
      let gRes :=
        {| PCmdActiveThreadCountRes_CommonStreamResponse :=
             {| PCmdStreamResponse_ResponseId := activeThreadCountStream_reqId s;
                PCmdStreamResponse_SequenceId := actCount;
                PCmdStreamResponse_Message := "" |};
           PCmdActiveThreadCountRes_HistogramSchemaType := 2;
           PCmdActiveThreadCountRes_ActiveThreadCount := activeThreadCount;
           PCmdActiveThreadCountRes_TimeStamp := time.UnixMilli now |} in
      let '(e, stream) := grpc.Send stream gRes in
      (e, mkActiveThreadCountStream (Some stream)
            (activeThreadCountStream_reqId s) actCount)
  end.

(** *** Connecting to the collector

    What a call of [grpc.Dial] returns is for the network to decide:
    [dial n] is the outcome of the call made in the iteration numbered
    [n], [None] for a connection (and a nil error), [Some err] for a nil
    connection and the error [err]. *)

(** The loop of [connectToCollectorWithRetry] from the iteration
    numbered [n] on, with [fuel] iterations left before [n] reaches 100;
    [err] is the error of the last call so far. *)
Fixpoint connectFrom (env : Env) (dial : Z -> option grpc.error) (fuel : nat)
    (n : Z) (err : option grpc.error) (w : World) : option grpc.error * World :=
  match fuel with
  | O => (err, w)
  | S fuel' =>
      match dial n with
      | None => (None, w)
      | Some e => connectFrom env dial fuel' (n + 1) (Some e) (backOffSleep env n w)
      end
  end.

(** [connectToCollectorWithRetry(serverAddr, opts)]: the error returned
    ([None] is nil, with which a connection is returned). *)
Definition connectToCollectorWithRetry (env : Env) (dial : Z -> option grpc.error)
    (w : World) : option grpc.error * World :=
  connectFrom env dial 99 1 None w.





(** *** The statistics worker

    [sendStatsWorker] runs until the agent is disabled.  What it reads
    from the operating system, the runtime and the clock is given by
    [probes]: [probes 0] is read by [initStats], [probes i] by the
    [i]-th call of [getStats].  The time that the worker sleeps between
    two samples ([CollectInterval]) shows only in these readings.  The
    agent's fields [statStreamReq] and [statStreamReqCount], which the
    worker writes and never reads, are left out. *)

(** [initStats()] *)
Definition initStats (p : Probe) (st : Stats) : Stats :=
  mkStats (Probe_rusage p) (Probe_mem p) (Probe_now p)
          (accResponseTime st) (maxResponseTime st) (requestCount st)
          (sampleNew st) (unsampleNew st) (sampleCont st) (unsampleCont st)
          (skipNew st) (skipCont st) ∅.

(** How a run of the worker ends: it returned, it panicked, or it is
    still in its loop after the iterations looked at. *)
Inductive Outcome (A : Type) : Type :=
| Returned (a : A)
| Panicked
| Running (a : A).
Arguments Returned {A}.
Arguments Panicked {A}.
Arguments Running {A}.

(** The variables of the worker: the aggregator, the stat connection
    and [agent.statStream], the slice [collected] of sample pointers
    (nil at first) and the index [batch]. *)
Record statWorker : Type := mkStatWorker {
  statWorker_stats : Stats;
  statWorker_statGrpc : statGrpc;
  statWorker_statStream : statStream;
  statWorker_collected : list (option inspectorStats.t);
  statWorker_batch : Z
}.

(** [agent.statStream.sendStats(collected)]: the samples are read only
    when the stream is live, and reading a nil sample is a panic
    ([None]). *)
Definition sendCollected (s : statStream)
    (collected : list (option inspectorStats.t))
  : option (option grpc.error * statStream) :=
  match statStream_stream s with
  | None => Some (statStream_sendStats s [])
  | Some _ =>
      stats ← mapM (fun x : option inspectorStats.t => x) collected;
      Some (statStream_sendStats s stats)
  end.

Section StatWorker.
Context `{Extern}.
Variable env : Env.
Variable probes : nat -> Probe.
(** [agent.config.Stat.BatchCount] *)
Variable BatchCount : Z.

(** The body of the loop after the test of [agent.enable], for the
    [i]-th sample: [collected[batch] = getStats(); batch++] and, when
    the batch is full, the send; [None] is a panic (of [getStats], or
    of the index out of range). *)
Definition statsIteration (i : nat) (s : statWorker) (w : World)
  : option (statWorker * World) :=
  '(sample, st) ← getStats (probes i) (statWorker_stats s);
  let batch := statWorker_batch s in
  let collected := statWorker_collected s in
  if (0 <=? batch) && (batch <? Z.of_nat (length collected)) then
    let collected := <[Z.to_nat batch := Some sample]> collected in
    let batch := batch + 1 in
    if batch =? BatchCount then
      '(err, stream) ← sendCollected (statWorker_statStream s) collected;
      match err with
      | Some _ =>
          let _closed := statStream_close stream in
          let '(stream, g, w) :=
            newStatStreamWithRetry env (statWorker_statGrpc s) w in
          Some (mkStatWorker st g stream collected 0, w)
      | None =>
          Some (mkStatWorker st (statWorker_statGrpc s) stream collected 0, w)
      end
    else
      Some (mkStatWorker st (statWorker_statGrpc s) (statWorker_statStream s)
                         collected batch, w)
  else None.

(** The loop [for true { if !agent.enable { break }; ... }] and the
    [close] after it, from the [i]-th sample on and for at most [fuel]
    iterations. *)
Fixpoint statsLoop (fuel : nat) (i : nat) (s : statWorker) (w : World)
  : Outcome (statWorker * World) :=
  match fuel with
  | O => Running (s, w)
  | S fuel' =>
      let '(enabled, w) := Enable env w in
      if negb enabled then
        Returned (mkStatWorker (statWorker_stats s) (statWorker_statGrpc s)
                    (statStream_close (statWorker_statStream s))
                    (statWorker_collected s) (statWorker_batch s), w)
      else
        match statsIteration i s w with
        | None => Panicked
        | Some (s, w) => statsLoop fuel' (S i) s w
        end
  end.

(** [(agent *agent) sendStatsWorker()], looked at for [fuel] iterations
    of its loop; [make] panics on a negative length. *)
Definition sendStatsWorker (fuel : nat) (g : statGrpc) (st : Stats) (w : World)
  : Outcome (statWorker * World) :=
  let st := resetResponseTime (initStats (probes 0) st) in
  let '(stream, g, w) := newStatStreamWithRetry env g w in
  if BatchCount <? 0 then Panicked
  else
    statsLoop fuel 1
      (mkStatWorker st g stream (replicate (Z.to_nat BatchCount) None) 0) w.

End StatWorker.

End pinpoint.

(** ** Vocabulary of the statements *)

Module Vocabulary.

Import pb pinpoint.

(** Modelled from the spec: the helpers [toMilliseconds],
    [toMicroseconds] and [GoroutineDump.Search] are not in the modelled
    files.  Durations are reported in milliseconds and microseconds, the
    thread filter is an exact lookup of a name in the snapshot.  This
    instance is used where a statement is evaluated on concrete data;
    every theorem below holds for all instances. *)
Definition sampleExtern : Extern :=
  {| Search := fun dump name =>
       List.find (fun g => String.eqb (Goroutine_header g) name)
                 (GoroutineDump_goroutines dump);
     toMilliseconds := fun d => Z.quot d 1000000;
     toMicroseconds := fun d => Z.quot d 1000;
     NumCPU := 4;
     MetaState := 0 |}.

(** The two shapes of a span wire message. *)
Definition isRootSpan (m : PSpanMessage) : bool :=
  match m with PSpanMessage_Span _ => true | PSpanMessage_SpanChunk _ => false end.

Definition isSpanChunk (m : PSpanMessage) : bool :=
  match m with PSpanMessage_Span _ => false | PSpanMessage_SpanChunk _ => true end.

(** An error that carries the Unavailable condition. *)
Definition isUnavailable (e : option grpc.error) : bool :=
  match e with
  | Some err => match grpc.code err with grpc.Unavailable => true | _ => false end
  | None => false
  end.

(** Two span events that agree on every field but the annotations. *)
Definition sameEventButAnnotations (e e' : spanEvent.t) : Prop :=
  spanEvent.operationName e' = spanEvent.operationName e
  /\ spanEvent.apiId e' = spanEvent.apiId e
  /\ spanEvent.sequence e' = spanEvent.sequence e
  /\ spanEvent.depth e' = spanEvent.depth e
  /\ spanEvent.startElapsed e' = spanEvent.startElapsed e
  /\ spanEvent.duration e' = spanEvent.duration e
  /\ spanEvent.serviceType e' = spanEvent.serviceType e
  /\ spanEvent.asyncId e' = spanEvent.asyncId e
  /\ spanEvent.errorFuncId e' = spanEvent.errorFuncId e
  /\ spanEvent.errorString e' = spanEvent.errorString e
  /\ spanEvent.destinationId e' = spanEvent.destinationId e
  /\ spanEvent.nextSpanId e' = spanEvent.nextSpanId e
  /\ spanEvent.endPoint e' = spanEvent.endPoint e.

(** Two spans that agree on every field but the annotations and the
    span events. *)
Definition sameSpanButAnnotationsAndEvents (s s' : span.t) : Prop :=
  span.agent s' = span.agent s
  /\ span.txId s' = span.txId s
  /\ span.spanId s' = span.spanId s
  /\ span.parentSpanId s' = span.parentSpanId s
  /\ span.startTime s' = span.startTime s
  /\ span.duration s' = span.duration s
  /\ span.serviceType s' = span.serviceType s
  /\ span.operationName s' = span.operationName s
  /\ span.rpcName s' = span.rpcName s
  /\ span.endPoint s' = span.endPoint s
  /\ span.remoteAddr s' = span.remoteAddr s
  /\ span.acceptorHost s' = span.acceptorHost s
  /\ span.parentAppName s' = span.parentAppName s
  /\ span.parentAppType s' = span.parentAppType s
  /\ span.flags s' = span.flags s
  /\ span.err s' = span.err s
  /\ span.apiId s' = span.apiId s
  /\ span.loggingInfo s' = span.loggingInfo s
  /\ span.asyncId s' = span.asyncId s
  /\ span.asyncSequence s' = span.asyncSequence s.

(** The operation-name annotation that the encoders synthesize. *)
Definition operationNameAnnotation (name : string) : PAnnotation :=
  {| PAnnotation_Key := 12;
     PAnnotation_Value := PAnnotationValue_StringValue name |}.

(** What encoding appends to the annotations of a span event. *)
Definition eventAppendix (e : spanEvent.t) : list PAnnotation :=
  if (spanEvent.apiId e =? 0) && negb (String.eqb (spanEvent.operationName e) "")
  then [operationNameAnnotation (spanEvent.operationName e)]
  else [].

(** The shape of what a retry loop does to the world: iterations that
    poll the flag, read true, try to open a stream, and sleep when that
    failed; a poll that reads false ends the sequence.  In particular
    every attempt to open a stream comes right after a poll of the same
    iteration that read true. *)
Fixpoint gated (evs : list Event) : bool :=
  match evs with
  | [] => true
  | EvEnable false :: rest =>
      match rest with [] => true | _ :: _ => false end
  | EvEnable true :: EvOpen _ _ _ :: rest => gated rest
  | EvEnable true :: _ => false
  | EvOpen _ _ _ :: _ => false
  | EvSleep _ _ :: rest => gated rest
  end.

(** The outcome [r] of a retry loop started in the world [w]: what it
    added to the events is [gated], and a poll that read false means
    that the stream wrapper returned holds no stream. *)
Definition stopsWhenDisabled {T G M : Type}
    (handle : T -> option (grpc.ClientStream M)) (w : World)
    (r : T * G * World) : Prop :=
  exists evs : list Event,
    events (snd r) = events w ++ evs
    /\ gated evs = true
    /\ (In (EvEnable false) evs -> handle (fst (fst r)) = None).

(** The effective limit of the two thread-dump encoders. *)
Definition effectiveLimit (dump : GoroutineDump) (limit : Z) : Z :=
  if limit <=? 0 then Z.of_nat (length (GoroutineDump_goroutines dump))
  else limit.

(** The threads that the filter list matches, in the order of the
    filter list. *)
Definition matched `{Extern} (dump : GoroutineDump) (threadName : list string)
  : list Goroutine :=
  omap (Search dump) threadName.

(** The first [limit] elements of [src], each encoded by [mk] with the
    clock reading of its index. *)
Definition dumped {A : Type} (mk : time.Time -> Goroutine -> A)
    (clock : Z -> time.Time) (limit : Z) (src : list Goroutine) : list A :=
  imap (fun i g => mk (clock (Z.of_nat i)) g) (take (Z.to_nat limit) src).


(** *** Values of binary64 numbers

    The value of a finite float [m * 2^e], counted in units of
    [2^-scale]; [scale] is large enough for every exponent that the
    operations meet, so that all values are integers. *)

Definition scale : Z := 2200.

Definition V (m e : Z) : Z := m * 2 ^ (e + scale).

(** The float that [binary_round_aux] packs from the rounded mantissa
    [m1] on the grid of exponent [e1]. *)
Definition pack (sx : bool) (m1 e1 : Z) : spec_float :=
  match m1 with
  | Z.pos q =>
      if m1 <? 2 ^ 53
      then (if e1 <=? 971 then S754_finite sx q e1 else S754_infinity sx)
      else (if e1 + 1 <=? 971 then S754_finite sx 4503599627370496 (e1 + 1)
            else S754_infinity sx)
  | _ => S754_zero sx
  end.

Definition Fval (f : spec_float) : Z :=
  match f with
  | S754_finite s m e => if s then - V (Z.pos m) e else V (Z.pos m) e
  | _ => 0
  end.

(** Zero, a valid positive number, or [+Inf]. *)
Definition nonnegValid (f : spec_float) : bool :=
  match f with
  | S754_zero false | S754_infinity false => true
  | S754_finite false m e => bounded Float64.prec Float64.emax m e
  | _ => false
  end.

Definition Vone : Z := 2 ^ scale.

(** Zero of either sign, a negative number, or [-Inf]. *)
Definition nonpos (f : spec_float) : bool :=
  match f with
  | S754_zero _ | S754_finite true _ _ | S754_infinity true => true
  | _ => false
  end.

(** *** Back-off

    The delay of an attempt before the jitter, in nanoseconds: the base
    doubled [attempt] times, capped. *)
Definition backOffDurNs (attempt : Z) : Z :=
  Z.min (1000000000 * 2 ^ attempt) 60000000000.

(** What [rand.Float64()] returns: a binary64 number of the half-open
    interval from 0 to 1. *)
Definition unitInterval (u : Float64.float64) : bool :=
  valid_binary Float64.prec Float64.emax u
  && Float64.leb (Float64.of_int 0) u
  && Float64.ltb u (Float64.of_int 1).

(** *** The active-span histogram

    The half-open age buckets, for an age in nanoseconds: below 1s,
    from 1s to below 3s, from 3s to below 5s, and from 5s on. *)
Definition ageBucket (age : Z) : nat :=
  if age <? 1000000000 then 0%nat
  else if age <? 3000000000 then 1%nat
  else if age <? 5000000000 then 2%nat
  else 3%nat.

(** The number of entries of [l] (span id and start time) whose age at
    [now] falls in bucket [i]. *)
Definition bucketCount (now : time.Time) (l : list (Z * time.Time)) (i : nat)
  : nat :=
  length (filter (fun kv : Z * time.Time => ageBucket (now - kv.2) = i) l).

(** The number of registered spans whose age at [now] falls in bucket
    [i]. *)
Definition spansInBucket (now : time.Time) (m : gmap Z time.Time) (i : nat)
  : nat :=
  bucketCount now (map_to_list m) i.

(** *** Sample data

    Concrete spans, samples, registries and environments on which the
    statements below are evaluated. *)

(** A root span with an operation name and no annotation yet. *)
Definition plainSpan : span.t :=
  span.mk {| Agent_Config := {| Config_AgentId := "agent";
                                Config_ApplicationName := "app";
                                Config_ApplicationType := 1800;
                                Config_IsContainer := false |};
             Agent_StartTime := 0 |}
          {| AgentId := "agent"; StartTime := 0; Sequence := 1 |}
          7 (-1) 0 0 1800 "GET /" "" "" "" "" "" 0 0 0 0 0 0 0
          (annotation.mk []) [].

Definition noRusage : Rusage :=
  {| Rusage_Utime := {| Timeval_Sec := 0; Timeval_Usec := 0 |};
     Rusage_Stime := {| Timeval_Sec := 0; Timeval_Usec := 0 |} |}.

Definition noMemStats : MemStats :=
  {| MemStats_HeapAlloc := 0; MemStats_Sys := 0; MemStats_StackInuse := 0;
     MemStats_StackSys := 0; MemStats_NumGC := 0; MemStats_PauseTotalNs := 0 |}.

(** The aggregator as [initStats] and [resetResponseTime] leave it at time
    [t], with the spans of [m] registered. *)
Definition startStats (t : time.Time) (m : gmap Z time.Time) : Stats :=
  mkStats noRusage noMemStats t 0 0 0 0 0 0 0 0 0 m.

Definition probeAt (t : time.Time) : Probe :=
  {| Probe_now := t; Probe_rusage := noRusage; Probe_mem := noMemStats;
     Probe_numGoroutine := 1 |}.

(** Four spans, started 0.5s, 1s, 3s and 5s before the instant
    [6000000000]. *)
Definition fourSpans : gmap Z time.Time :=
  <[1 := 5500000000]> (<[2 := 5000000000]> (<[3 := 3000000000]>
     (<[4 := 1000000000]> ∅))).

Definition noError : nat -> option grpc.error := fun _ => None.

Definition liveSpanStream : spanStream :=
  mkSpanStream (Some (grpc.fresh noError)).

(** An asynchronous continuation of [plainSpan], with [asyncId] 1. *)
Definition asyncSpan : span.t :=
  span.mk (span.agent plainSpan) (span.txId plainSpan) 7 (-1) 0 0 1800
          "GET /" "" "" "" "" "" 0 0 0 0 0 1 1 (annotation.mk []) [].

Definition sampleStat : inspectorStats.t :=
  inspectorStats.mk 5000000000 (S754_zero false) (S754_zero false) 1
                    1048576 4194304 4096 65536 0 0 0 0 0 0 0 0 0 0 [0; 0; 0; 0].

(** An agent that is disabled from the start, and a collector that would
    accept every stream. *)
Definition disabledEnv : Env :=
  {| enableAt := fun _ => false;
     openAt := fun _ => Some noError;
     randAt := fun _ => S754_zero false |}.

Definition startWorld : World := mkWorld 0 [].

Definition sampleAgent : Agent := span.agent plainSpan.

Definition sampleDump : GoroutineDump :=
  {| GoroutineDump_goroutines :=
       [ {| Goroutine_id := 1; Goroutine_header := "main";
            Goroutine_trace := "main.main()"; Goroutine_metas := {[ 0 := "running"%string ]} |};
         {| Goroutine_id := 2; Goroutine_header := "worker";
            Goroutine_trace := "main.work()"; Goroutine_metas := {[ 0 := "sleep"%string ]} |} ] |}.

(** *** Runs of the retry loops *)

(** The events of an iteration of a retry loop that did not get a
    stream: the poll that read true, the refused open, the sleep. *)
Definition failedAttempt (ch : Channel) (sid : option Z) (n : Z)
    (d : time.Duration) : list Event :=
  [EvEnable true; EvOpen ch sid false; EvSleep n d].

(** Consecutive failed iterations, numbered from [n]; the [i]-th one
    opens with the metadata [sid i] and sleeps for the [i]-th element of
    [ds]. *)
Definition failedAttempts (ch : Channel) (sid : nat -> option Z) (n : Z)
    (ds : list time.Duration) : list Event :=
  concat (imap (fun i d => failedAttempt ch (sid i) (n + Z.of_nat i) d) ds).

(** The time slept in a sequence of events, and the number of its
    stream-opening calls. *)
Definition totalSleep (evs : list Event) : Z :=
  foldr (fun ev acc => match ev with EvSleep _ d => d + acc | _ => acc end) 0 evs.

Definition openCount (evs : list Event) : nat :=
  foldr (fun ev acc => match ev with EvOpen _ _ _ => S acc | _ => acc end)
        0%nat evs.

(** A run of a retry loop on the channel [ch] whose [i]-th iteration
    opens with the metadata [sid i]: what the run adds to the events,
    and the stream handle [h] it returns.  Some iterations fail, each
    one followed by its sleep; then the loop ends after the 99th of them
    or on a poll that read false, both without a stream, or on an open
    that succeeded, with a stream on which nothing was sent yet. *)
Definition retryRun {M : Type} (ch : Channel) (sid : nat -> option Z)
    (evs : list Event) (h : option (grpc.ClientStream M)) : Prop :=
  exists ds : list time.Duration,
    (length ds = 99%nat /\ evs = failedAttempts ch sid 1 ds /\ h = None)
    \/ ((length ds < 99)%nat
        /\ evs = failedAttempts ch sid 1 ds ++ [EvEnable false] /\ h = None)
    \/ ((length ds < 99)%nat
        /\ exists ans,
             evs = failedAttempts ch sid 1 ds
                   ++ [EvEnable true; EvOpen ch (sid (length ds)) true]
             /\ h = Some (grpc.fresh ans)).

(** The longest time that the 99 iterations of a retry loop can sleep:
    2, 4, 8, 16 and 32 seconds, then 94 times the cap. *)
Definition maxTotalSleep : time.Duration := 5702 * time.Second.

(** The agent connection after one call of [newPingStream], which
    advances the socket id whether or not the stream is accepted. *)
Definition nextPing (g : agentGrpc) : agentGrpc :=
  {| agentGrpc_pingSocketId := GoInt.incr64 (agentGrpc_pingSocketId g);
     agentGrpc_agent := agentGrpc_agent g |}.

(** *** Span messages *)

(** The span events and the annotations that a span message carries. *)
Definition wireSpanEvents (m : PSpanMessage) : list PSpanEvent :=
  match m with
  | PSpanMessage_Span s => PSpan_SpanEvent s
  | PSpanMessage_SpanChunk c => PSpanChunk_SpanEvent c
  end.

Definition wireAnnotations (m : PSpanMessage) : list PAnnotation :=
  match m with
  | PSpanMessage_Span s => PSpan_Annotation s
  | PSpanMessage_SpanChunk _ => []
  end.

(** The fields that a wire span event copies from its span event. *)
Definition eventKey (e : spanEvent.t) : Z * Z * Z * Z * Z :=
  (spanEvent.sequence e, spanEvent.depth e, spanEvent.serviceType e,
   spanEvent.apiId e, spanEvent.asyncId e).

Definition wireEventKey (p : PSpanEvent) : Z * Z * Z * Z * Z :=
  (PSpanEvent_Sequence p, PSpanEvent_Depth p, PSpanEvent_ServiceType p,
   PSpanEvent_ApiId p, PSpanEvent_AsyncEvent p).

(** *** Transaction ids *)

(** A string without the separator [^] of transaction ids. *)
Fixpoint noCaret (s : string) : bool :=
  match s with
  | EmptyString => true
  | String c s' => negb (Ascii.eqb c "^"%char) && noCaret s'
  end.

(** *** Windows of the aggregator *)

(** The aggregator after the response times of [l] were recorded, in the
    order of [l]. *)
Definition recordAll (l : list Z) (st : Stats) : Stats :=
  foldl (fun st resTime => collectResponseTime resTime st) st l.

Definition sumZ (l : list Z) : Z := foldr Z.add 0 l.

(** The largest element of [l], and 0 for the empty list. *)
Definition maxZ (l : list Z) : Z := foldr Z.max 0 l.

(** The six sampling counters of the aggregator, and the six rates of a
    snapshot, in the order of the snapshot's fields. *)
Definition counters (st : Stats) : list Z :=
  [sampleNew st; sampleCont st; unsampleNew st; unsampleCont st;
   skipNew st; skipCont st].

Definition rates (s : inspectorStats.t) : list Z :=
  [inspectorStats.sampleNew s; inspectorStats.sampleCont s;
   inspectorStats.unSampleNew s; inspectorStats.unSampleCont s;
   inspectorStats.skipNew s; inspectorStats.skipCont s].

(** The aggregator after [n1] calls of [incrSampleNew], [n2] of
    [incrSampleCont], [n3] of [incrUnsampleNew], [n4] of
    [incrUnsampleCont], [n5] of [incrSkipNew] and [n6] of
    [incrSkipCont]. *)
Definition countAll (n1 n2 n3 n4 n5 n6 : nat) (st : Stats) : Stats :=
  Nat.iter n6 incrSkipCont
    (Nat.iter n5 incrSkipNew
       (Nat.iter n4 incrUnsampleCont
          (Nat.iter n3 incrUnsampleNew
             (Nat.iter n2 incrSampleCont
                (Nat.iter n1 incrSampleNew st))))).

(** *** More sample data *)

(** An environment in which the agent stays enabled and the collector
    refuses every stream; the number drawn for the jitter is always one
    half. *)
Definition refusingEnv : Env :=
  {| enableAt := fun _ => true;
     openAt := fun _ => None;
     randAt := fun _ => S754_finite false 4503599627370496 (-53) |}.

Definition sampleSpanGrpc : spanGrpc := {| spanGrpc_agent := sampleAgent |}.
Definition sampleStatGrpc : statGrpc := {| statGrpc_agent := sampleAgent |}.
Definition sampleAgentGrpc : agentGrpc :=
  {| agentGrpc_pingSocketId := 0; agentGrpc_agent := sampleAgent |}.

(** The second goroutine of [sampleDump]. *)
Definition workerGoroutine : Goroutine :=
  {| Goroutine_id := 2; Goroutine_header := "worker";
     Goroutine_trace := "main.work()";
     Goroutine_metas := {[ 0 := "sleep"%string ]} |}.

(** Two transaction ids whose agent id holds the separator. *)
Definition caretTid : TransactionId :=
  {| AgentId := "a^1"; StartTime := -20; Sequence := 0 |}.

Definition caretTid' : TransactionId :=
  {| AgentId := String.append "a" "^1"; StartTime := 20 - 40; Sequence := 7 - 7 |}.

(** *** Active-thread counts, dials and the statistics worker *)

(** The count stream after one count was sent for each element of [l]:
    the reading of the clock and the aggregator at the time of the
    send. *)
Definition sendCounts (l : list (time.Time * Stats)) (s : activeThreadCountStream)
  : activeThreadCountStream :=
  foldl (fun s x => snd (activeThreadCountStream_sendActiveThreadCount x.1 x.2 s))
        s l.

(** The count message numbered [seq] for the request [reqId]. *)
Definition countMessage (reqId seq : Z) (x : time.Time * Stats)
  : PCmdActiveThreadCountRes :=
  {| PCmdActiveThreadCountRes_CommonStreamResponse :=
       {| PCmdStreamResponse_ResponseId := reqId;
          PCmdStreamResponse_SequenceId := seq;
          PCmdStreamResponse_Message := "" |};
     PCmdActiveThreadCountRes_HistogramSchemaType := 2;
     PCmdActiveThreadCountRes_ActiveThreadCount := getActiveSpanCount x.1 x.2;
     PCmdActiveThreadCountRes_TimeStamp := time.UnixMilli x.1 |}.

(** The sleeps of consecutive failed calls of [grpc.Dial], numbered from
    [n]. *)
Definition dialSleeps (n : Z) (ds : list time.Duration) : list Event :=
  imap (fun i d => EvSleep (n + Z.of_nat i) d) ds.

(** The samples that [k] calls of [getStats] return, from the [i]-th
    reading on, and the aggregator after them; [None] when one of the
    calls panics. *)
Fixpoint snapshots `{Extern} (probes : nat -> Probe) (i : nat) (k : nat)
    (st : Stats) : option (list inspectorStats.t * Stats) :=
  match k with
  | O => Some ([], st)
  | S k' =>
      '(sample, st) ← getStats (probes i) st;
      '(samples, st) ← snapshots probes (S i) k' st;
      Some (sample :: samples, st)
  end.

(** The message of a batch of samples. *)
Definition batchMessage (b : list inspectorStats.t) : PStatMessage :=
  PStatMessage_AgentStatBatch (map makePAgentStat b).

(** The state of the worker between two iterations of its loop:
    [pending] are the samples collected since the last batch, in the
    first places of [collected]; [stream] is the stream of the worker,
    which is live and answers no send with an error. *)
Definition workerInv (BatchCount : Z) (s : statWorker)
    (pending : list inspectorStats.t)
    (stream : grpc.ClientStream PStatMessage) : Prop :=
  statWorker_statStream s = mkStatStream (Some stream)
  /\ (forall n, grpc.answers stream n = None)
  /\ length (statWorker_collected s) = Z.to_nat BatchCount
  /\ statWorker_batch s = Z.of_nat (length pending)
  /\ Z.of_nat (length pending) < BatchCount
  /\ take (length pending) (statWorker_collected s) = Some <$> pending.

(** Memory statistics within the ranges of their unsigned types
    ([NumGC] is a uint32, the others are uint64). *)
Definition validMemStats (m : MemStats) : Prop :=
  0 <= MemStats_HeapAlloc m < 2 ^ 64
  /\ 0 <= MemStats_Sys m < 2 ^ 64
  /\ 0 <= MemStats_StackInuse m < 2 ^ 64
  /\ 0 <= MemStats_StackSys m < 2 ^ 64
  /\ 0 <= MemStats_NumGC m < 2 ^ 32
  /\ 0 <= MemStats_PauseTotalNs m < 2 ^ 64.

(** A network on which the calls numbered 1 and 2 fail and the third one
    connects. *)
Definition thirdDial (n : Z) : option grpc.error :=
  if n <? 3
  then Some (grpc.Errorf grpc.DeadlineExceeded "context deadline exceeded")
  else None.

(** An environment in which the agent stays enabled and the collector
    accepts every stream and answers no send with an error. *)
Definition acceptingEnv : Env :=
  {| enableAt := fun _ => true;
     openAt := fun _ => Some noError;
     randAt := fun _ => S754_zero false |}.

(** Readings of the clock five seconds apart, and half a second apart,
    from the instant 0 on. *)
Definition everyFiveSeconds (i : nat) : Probe := probeAt (Z.of_nat i * 5000000000).

Definition everyHalfSecond (i : nat) : Probe := probeAt (Z.of_nat i * 500000000).

(** A reading at 10s after 7 collections that paused for 2.5ms in all. *)
Definition gcProbe : Probe :=
  {| Probe_now := 10000000000; Probe_rusage := noRusage;
     Probe_mem := {| MemStats_HeapAlloc := 1048576; MemStats_Sys := 4194304;
                     MemStats_StackInuse := 4096; MemStats_StackSys := 65536;
                     MemStats_NumGC := 7; MemStats_PauseTotalNs := 2500000 |};
     Probe_numGoroutine := 3 |}.

End Vocabulary.

(* ===================================================================== *)
(** * Part II: properties                                                 *)
(* ===================================================================== *)

Import pb pinpoint Vocabulary.

(** ** Rounding of binary64 operations

    The operations of [spec_float] round through [binary_round_aux].  The
    lemmas of this section bound its result on both sides by the binary64
    numbers that bound its input, which is all that the properties below
    need of the rounding. *)

Local Abbreviation prec := Float64.prec (only parsing).
Local Abbreviation emax := Float64.emax (only parsing).

Lemma fexp_eq (e : Z) : fexp prec emax e = Z.max (e - 53) (-1074).
Proof. reflexivity. Qed.

Lemma digits2_pos_bounds (m : positive) :
  2 ^ (Z.pos (digits2_pos m) - 1) <= Z.pos m < 2 ^ Z.pos (digits2_pos m).
Proof.
  induction m as [m IH | m IH |]; simpl digits2_pos.
  - rewrite Pos2Z.inj_succ, (Pos2Z.inj_xI m).
    replace (Z.succ (Z.pos (digits2_pos m)) - 1) with (Z.succ (Z.pos (digits2_pos m) - 1)) by lia.
    rewrite !Z.pow_succ_r; lia.
  - rewrite Pos2Z.inj_succ, (Pos2Z.inj_xO m).
    replace (Z.succ (Z.pos (digits2_pos m)) - 1) with (Z.succ (Z.pos (digits2_pos m) - 1)) by lia.
    rewrite !Z.pow_succ_r; lia.
  - simpl. lia.
Qed.

Lemma iter_pos_nat {A : Type} (f : A -> A) (p : positive) :
  forall x, SpecFloat.iter_pos f p x = Nat.iter (Pos.to_nat p) f x.
Proof.
  induction p as [p IH | p IH |]; intros x; simpl SpecFloat.iter_pos.
  - rewrite !IH, Pos2Nat.inj_xI.
    replace (S (2 * Pos.to_nat p)) with (Pos.to_nat p + (Pos.to_nat p + 1))%nat by lia.
    rewrite !Nat.iter_add. reflexivity.
  - rewrite !IH, Pos2Nat.inj_xO.
    replace (2 * Pos.to_nat p)%nat with (Pos.to_nat p + Pos.to_nat p)%nat by lia.
    rewrite Nat.iter_add. reflexivity.
  - reflexivity.
Qed.

Lemma shr_1_nonneg (m : Z) (r s : bool) :
  0 <= m ->
  shr_1 (Build_shr_record m r s) = Build_shr_record (m / 2) (Z.odd m) (r || s).
Proof.
  intros Hm. rewrite <- Z.div2_div.
  destruct m as [| p | p]; [reflexivity | | lia].
  destruct p; reflexivity.
Qed.

Lemma shr_iter (n : nat) :
  forall (m : Z) (r s : bool),
    0 <= m ->
    shr_m (Nat.iter n shr_1 (Build_shr_record m r s)) = m / 2 ^ Z.of_nat n
    /\ (r = false -> s = false -> m mod 2 ^ Z.of_nat n = 0 ->
        loc_of_shr_record (Nat.iter n shr_1 (Build_shr_record m r s)) = loc_Exact).
Proof.
  induction n as [| n IH]; intros m r s Hm.
  - simpl. rewrite Z.div_1_r. split; [reflexivity |]. intros -> -> _. reflexivity.
  - rewrite Nat.iter_succ_r, shr_1_nonneg by exact Hm.
    destruct (IH (m / 2) (Z.odd m) (r || s)) as [Hdiv Hex].
    { apply Z.div_pos; lia. }
    rewrite Nat2Z.inj_succ, Z.pow_succ_r by lia.
    pose proof (Z.pow_pos_nonneg 2 (Z.of_nat n) ltac:(lia) ltac:(lia)) as Hpow.
    split.
    + rewrite Hdiv. rewrite Z.div_div by lia. reflexivity.
    + intros Hr Hs Hmod. subst r s.
      apply Z.mod_divide in Hmod; [| lia].
      destruct Hmod as [k Hk].
      apply Hex.
      * rewrite Hk. replace (k * (2 * 2 ^ Z.of_nat n)) with (2 * (k * 2 ^ Z.of_nat n)) by lia.
        apply Z.odd_even.
      * reflexivity.
      * rewrite Hk. replace (k * (2 * 2 ^ Z.of_nat n)) with ((k * 2 ^ Z.of_nat n) * 2) by lia.
        rewrite Z.div_mul by lia. apply Z.mod_mul. lia.
Qed.

(** [shr] by a non-negative amount. *)
Lemma shr_spec (m : Z) (l : location) (e n : Z) :
  0 <= m -> 0 <= n ->
  exists mrs,
    shr (shr_record_of_loc m l) e n = (mrs, e + n)
    /\ shr_m mrs = m / 2 ^ n
    /\ (l = loc_Exact -> m mod 2 ^ n = 0 -> loc_of_shr_record mrs = loc_Exact).
Proof.
  intros Hm Hn. destruct n as [| p | p]; [| | lia].
  - exists (shr_record_of_loc m l). simpl. rewrite Z.add_0_r, Z.div_1_r.
    split; [reflexivity |]. split.
    + destruct l as [| []]; reflexivity.
    + intros -> _. reflexivity.
  - exists (SpecFloat.iter_pos shr_1 p (shr_record_of_loc m l)).
    split; [reflexivity |].
    rewrite iter_pos_nat.
    assert (Hrec : exists r s, shr_record_of_loc m l = Build_shr_record m r s
                               /\ (l = loc_Exact -> r = false /\ s = false)).
    { destruct l as [| []]; simpl; eauto 6; eexists _, _; (split; [reflexivity | discriminate]). }
    destruct Hrec as (r & s & -> & Hrs).
    destruct (shr_iter (Pos.to_nat p) m r s Hm) as [Hdiv Hex].
    rewrite positive_nat_Z in Hdiv, Hex.
    split; [exact Hdiv |].
    intros Hl Hmod. destruct (Hrs Hl) as [-> ->]. apply Hex; auto.
Qed.

Lemma round_nearest_even_range (m : Z) (l : location) :
  m <= round_nearest_even m l <= m + 1
  /\ (l = loc_Exact -> round_nearest_even m l = m).
Proof.
  split.
  - destruct l as [| []]; simpl; try lia. destruct (Z.even m); lia.
  - intros ->. reflexivity.
Qed.

Lemma shr_nonpos (mrs : shr_record) (e n : Z) : n <= 0 -> shr mrs e n = (mrs, e).
Proof. intros Hn. destruct n; [reflexivity | lia | reflexivity]. Qed.

Lemma digits_le (m : positive) (k : Z) :
  0 <= k -> Z.pos m < 2 ^ k -> Z.pos (digits2_pos m) <= k.
Proof.
  intros Hk Hm. destruct (digits2_pos_bounds m) as [Hlo _].
  destruct (Z_le_gt_dec (Z.pos (digits2_pos m)) k) as [Hle | Hgt]; [exact Hle |].
  assert (2 ^ k <= 2 ^ (Z.pos (digits2_pos m) - 1)) by (apply Z.pow_le_mono_r; lia).
  lia.
Qed.

Lemma digits_ge (m : positive) (k : Z) :
  2 ^ (k - 1) <= Z.pos m -> k <= Z.pos (digits2_pos m).
Proof.
  intros Hm. destruct (digits2_pos_bounds m) as [_ Hhi].
  destruct (Z_le_gt_dec k (Z.pos (digits2_pos m))) as [Hle | Hgt]; [exact Hle |].
  assert (2 ^ Z.pos (digits2_pos m) <= 2 ^ (k - 1)) by (apply Z.pow_le_mono_r; lia).
  lia.
Qed.

Lemma bounded_facts (m : positive) (e : Z) :
  bounded prec emax m e = true ->
  -1074 <= e <= 971 /\ Z.pos m < 2 ^ 53 /\ (-1074 < e -> 2 ^ 52 <= Z.pos m).
Proof.
  unfold bounded, canonical_mantissa. rewrite fexp_eq.
  intros Hb. apply andb_prop in Hb. destruct Hb as [Hc He].
  apply Z.eqb_eq in Hc. apply Z.leb_le in He. change (emax - prec) with 971 in He.
  destruct (digits2_pos_bounds m) as [Hlo Hhi].
  split; [lia |]. split.
  - assert (2 ^ Z.pos (digits2_pos m) <= 2 ^ 53) by (apply Z.pow_le_mono_r; lia). lia.
  - intros Hn. replace (Z.pos (digits2_pos m)) with 53 in Hlo by lia. exact Hlo.
Qed.

Lemma bounded_intro (m : positive) (e : Z) :
  -1074 <= e <= 971 -> Z.pos m < 2 ^ 53 -> (-1074 < e -> 2 ^ 52 <= Z.pos m) ->
  bounded prec emax m e = true.
Proof.
  intros He Hm Hn. unfold bounded, canonical_mantissa. rewrite fexp_eq.
  apply andb_true_intro. split; [| apply Z.leb_le; change (emax - prec) with 971; lia].
  apply Z.eqb_eq.
  pose proof (digits_le m 53 ltac:(lia) Hm) as Hd.
  destruct (Z.eq_dec e (-1074)) as [-> | Hne]; [lia |].
  pose proof (digits_ge m 53 (Hn ltac:(lia))). lia.
Qed.

Lemma pow2_pos (k : Z) : 0 <= k -> 0 < 2 ^ k.
Proof. intros Hk. apply Z.pow_pos_nonneg; lia. Qed.

(** Between two neighbours of the grid of exponent [e1] there is no
    binary64 number, provided the grid is the one of a binade. *)
Lemma grid (my : positive) (ey m' e1 : Z) :
  bounded prec emax my ey = true ->
  0 <= m' -> -1074 <= e1 -> (-1074 < e1 -> 2 ^ 52 <= m') ->
  (V (Z.pos my) ey < V (m' + 1) e1 -> V (Z.pos my) ey <= V m' e1)
  /\ (V m' e1 < V (Z.pos my) ey -> V (m' + 1) e1 <= V (Z.pos my) ey).
Proof.
  intros Hb Hm' He1 Hnorm.
  destruct (bounded_facts my ey Hb) as (Hey & Hmy & Hny).
  unfold V, scale.
  destruct (Z_le_gt_dec e1 ey) as [Hle | Hgt].
  - replace (ey + 2200) with ((ey - e1) + (e1 + 2200)) by lia.
    rewrite (Z.pow_add_r 2 (ey - e1)) by lia.
    pose proof (pow2_pos (e1 + 2200) ltac:(lia)) as HP.
    pose proof (pow2_pos (ey - e1) ltac:(lia)) as HQ.
    set (P := 2 ^ (e1 + 2200)) in *. set (Q := 2 ^ (ey - e1)) in *.
    split; intros Hlt.
    + assert (Z.pos my * Q < m' + 1) by nia. nia.
    + assert (m' < Z.pos my * Q) by nia. nia.
  - assert (Hm52 : 2 ^ 52 <= m') by (apply Hnorm; lia).
    assert (Hlt : Z.pos my * 2 ^ (ey + 2200) < m' * 2 ^ (e1 + 2200)).
    { replace (e1 + 2200) with ((e1 - ey - 1) + (1 + (ey + 2200))) by lia.
      rewrite (Z.pow_add_r 2 (e1 - ey - 1)), (Z.pow_add_r 2 1) by lia.
      pose proof (pow2_pos (ey + 2200) ltac:(lia)) as HP.
      pose proof (pow2_pos (e1 - ey - 1) ltac:(lia)) as HQ.
      change (2 ^ 1) with 2. change (2 ^ 53) with (2 * 2 ^ 52) in Hmy.
      set (P := 2 ^ (ey + 2200)) in *. set (Q := 2 ^ (e1 - ey - 1)) in *.
      set (T := 2 ^ 52) in *.
      assert (Z.pos my * P < 2 * T * P) by nia.
      assert (H1 : T * (2 * P) <= m' * (2 * P)) by nia.
      assert (H2 : 0 <= m' * (2 * P)) by nia.
      assert (H3 : m' * (2 * P) <= (m' * (2 * P)) * Q) by nia.
      replace (m' * (Q * (2 * P))) with ((m' * (2 * P)) * Q) by ring.
      lia. }
    split; intros H; [lia |]. lia.
Qed.

Lemma round_aux_shape (sx : bool) (mx ex : Z) (lx : location) :
  0 < mx -> ex <= fexp prec emax (Zdigits2 mx + ex) ->
  let e1 := fexp prec emax (Zdigits2 mx + ex) in
  let m' := mx / 2 ^ (e1 - ex) in
  exists m1,
    m' <= m1 <= m' + 1
    /\ (lx = loc_Exact -> mx mod 2 ^ (e1 - ex) = 0 -> m1 = m')
    /\ binary_round_aux prec emax sx mx ex lx = pack sx m1 e1
    /\ 0 <= m' < 2 ^ 53 /\ (-1074 < e1 -> 2 ^ 52 <= m') /\ -1074 <= e1.
Proof.
  intros Hmx Hex e1 m'.
  destruct mx as [| q | q]; try lia.
  assert (He1 : e1 = Z.max (Z.pos (digits2_pos q) + ex - 53) (-1074)) by reflexivity.
  destruct (digits2_pos_bounds q) as [Hlo Hhi].
  set (d := Z.pos (digits2_pos q)) in *.
  set (p := e1 - ex) in *.
  assert (Hp : 0 <= p) by (unfold p; fold e1 in Hex; lia).
  pose proof (pow2_pos p Hp) as Hpp.
  assert (Hm'0 : 0 <= m') by (apply Z.div_pos; lia).
  assert (Hm'53 : m' < 2 ^ 53).
  { apply Z.div_lt_upper_bound; [lia |]. rewrite <- Z.pow_add_r by lia.
    assert (2 ^ d <= 2 ^ (p + 53)) by (apply Z.pow_le_mono_r; lia). lia. }
  assert (Hm'52 : -1074 < e1 -> 2 ^ 52 <= m').
  { intros Hn. apply Z.div_le_lower_bound; [lia |].
    rewrite <- Z.pow_add_r by lia.
    replace (p + 52) with (d - 1) by lia. exact Hlo. }
  destruct (shr_spec (Z.pos q) lx ex p ltac:(lia) Hp) as (mrs & Hshr & Hm & Hexact).
  exists (round_nearest_even (shr_m mrs) (loc_of_shr_record mrs)).
  destruct (round_nearest_even_range (shr_m mrs) (loc_of_shr_record mrs)) as [Hrange Hrex].
  fold m' in Hm.
  split; [rewrite <- Hm; exact Hrange |]. split.
  { intros Hl Hmod. rewrite Hrex, Hm; [reflexivity |]. apply Hexact; assumption. }
  split; [| repeat split; try assumption; lia].
  unfold binary_round_aux, shr_fexp. fold e1. fold p. rewrite Hshr.
  replace (ex + p) with e1 by (unfold p; lia).
  set (m1 := round_nearest_even (shr_m mrs) (loc_of_shr_record mrs)) in *.
  destruct m1 as [| q1 | q1] eqn:Hm1; [| | lia].
  - rewrite shr_nonpos; [reflexivity |]. simpl Zdigits2. rewrite fexp_eq. lia.
  - unfold pack.
    destruct (Z.ltb_spec (Z.pos q1) (2 ^ 53)) as [Hlt | Hge].
    + rewrite shr_nonpos; [reflexivity |].
      simpl Zdigits2. rewrite fexp_eq.
      pose proof (digits_le q1 53 ltac:(lia) Hlt). lia.
    + assert (Hq1 : Z.pos q1 = 2 ^ 53) by lia.
      change (2 ^ 53) with (Z.pos 9007199254740992) in Hq1.
      injection Hq1 as ->.
      replace (fexp prec emax (Zdigits2 9007199254740992 + e1) - e1) with 1.
      2:{ rewrite fexp_eq. change (Zdigits2 9007199254740992) with 54. lia. }
      reflexivity.
Qed.

Lemma V_mono_e (m e e' : Z) : 0 <= m -> - scale <= e <= e' -> V m e <= V m e'.
Proof.
  intros Hm He. unfold V.
  apply Z.mul_le_mono_nonneg_l; [exact Hm |].
  apply Z.pow_le_mono_r; lia.
Qed.

Lemma V_mono_m (m m' e : Z) : - scale <= e -> m <= m' -> V m e <= V m' e.
Proof.
  intros He Hm. unfold V.
  apply Z.mul_le_mono_nonneg_r; [| exact Hm].
  pose proof (pow2_pos (e + scale) ltac:(lia)). lia.
Qed.

Lemma V_lt_m (m m' e : Z) : - scale <= e -> m < m' -> V m e < V m' e.
Proof.
  intros He Hm. unfold V.
  apply Z.mul_lt_mono_pos_r; [| exact Hm].
  apply pow2_pos. lia.
Qed.

Lemma V_shift (m e k : Z) : - scale <= e -> 0 <= k -> V (m * 2 ^ k) e = V m (e + k).
Proof.
  intros He Hk. unfold V.
  replace (e + k + scale) with (k + (e + scale)) by lia.
  rewrite (Z.pow_add_r 2 k (e + scale)) by lia. ring.
Qed.

Lemma bounded_V_lt_top (my : positive) (ey : Z) :
  bounded prec emax my ey = true -> V (Z.pos my) ey < V (2 ^ 53) 971.
Proof.
  intros Hb. destruct (bounded_facts my ey Hb) as (Hey & Hmy & _).
  apply Z.lt_le_trans with (V (2 ^ 53) ey).
  - apply V_lt_m; [unfold scale; lia | exact Hmy].
  - apply V_mono_e; [lia | unfold scale; lia].
Qed.

Lemma pack_val (m1 e1 : Z) :
  0 <= m1 <= 2 ^ 53 -> -1074 <= e1 -> (-1074 < e1 -> 2 ^ 52 <= m1) ->
  nonnegValid (pack false m1 e1) = true
  /\ ((pack false m1 e1 = S754_infinity false /\ V (2 ^ 53) 971 <= V m1 e1)
      \/ (pack false m1 e1 <> S754_infinity false
          /\ Fval (pack false m1 e1) = V m1 e1)).
Proof.
  intros Hm He Hn. unfold pack.
  destruct m1 as [| q | q]; [| | lia].
  - split; [reflexivity |]. right. split; [discriminate |]. reflexivity.
  - destruct (Z.ltb_spec (Z.pos q) (2 ^ 53)) as [Hlt | Hge].
    + destruct (Z.leb_spec e1 971) as [Hle | Hgt].
      * split; [apply bounded_intro; auto; lia |].
        right. split; [discriminate |]. reflexivity.
      * split; [reflexivity |]. left. split; [reflexivity |].
        apply Z.le_trans with (V (2 ^ 52) 972).
        { change (2 ^ 53) with (2 ^ 52 * 2 ^ 1).
          rewrite (V_shift (2 ^ 52) 971 1) by (unfold scale; lia). apply Z.le_refl. }
        apply Z.le_trans with (V (2 ^ 52) e1).
        { apply V_mono_e; unfold scale; lia. }
        apply V_mono_m; [unfold scale; lia |]. apply Hn. lia.
    + assert (Hq : Z.pos q = 2 ^ 53) by lia.
      destruct (Z.leb_spec (e1 + 1) 971) as [Hle | Hgt].
      * split; [apply bounded_intro; [lia | reflexivity | intros _; apply Z.le_refl] |].
        right. split; [discriminate |]. unfold Fval. rewrite Hq.
        change (2 ^ 53) with (2 ^ 52 * 2 ^ 1).
        rewrite (V_shift _ e1 1) by (unfold scale; lia). reflexivity.
      * split; [reflexivity |]. left. split; [reflexivity |].
        rewrite Hq. apply V_mono_e; unfold scale; lia.
Qed.

(** The rounding step of every operation, on a positive input
    [mx * 2^ex] (possibly with a remainder described by [lx]): the result
    is a valid non-negative float, no binary64 number lies strictly
    between the input and the result. *)
Lemma round_aux_pos (mx ex : Z) (lx : location) :
  0 < mx -> - scale <= ex -> ex <= fexp prec emax (Zdigits2 mx + ex) ->
  let r := binary_round_aux prec emax false mx ex lx in
  nonnegValid r = true
  /\ forall (my : positive) (ey : Z),
       bounded prec emax my ey = true ->
       (V (Z.pos my) ey <= V mx ex ->
        r = S754_infinity false \/ V (Z.pos my) ey <= Fval r)
       /\ (V mx ex < V (Z.pos my) ey
           \/ (lx = loc_Exact /\ V mx ex <= V (Z.pos my) ey) ->
           r <> S754_infinity false /\ Fval r <= V (Z.pos my) ey).
Proof.
  intros Hmx Hsc Hex r.
  destruct (round_aux_shape false mx ex lx Hmx Hex)
    as (m1 & Hrange & Hexact & Hr & Hm' & Hnorm & He1).
  fold r in Hr.
  set (e1 := fexp prec emax (Zdigits2 mx + ex)) in *.
  set (p := e1 - ex) in *.
  set (m' := mx / 2 ^ p) in *.
  assert (Hp : 0 <= p) by (unfold p; lia).
  pose proof (pow2_pos p Hp) as Hpp.
  assert (Hsplit : m' * 2 ^ p <= mx < (m' + 1) * 2 ^ p).
  { unfold m'. pose proof (Z.mul_div_le mx (2 ^ p) Hpp).
    pose proof (Z.mul_succ_div_gt mx (2 ^ p) Hpp). lia. }
  assert (HVe : forall m, V m e1 = V (m * 2 ^ p) ex).
  { intros m. rewrite V_shift by lia. f_equal. unfold p. lia. }
  assert (Hlow : V m' e1 <= V mx ex).
  { rewrite HVe. apply V_mono_m; lia. }
  assert (Hup : V mx ex < V (m' + 1) e1).
  { rewrite HVe. apply V_lt_m; lia. }
  destruct (pack_val m1 e1 ltac:(lia) He1 ltac:(intros; specialize (Hnorm ltac:(assumption)); lia))
    as [Hvalid Hpack].
  rewrite <- Hr in Hvalid, Hpack.
  split; [exact Hvalid |].
  intros my ey Hb.
  destruct (grid my ey m' e1 Hb ltac:(lia) He1 Hnorm) as [Hg1 Hg2].
  split.
  - intros HY.
    destruct Hpack as [[Hinf _] | [_ Hval]]; [left; exact Hinf | right].
    rewrite Hval.
    apply Z.le_trans with (V m' e1); [apply Hg1; lia |].
    apply V_mono_m; [unfold scale in *; lia | lia].
  - intros HY.
    assert (Hle : V m1 e1 <= V (Z.pos my) ey).
    { destruct (Z.eq_dec m1 m') as [-> | Hne].
      - destruct HY as [HY | [_ HY]]; lia.
      - replace m1 with (m' + 1) by lia. apply Hg2.
        destruct HY as [HY | [Hl HY]]; [lia |].
        destruct (Z.eq_dec (mx mod 2 ^ p) 0) as [Hz | Hnz].
        + exfalso. apply Hne. apply Hexact; assumption.
        + assert (m' * 2 ^ p < mx).
          { unfold m'. rewrite (Z.div_mod mx (2 ^ p)) at 2 by lia.
            pose proof (Z.mod_pos_bound mx (2 ^ p) Hpp). lia. }
          apply Z.lt_le_trans with (V mx ex); [| exact HY].
          rewrite HVe. apply V_lt_m; lia. }
    pose proof (bounded_V_lt_top my ey Hb) as Htop.
    destruct Hpack as [[_ Hbig] | [Hfin Hval]]; [lia |].
    split; [exact Hfin |]. rewrite Hval. exact Hle.
Qed.

Lemma iter_xO (m k : positive) : Z.pos (Pos.iter xO m k) = Z.pos m * 2 ^ Z.pos k.
Proof.
  induction k as [| k IH] using Pos.peano_ind.
  - simpl. lia.
  - rewrite Pos.iter_succ, Pos2Z.inj_xO, IH, Pos2Z.inj_succ, Z.pow_succ_r by lia. ring.
Qed.

Lemma digits_mul_pow2 (m : positive) (k : Z) (q : positive) :
  0 <= k -> Z.pos q = Z.pos m * 2 ^ k ->
  Z.pos (digits2_pos q) = Z.pos (digits2_pos m) + k.
Proof.
  intros Hk Hq. destruct (digits2_pos_bounds m) as [Hlo Hhi].
  pose proof (pow2_pos k Hk) as Hpk.
  apply Z.le_antisymm.
  - apply digits_le; [lia |]. rewrite Hq, Z.pow_add_r by lia. nia.
  - apply digits_ge. rewrite Hq.
    replace (Z.pos (digits2_pos m) + k - 1) with ((Z.pos (digits2_pos m) - 1) + k) by lia.
    rewrite Z.pow_add_r by lia. nia.
Qed.

(** [binary_round] on a positive number [mx * 2^ex]: the same bounds,
    the input being exact. *)
Lemma binary_round_pos (mx : positive) (ex : Z) :
  - scale <= ex ->
  let r := binary_round prec emax false mx ex in
  nonnegValid r = true
  /\ forall (my : positive) (ey : Z),
       bounded prec emax my ey = true ->
       (V (Z.pos my) ey <= V (Z.pos mx) ex ->
        r = S754_infinity false \/ V (Z.pos my) ey <= Fval r)
       /\ (V (Z.pos mx) ex <= V (Z.pos my) ey ->
           r <> S754_infinity false /\ Fval r <= V (Z.pos my) ey).
Proof.
  intros Hsc r. unfold binary_round in r.
  set (e' := fexp prec emax (Z.pos (digits2_pos mx) + ex)) in *.
  assert (He' : e' = Z.max (Z.pos (digits2_pos mx) + ex - 53) (-1074)) by reflexivity.
  unfold shl_align in r.
  destruct (e' - ex) as [| k | k] eqn:Hk.
  - destruct (round_aux_pos (Z.pos mx) ex loc_Exact ltac:(lia) Hsc) as [Hv Hb].
    { simpl Zdigits2. fold e'. lia. }
    split; [exact Hv |]. intros my ey Hbd. destruct (Hb my ey Hbd) as [HL HU].
    split; [exact HL |]. intros HY. apply HU. right. split; [reflexivity | exact HY].
  - destruct (round_aux_pos (Z.pos mx) ex loc_Exact ltac:(lia) Hsc) as [Hv Hb].
    { simpl Zdigits2. fold e'. lia. }
    split; [exact Hv |]. intros my ey Hbd. destruct (Hb my ey Hbd) as [HL HU].
    split; [exact HL |]. intros HY. apply HU. right. split; [reflexivity | exact HY].
  - pose proof (iter_xO mx k) as Hit.
    pose proof (digits_mul_pow2 mx (Z.pos k) _ ltac:(lia) Hit) as Hdig.
    assert (HV : V (Z.pos (Pos.iter xO mx k)) e' = V (Z.pos mx) ex).
    { rewrite Hit, V_shift by (unfold scale in *; lia). f_equal. lia. }
    destruct (round_aux_pos (Z.pos (Pos.iter xO mx k)) e' loc_Exact ltac:(lia))
      as [Hv Hb].
    { unfold scale. lia. }
    { simpl Zdigits2. rewrite Hdig, fexp_eq. lia. }
    split; [exact Hv |]. intros my ey Hbd. destruct (Hb my ey Hbd) as [HL HU].
    rewrite HV in HL, HU.
    split; [exact HL |]. intros HY. apply HU. right. split; [reflexivity | exact HY].
Qed.

(** Order of two valid positive floats: the exponents decide first. *)
Lemma bounded_exp_lt (m1 : positive) (e1 : Z) (m2 : positive) (e2 : Z) :
  bounded prec emax m1 e1 = true -> bounded prec emax m2 e2 = true ->
  e1 < e2 -> V (Z.pos m1) e1 < V (Z.pos m2) e2.
Proof.
  intros H1 H2 Hlt.
  destruct (bounded_facts m1 e1 H1) as (He1 & Hm1 & _).
  destruct (bounded_facts m2 e2 H2) as (He2 & _ & Hn2).
  apply Z.lt_le_trans with (V (2 ^ 53) e1).
  { apply V_lt_m; [unfold scale; lia | exact Hm1]. }
  apply Z.le_trans with (V (2 ^ 52) e2).
  - change (2 ^ 53) with (2 ^ 52 * 2 ^ 1). rewrite V_shift by (unfold scale; lia).
    apply V_mono_e; unfold scale; lia.
  - apply V_mono_m; [unfold scale; lia |]. apply Hn2. lia.
Qed.

Lemma SFcompare_pos (m1 : positive) (e1 : Z) (m2 : positive) (e2 : Z) :
  bounded prec emax m1 e1 = true -> bounded prec emax m2 e2 = true ->
  SFcompare (S754_finite false m1 e1) (S754_finite false m2 e2)
  = Some (V (Z.pos m1) e1 ?= V (Z.pos m2) e2).
Proof.
  intros H1 H2. unfold SFcompare. f_equal.
  destruct (Z.compare_spec e1 e2) as [Heq | Hlt | Hgt].
  - subst e2. change (Pos.compare_cont Eq m1 m2) with (Z.pos m1 ?= Z.pos m2).
    unfold V. destruct (bounded_facts m1 e1 H1) as (He1 & _ & _).
    apply Zmult_compare_compat_r. apply Z.lt_gt, pow2_pos. unfold scale. lia.
  - symmetry. apply Z.compare_lt_iff. apply bounded_exp_lt; assumption.
  - symmetry. apply Z.compare_gt_iff. apply bounded_exp_lt; assumption.
Qed.

Lemma bounded_unique (m1 : positive) (e1 : Z) (m2 : positive) (e2 : Z) :
  bounded prec emax m1 e1 = true -> bounded prec emax m2 e2 = true ->
  V (Z.pos m1) e1 = V (Z.pos m2) e2 -> m1 = m2 /\ e1 = e2.
Proof.
  intros H1 H2 HV.
  assert (He : e1 = e2).
  { destruct (Z.lt_total e1 e2) as [Hlt | [Heq | Hgt]]; [| exact Heq |].
    - pose proof (bounded_exp_lt m1 e1 m2 e2 H1 H2 Hlt). lia.
    - pose proof (bounded_exp_lt m2 e2 m1 e1 H2 H1 Hgt). lia. }
  subst e2. split; [| reflexivity].
  destruct (bounded_facts m1 e1 H1) as (He1 & _ & _).
  unfold V in HV. apply Z.mul_reg_r in HV; [congruence |].
  pose proof (pow2_pos (e1 + scale) ltac:(unfold scale; lia)). lia.
Qed.

(** A positive number that is a binary64 number rounds to itself. *)
Lemma binary_round_exact (mx : positive) (ex : Z) (my : positive) (ey : Z) :
  - scale <= ex -> bounded prec emax my ey = true ->
  V (Z.pos mx) ex = V (Z.pos my) ey ->
  binary_round prec emax false mx ex = S754_finite false my ey.
Proof.
  intros Hsc Hb HV.
  destruct (binary_round_pos mx ex Hsc) as [Hv Hbd].
  destruct (Hbd my ey Hb) as [HL HU].
  destruct (HU ltac:(lia)) as [Hfin Hle].
  destruct (HL ltac:(lia)) as [Hinf | Hge]; [contradiction |].
  destruct (bounded_facts my ey Hb) as (Hey & _ & _).
  assert (0 < V (Z.pos my) ey).
  { unfold V. apply Z.mul_pos_pos; [lia | apply pow2_pos; unfold scale; lia]. }
  destruct (binary_round prec emax false mx ex) as [s | s | | s m e];
    simpl in Hv, Hle, Hge; try lia; try (destruct s; discriminate).
  destruct s; [discriminate |].
  destruct (bounded_unique m e my ey Hv Hb ltac:(lia)) as [-> ->]. reflexivity.
Qed.

Lemma Vone_pos : 0 < Vone.
Proof. apply pow2_pos. unfold scale. lia. Qed.

Lemma V_int (z : Z) : V z 0 = z * Vone.
Proof. reflexivity. Qed.

(** A number with at most 53 digits in the normal range is a binary64
    number. *)
Lemma binary_round_normal (mx : positive) (ex : Z) :
  Z.pos (digits2_pos mx) <= 53 ->
  -1074 <= ex + Z.pos (digits2_pos mx) - 53 <= 971 ->
  exists my ey,
    binary_round prec emax false mx ex = S754_finite false my ey
    /\ bounded prec emax my ey = true
    /\ V (Z.pos my) ey = V (Z.pos mx) ex.
Proof.
  intros Hd He. set (d := Z.pos (digits2_pos mx)) in *.
  destruct (digits2_pos_bounds mx) as [Hlo Hhi]. fold d in Hlo, Hhi.
  pose proof (pow2_pos (53 - d) ltac:(lia)) as Hp.
  assert (Hpos : 0 < Z.pos mx * 2 ^ (53 - d)) by lia.
  set (my := Z.to_pos (Z.pos mx * 2 ^ (53 - d))).
  assert (Hmy : Z.pos my = Z.pos mx * 2 ^ (53 - d)) by (apply Z2Pos.id; exact Hpos).
  assert (H53 : 2 ^ d * 2 ^ (53 - d) = 2 ^ 53).
  { rewrite <- Z.pow_add_r by lia. f_equal. lia. }
  assert (H52 : 2 ^ (d - 1) * 2 ^ (53 - d) = 2 ^ 52).
  { rewrite <- Z.pow_add_r by lia. f_equal. lia. }
  assert (Hb : bounded prec emax my (ex + d - 53) = true).
  { apply bounded_intro; [lia | rewrite Hmy; nia | intros _; rewrite Hmy; nia]. }
  assert (HV : V (Z.pos mx) ex = V (Z.pos my) (ex + d - 53)).
  { rewrite Hmy, V_shift by (unfold scale; lia). f_equal. lia. }
  exists my, (ex + d - 53). split; [| split; [exact Hb | symmetry; exact HV]].
  apply binary_round_exact; [unfold scale; lia | exact Hb | exact HV].
Qed.


Lemma of_int_pos (z : Z) :
  0 < z < 2 ^ 53 ->
  exists m e, Float64.of_int z = S754_finite false m e
              /\ bounded prec emax m e = true
              /\ V (Z.pos m) e = z * Vone.
Proof.
  intros Hz. destruct z as [| q | q]; try lia.
  unfold Float64.of_int, binary_normalize.
  pose proof (digits_le q 53 ltac:(lia) ltac:(lia)) as Hd.
  destruct (binary_round_normal q 0 Hd ltac:(lia)) as (m & e & Hr & Hb & HV).
  exists m, e. rewrite Hr. repeat split; [exact Hb |]. rewrite HV. reflexivity.
Qed.

Lemma V_mul (mx ex my ey : Z) :
  - scale <= ex + ey -> - scale <= ex -> - scale <= ey ->
  V (mx * my) (ex + ey) * Vone = V mx ex * V my ey.
Proof.
  intros H1 H2 H3. unfold V, Vone.
  transitivity (mx * my * (2 ^ (ex + ey + scale) * 2 ^ scale)); [ring |].
  rewrite <- Z.pow_add_r by (unfold scale in *; lia).
  replace (ex + ey + scale + scale) with ((ex + scale) + (ey + scale)) by lia.
  rewrite Z.pow_add_r by lia. ring.
Qed.

(** The product of two valid positive floats. *)
Lemma SFmul_pos (mx : positive) (ex : Z) (my : positive) (ey : Z) :
  bounded prec emax mx ex = true -> bounded prec emax my ey = true ->
  let r := SFmul prec emax (S754_finite false mx ex) (S754_finite false my ey) in
  nonnegValid r = true
  /\ forall (mz : positive) (ez : Z),
       bounded prec emax mz ez = true ->
       (V (Z.pos mz) ez * Vone <= V (Z.pos mx) ex * V (Z.pos my) ey ->
        r = S754_infinity false \/ V (Z.pos mz) ez <= Fval r)
       /\ (V (Z.pos mx) ex * V (Z.pos my) ey <= V (Z.pos mz) ez * Vone ->
           r <> S754_infinity false /\ Fval r <= V (Z.pos mz) ez).
Proof.
  intros Hx Hy r. unfold SFmul in r. simpl xorb in r.
  destruct (bounded_facts mx ex Hx) as (Hex & _ & _).
  destruct (bounded_facts my ey Hy) as (Hey & _ & _).
  assert (Hpre : ex + ey <= fexp prec emax (Zdigits2 (Z.pos (mx * my)) + (ex + ey))).
  { unfold bounded, canonical_mantissa in Hx, Hy.
    apply andb_prop in Hx, Hy. destruct Hx as [Hx _], Hy as [Hy _].
    apply Z.eqb_eq in Hx, Hy. rewrite fexp_eq in *.
    destruct (digits2_pos_bounds mx) as [Hlx _].
    destruct (digits2_pos_bounds my) as [Hly _].
    assert (Hd : Z.pos (digits2_pos mx) + Z.pos (digits2_pos my) - 1
                 <= Z.pos (digits2_pos (mx * my))).
    { apply digits_ge. rewrite Pos2Z.inj_mul.
      replace (Z.pos (digits2_pos mx) + Z.pos (digits2_pos my) - 1 - 1)
        with ((Z.pos (digits2_pos mx) - 1) + (Z.pos (digits2_pos my) - 1)) by lia.
      rewrite Z.pow_add_r by lia.
      pose proof (pow2_pos (Z.pos (digits2_pos mx) - 1) ltac:(lia)).
      pose proof (pow2_pos (Z.pos (digits2_pos my) - 1) ltac:(lia)).
      nia. }
    simpl Zdigits2. lia. }
  destruct (round_aux_pos (Z.pos (mx * my)) (ex + ey) loc_Exact ltac:(lia)
              ltac:(unfold scale; lia) Hpre) as [Hv Hb].
  split; [exact Hv |].
  intros mz ez Hz. destruct (Hb mz ez Hz) as [HL HU].
  pose proof (V_mul (Z.pos mx) ex (Z.pos my) ey ltac:(unfold scale; lia)
                ltac:(unfold scale; lia) ltac:(unfold scale; lia)) as HVm.
  rewrite <- Pos2Z.inj_mul in HVm.
  pose proof Vone_pos as Hu.
  split.
  - intros HY. apply HL. rewrite <- HVm in HY. nia.
  - intros HY. apply HU. right. split; [reflexivity |]. rewrite <- HVm in HY. nia.
Qed.

Lemma shl_align_fst (mx : positive) (ex ez : Z) :
  ez <= ex -> Z.pos (fst (shl_align mx ex ez)) = Z.pos mx * 2 ^ (ex - ez).
Proof.
  intros Hle. unfold shl_align.
  destruct (ez - ex) as [| k | k] eqn:Hk; simpl fst.
  - replace (ex - ez) with 0 by lia. simpl. lia.
  - lia.
  - rewrite iter_xO. f_equal. f_equal. lia.
Qed.

(** The sum of two positive floats. *)
Lemma SFadd_pos (mx : positive) (ex : Z) (my : positive) (ey : Z) :
  - scale <= ex -> - scale <= ey ->
  let r := SFadd prec emax (S754_finite false mx ex) (S754_finite false my ey) in
  nonnegValid r = true
  /\ forall (mz : positive) (ez : Z),
       bounded prec emax mz ez = true ->
       (V (Z.pos mz) ez <= V (Z.pos mx) ex + V (Z.pos my) ey ->
        r = S754_infinity false \/ V (Z.pos mz) ez <= Fval r)
       /\ (V (Z.pos mx) ex + V (Z.pos my) ey <= V (Z.pos mz) ez ->
           r <> S754_infinity false /\ Fval r <= V (Z.pos mz) ez).
Proof.
  intros Hex Hey. cbv zeta. unfold SFadd, cond_Zopp.
  set (e0 := Z.min ex ey) in *.
  pose proof (shl_align_fst mx ex e0 ltac:(unfold e0; lia)) as Hax.
  pose proof (shl_align_fst my ey e0 ltac:(unfold e0; lia)) as Hay.
  set (ax := fst (shl_align mx ex e0)) in *.
  set (ay := fst (shl_align my ey e0)) in *.
  assert (Hsum : Z.pos ax + Z.pos ay = Z.pos (ax + ay)) by reflexivity.
  rewrite Hsum. unfold binary_normalize.
  destruct (binary_round_pos (ax + ay) e0 ltac:(unfold e0; lia)) as [Hv Hb].
  split; [exact Hv |].
  assert (HV : V (Z.pos (ax + ay)) e0 = V (Z.pos mx) ex + V (Z.pos my) ey).
  { rewrite <- Hsum, Hax, Hay. unfold V at 1. rewrite Z.mul_add_distr_r.
    f_equal.
    - fold (V (Z.pos mx * 2 ^ (ex - e0)) e0). rewrite V_shift by (unfold e0; lia).
      f_equal. lia.
    - fold (V (Z.pos my * 2 ^ (ey - e0)) e0). rewrite V_shift by (unfold e0; lia).
      f_equal. lia. }
  intros mz ez Hz. destruct (Hb mz ez Hz) as [HL HU]. rewrite HV in HL, HU.
  split; assumption.
Qed.

Lemma V_div_unit (m e : Z) :
  - scale <= e ->
  V m e / Vone = if 0 <=? e then m * 2 ^ e else m / 2 ^ (- e).
Proof.
  intros He. unfold V, Vone. destruct (Z.leb_spec 0 e) as [Hnn | Hneg].
  - rewrite Z.pow_add_r by (unfold scale; lia). rewrite Z.mul_assoc.
    apply Z.div_mul. pose proof Vone_pos. unfold Vone in *. lia.
  - replace scale with ((- e) + (e + scale)) at 2 by lia.
    rewrite (Z.pow_add_r 2 (- e)) by lia.
    apply Z.div_mul_cancel_r.
    + pose proof (pow2_pos (- e) ltac:(lia)). lia.
    + pose proof (pow2_pos (e + scale) ltac:(lia)). lia.
Qed.

(** The conversion to int64 of a non-negative float between two integers
    of the int64 range. *)
Lemma to_int64_between (f : spec_float) (lo hi : Z) :
  nonnegValid f = true -> f <> S754_infinity false ->
  0 <= lo -> hi <= GoInt.maxInt64 ->
  lo * Vone <= Fval f -> Fval f < (hi + 1) * Vone ->
  Float64.to_int64 f = Fval f / Vone /\ lo <= Float64.to_int64 f <= hi.
Proof.
  intros Hv Hfin Hlo Hhi Hge Hlt. pose proof Vone_pos as Hu.
  assert (Hdiv : lo <= Fval f / Vone <= hi).
  { split.
    - apply Z.div_le_lower_bound; lia.
    - assert (Fval f / Vone < hi + 1) by (apply Z.div_lt_upper_bound; lia). lia. }
  destruct f as [s | s | | s m e]; simpl in Hv; try discriminate.
  - simpl in *. split; [reflexivity |]. exact Hdiv.
  - destruct s; [discriminate | contradiction].
  - destruct s; [discriminate |].
    destruct (bounded_facts m e Hv) as (He & _ & _).
    unfold Fval in *. unfold Float64.to_int64.
    rewrite (V_div_unit (Z.pos m) e) in Hdiv |- * by (unfold scale; lia).
    set (mag := if 0 <=? e then Z.pos m * 2 ^ e else Z.pos m / 2 ^ (- e)) in *.
    cbv zeta.
    assert (Hr : (GoInt.minInt64 <=? mag) && (mag <=? GoInt.maxInt64) = true).
    { apply andb_true_intro. split; apply Z.leb_le; unfold GoInt.minInt64; lia. }
    rewrite Hr. split; [reflexivity | exact Hdiv].
Qed.

(** Division of two normal positive floats whose quotient is in the
    normal range too. *)
Lemma SFdiv_core_normal (m1 : positive) (e1 : Z) (m2 : positive) (e2 : Z) :
  Z.pos (digits2_pos m1) = 53 -> Z.pos (digits2_pos m2) = 53 ->
  -1074 <= e1 - e2 - 53 ->
  SFdiv_core_binary prec emax (Z.pos m1) e1 (Z.pos m2) e2
  = (Z.pos m1 * 2 ^ 53 / Z.pos m2, e1 - e2 - 53,
     new_location (Z.pos m2) ((Z.pos m1 * 2 ^ 53) mod Z.pos m2)).
Proof.
  intros Hd1 Hd2 He. unfold SFdiv_core_binary. simpl Zdigits2.
  rewrite Hd1, Hd2, fexp_eq.
  replace (Z.min (Z.max (53 + e1 - (53 + e2) - 53) (-1074)) (e1 - e2))
    with (e1 - e2 - 53) by lia.
  replace (e1 - e2 - (e1 - e2 - 53)) with 53 by lia.
  cbv zeta iota. rewrite Z.shiftl_mul_pow2 by lia.
  unfold Z.div, Z.modulo.
  destruct (Z.div_eucl (Z.pos m1 * 2 ^ 53) (Z.pos m2)) as [q r]. reflexivity.
Qed.

Lemma SFdiv_pos_normal (m1 : positive) (e1 : Z) (m2 : positive) (e2 : Z) :
  bounded prec emax m1 e1 = true -> bounded prec emax m2 e2 = true ->
  2 ^ 52 <= Z.pos m1 -> 2 ^ 52 <= Z.pos m2 -> -1074 <= e1 - e2 - 53 ->
  let r := SFdiv prec emax (S754_finite false m1 e1) (S754_finite false m2 e2) in
  nonnegValid r = true
  /\ forall (mz : positive) (ez : Z),
       bounded prec emax mz ez = true ->
       V (Z.pos m1) e1 * Vone < V (Z.pos mz) ez * V (Z.pos m2) e2 ->
       r <> S754_infinity false /\ Fval r <= V (Z.pos mz) ez.
Proof.
  intros H1 H2 Hn1 Hn2 He. cbv zeta.
  destruct (bounded_facts m1 e1 H1) as (He1 & Hm1 & _).
  destruct (bounded_facts m2 e2 H2) as (He2 & Hm2 & _).
  assert (Hd1 : Z.pos (digits2_pos m1) = 53).
  { apply Z.le_antisymm; [apply digits_le; lia | apply digits_ge; exact Hn1]. }
  assert (Hd2 : Z.pos (digits2_pos m2) = 53).
  { apply Z.le_antisymm; [apply digits_le; lia | apply digits_ge; exact Hn2]. }
  unfold SFdiv. rewrite (SFdiv_core_normal m1 e1 m2 e2 Hd1 Hd2 He). simpl xorb.
  set (q := Z.pos m1 * 2 ^ 53 / Z.pos m2).
  assert (Hq52 : 2 ^ 52 <= q).
  { unfold q. apply Z.div_le_lower_bound; [lia |]. nia. }
  assert (Hqm : q * Z.pos m2 <= Z.pos m1 * 2 ^ 53).
  { unfold q. pose proof (Z.mul_div_le (Z.pos m1 * 2 ^ 53) (Z.pos m2) ltac:(lia)). lia. }
  assert (Hqpos : 0 < q) by lia.
  destruct q as [| qp | qp] eqn:Hqeq; try lia.
  assert (Hpre : e1 - e2 - 53 <= fexp prec emax (Zdigits2 (Z.pos qp) + (e1 - e2 - 53))).
  { simpl Zdigits2. rewrite fexp_eq. pose proof (digits_ge qp 53 Hq52). lia. }
  destruct (round_aux_pos (Z.pos qp) (e1 - e2 - 53)
              (new_location (Z.pos m2) ((Z.pos m1 * 2 ^ 53) mod Z.pos m2))
              ltac:(lia) ltac:(unfold scale; lia) Hpre) as [Hv Hb].
  split; [exact Hv |].
  intros mz ez Hz HY. destruct (Hb mz ez Hz) as [_ HU].
  apply HU. left.
  assert (HVy : 0 < V (Z.pos m2) e2).
  { unfold V. apply Z.mul_pos_pos; [lia | apply pow2_pos; unfold scale; lia]. }
  assert (Hprod : V (Z.pos qp) (e1 - e2 - 53) * V (Z.pos m2) e2
                  <= V (Z.pos m1) e1 * Vone).
  { rewrite <- (V_mul (Z.pos qp) (e1 - e2 - 53) (Z.pos m2) e2)
      by (unfold scale; lia).
    apply Z.mul_le_mono_nonneg_r; [pose proof Vone_pos; lia |].
    replace (e1 - e2 - 53 + e2) with (e1 - 53) by lia.
    apply Z.le_trans with (V (Z.pos m1 * 2 ^ 53) (e1 - 53)).
    - apply V_mono_m; [unfold scale; lia | exact Hqm].
    - rewrite V_shift by (unfold scale; lia).
      replace (e1 - 53 + 53) with e1 by lia. apply Z.le_refl. }
  nia.
Qed.

Lemma shr_record_of_loc_m (m : Z) (l : location) : shr_m (shr_record_of_loc m l) = m.
Proof. destruct l as [| []]; reflexivity. Qed.

Lemma shr_m_nonneg (m : Z) (l : location) (e n : Z) :
  0 <= m -> 0 <= shr_m (fst (shr (shr_record_of_loc m l) e n)).
Proof.
  intros Hm. destruct (Z_le_gt_dec 0 n) as [Hn | Hn].
  - destruct (shr_spec m l e n Hm Hn) as (mrs & Hshr & Hdiv & _).
    rewrite Hshr. simpl. rewrite Hdiv. apply Z.div_pos; [lia | apply pow2_pos; lia].
  - rewrite shr_nonpos by lia. simpl. rewrite shr_record_of_loc_m. exact Hm.
Qed.

(** With the sign bit set, [binary_round_aux] yields a zero, a negative
    number or [-Inf]. *)
Lemma round_aux_nonpos (mx ex : Z) (lx : location) :
  0 <= mx -> nonpos (binary_round_aux prec emax true mx ex lx) = true.
Proof.
  intros Hmx. unfold binary_round_aux, shr_fexp.
  pose proof (shr_m_nonneg mx lx ex (fexp prec emax (Zdigits2 mx + ex) - ex) Hmx) as H1.
  destruct (shr (shr_record_of_loc mx lx) ex _) as [mrs e'] eqn:Hs1. simpl in H1.
  destruct (round_nearest_even_range (shr_m mrs) (loc_of_shr_record mrs)) as [Hr _].
  set (m1 := round_nearest_even (shr_m mrs) (loc_of_shr_record mrs)) in *.
  pose proof (shr_m_nonneg m1 loc_Exact e' (fexp prec emax (Zdigits2 m1 + e') - e')
                ltac:(lia)) as H2.
  destruct (shr (shr_record_of_loc m1 loc_Exact) e' _) as [mrs2 e2] eqn:Hs2.
  simpl in H2.
  destruct (shr_m mrs2) as [| q | q]; [reflexivity | | lia].
  destruct (e2 <=? emax - prec); reflexivity.
Qed.

Lemma binary_round_nonpos (mx : positive) (ex : Z) :
  nonpos (binary_round prec emax true mx ex) = true.
Proof.
  unfold binary_round. destruct (shl_align mx ex _) as [mz ez].
  apply round_aux_nonpos. lia.
Qed.

Lemma of_int_nonpos (z : Z) : z <= 0 -> nonpos (Float64.of_int z) = true.
Proof.
  intros Hz. destruct z as [| q | q]; [reflexivity | lia |].
  apply binary_round_nonpos.
Qed.

Lemma SFdiv_nonpos (x : spec_float) (my : positive) (ey : Z) :
  nonpos x = true ->
  nonpos (SFdiv prec emax x (S754_finite false my ey)) = true.
Proof.
  intros Hx. destruct x as [s | s | | s m e]; simpl in Hx; try discriminate.
  - reflexivity.
  - destruct s; [reflexivity | discriminate].
  - destruct s; [| discriminate]. unfold SFdiv.
    destruct (SFdiv_core_binary prec emax (Z.pos m) e (Z.pos my) ey)
      as [[mz ez] lz] eqn:Hcore.
    simpl xorb. apply round_aux_nonpos.
    unfold SFdiv_core_binary in Hcore.
    match type of Hcore with
    | (let '(q, r) := Z.div_eucl ?a ?b in _) = _ =>
        assert (Ha : 0 <= a);
        [| pose proof (Z.div_pos a b Ha ltac:(lia)) as Hq; unfold Z.div in Hq;
           destruct (Z.div_eucl a b) as [q r]; inversion Hcore; subst; exact Hq]
    end.
    cbv zeta. destruct (e - ey - _) as [| p | p]; try lia.
    rewrite Z.shiftl_mul_pow2 by lia.
    pose proof (pow2_pos (Z.pos p) ltac:(lia)). nia.
Qed.

Lemma SFadd_nonpos (x y : spec_float) :
  nonpos x = true -> nonpos y = true -> nonpos (SFadd prec emax x y) = true.
Proof.
  intros Hx Hy.
  destruct x as [sx | sx | | sx mx ex]; simpl in Hx; try discriminate;
    destruct y as [sy | sy | | sy my ey]; simpl in Hy; try discriminate;
    try (destruct sx; try discriminate); try (destruct sy; try discriminate);
    try reflexivity.
  unfold SFadd, cond_Zopp.
  change (- Z.pos (fst (shl_align mx ex (Z.min ex ey)))
          + - Z.pos (fst (shl_align my ey (Z.min ex ey))))
    with (Z.neg (fst (shl_align mx ex (Z.min ex ey))
                 + fst (shl_align my ey (Z.min ex ey)))).
  apply binary_round_nonpos.
Qed.

Lemma nonpos_ltb (x : spec_float) (m : positive) (e : Z) :
  nonpos x = true -> SFltb x (S754_finite false m e) = true.
Proof.
  intros Hx. destruct x as [s | s | | s mx ex]; simpl in Hx; try discriminate;
    try (destruct s; try discriminate); reflexivity.
Qed.

Lemma Vone_split : Vone = 2 ^ 30 * 2 ^ (scale - 30).
Proof. reflexivity. Qed.

Lemma of_int_pos_normal (z : Z) :
  0 < z < 2 ^ 53 ->
  exists m e, Float64.of_int z = S754_finite false m e
              /\ bounded prec emax m e = true
              /\ V (Z.pos m) e = z * Vone
              /\ 2 ^ 52 <= Z.pos m /\ -52 <= e <= 0.
Proof.
  intros Hz. destruct (of_int_pos z Hz) as (m & e & Hof & Hb & HV).
  exists m, e. split; [exact Hof |]. split; [exact Hb |]. split; [exact HV |].
  destruct (bounded_facts m e Hb) as (He & Hm & Hn).
  pose proof Vone_pos as Hu.
  assert (Hlo : -52 <= e).
  { destruct (Z_le_gt_dec (-52) e) as [H | H]; [exact H | exfalso].
    assert (V (Z.pos m) e < V (2 ^ 53) (-53)).
    { apply Z.lt_le_trans with (V (2 ^ 53) e).
      - apply V_lt_m; [unfold scale; lia | exact Hm].
      - apply V_mono_e; unfold scale; lia. }
    change (V (2 ^ 53) (-53)) with Vone in *. nia. }
  assert (Hhi : e <= 0).
  { destruct (Z_le_gt_dec e 0) as [H | H]; [exact H | exfalso].
    assert (V (2 ^ 52) 1 <= V (Z.pos m) e).
    { apply Z.le_trans with (V (2 ^ 52) e).
      - apply V_mono_e; unfold scale; lia.
      - apply V_mono_m; [unfold scale; lia | apply Hn; lia]. }
    change (V (2 ^ 52) 1) with (2 ^ 53 * Vone) in *. nia. }
  split; [apply Hn; lia | lia].
Qed.

Lemma of_int_1e9 :
  Float64.of_int 1000000000 = S754_finite false 8388608000000000 (-23).
Proof. reflexivity. Qed.

(** The fraction [float64(nsec)/1e9] of [Seconds] stays below
    [1 - 2^-30]. *)
Lemma nsec_fraction (nsec : Z) :
  0 <= nsec < 1000000000 ->
  let x := Float64.div (Float64.of_int nsec) (Float64.of_int 1000000000) in
  nonnegValid x = true /\ x <> S754_infinity false
  /\ Fval x <= Vone - 2 ^ (scale - 30).
Proof.
  intros Hn. cbv zeta. rewrite of_int_1e9. unfold Float64.div.
  destruct (Z.eq_dec nsec 0) as [-> | Hnz].
  - split; [reflexivity |]. split; [discriminate |]. vm_compute. discriminate.
  - destruct (of_int_pos_normal nsec ltac:(lia)) as (m & e & Hof & Hb & HV & Hm & He).
    rewrite Hof.
    assert (Hc : bounded prec emax 8388608000000000 (-23) = true) by reflexivity.
    destruct (SFdiv_pos_normal m e 8388608000000000 (-23) Hb Hc Hm ltac:(lia) ltac:(lia))
      as [Hv HU].
    split; [exact Hv |].
    assert (HY : bounded prec emax 9007199246352384 (-53) = true) by reflexivity.
    assert (HVY : V 9007199246352384 (-53) = Vone - 2 ^ (scale - 30)) by reflexivity.
    assert (HVc : V 8388608000000000 (-23) = 1000000000 * Vone) by reflexivity.
    rewrite <- HVY. apply (HU _ _ HY).
    rewrite HV, HVY, HVc, Vone_split.
    pose proof (pow2_pos (scale - 30) ltac:(unfold scale; lia)) as HT.
    set (T := 2 ^ (scale - 30)) in *. change (2 ^ 30) with 1073741824.
    nia.
Qed.

(** [d.Seconds()] of a non-negative duration lies between the whole
    seconds of [d] and, for durations of less than [2^20] seconds, the
    next second minus [2^-30]. *)
Lemma Seconds_nonneg (d : time.Duration) :
  0 <= d <= GoInt.maxInt64 ->
  let x := time.Seconds d in
  let sec := d / 1000000000 in
  nonnegValid x = true
  /\ (x = S754_infinity false \/ sec * Vone <= Fval x)
  /\ (sec < 2 ^ 20 ->
      x <> S754_infinity false /\ Fval x <= (sec + 1) * Vone - 2 ^ (scale - 30)).
Proof.
  intros Hd. cbv zeta. unfold time.Seconds, time.Second.
  rewrite Z.quot_div_nonneg, Z.rem_mod_nonneg by lia.
  set (sec := d / 1000000000). set (nsec := d mod 1000000000).
  assert (Hnsec : 0 <= nsec < 1000000000) by (apply Z.mod_pos_bound; lia).
  assert (Hsec : 0 <= sec < 2 ^ 34).
  { unfold sec. split; [apply Z.div_pos; lia |].
    apply Z.div_lt_upper_bound; [lia |]. unfold GoInt.maxInt64 in Hd. lia. }
  destruct (nsec_fraction nsec Hnsec) as (Hv3 & Hf3 & Hu3).
  set (x3 := Float64.div (Float64.of_int nsec) (Float64.of_int 1000000000)) in *.
  pose proof Vone_pos as Hu.
  pose proof (pow2_pos (scale - 30) ltac:(unfold scale; lia)) as HT.
  assert (HT1 : 2 ^ (scale - 30) <= Vone) by (rewrite Vone_split; nia).
  unfold Float64.add.
  destruct (Z.eq_dec sec 0) as [Hs0 | Hs0].
  - rewrite Hs0. change (Float64.of_int 0) with (S754_zero false).
    assert (Hx : SFadd prec emax (S754_zero false) x3 = x3).
    { destruct x3 as [s | s | | s m e]; simpl in Hv3; try discriminate;
        destruct s; try discriminate; reflexivity. }
    rewrite Hx. split; [exact Hv3 |]. split.
    + right. destruct x3 as [s | s | | s m e]; simpl in Hv3 |- *; try discriminate;
        destruct s; try discriminate; try lia.
      destruct (bounded_facts m e Hv3) as (He & _ & _).
      unfold V. pose proof (pow2_pos (e + scale) ltac:(unfold scale; lia)). nia.
    + intros _. split; [exact Hf3 | lia].
  - destruct (of_int_pos sec ltac:(lia)) as (m1 & e1 & Hof & Hb1 & HV1).
    rewrite Hof.
    destruct (bounded_facts m1 e1 Hb1) as (He1 & _ & _).
    destruct x3 as [s | s | | s m3 e3]; simpl in Hv3; try discriminate;
      destruct s; try discriminate; try contradiction.
    + simpl SFadd. split; [exact Hb1 |]. split.
      * right. simpl. lia.
      * intros _. split; [discriminate |]. simpl. lia.
    + destruct (bounded_facts m3 e3 Hv3) as (He3 & _ & _).
      destruct (SFadd_pos m1 e1 m3 e3 ltac:(unfold scale; lia) ltac:(unfold scale; lia))
        as [Hv HB].
      split; [exact Hv |]. split.
      * destruct (HB m1 e1 Hb1) as [HL _]. rewrite <- HV1. apply HL.
        assert (0 < V (Z.pos m3) e3).
        { unfold V. pose proof (pow2_pos (e3 + scale) ltac:(unfold scale; lia)). nia. }
        lia.
      * intros Hsmall.
        set (M := (sec + 1) * 2 ^ 30 - 1).
        assert (HM : 0 < M < 2 ^ 51) by (unfold M; lia).
        assert (Hdig : Z.pos (digits2_pos (Z.to_pos M)) <= 53).
        { pose proof (digits_le (Z.to_pos M) 51 ltac:(lia)
                        ltac:(rewrite Z2Pos.id; lia)). lia. }
        destruct (binary_round_normal (Z.to_pos M) (-30) Hdig ltac:(lia))
          as (my & ey & _ & Hby & HVy).
        rewrite Z2Pos.id in HVy by lia.
        assert (HVM : V M (-30) = (sec + 1) * Vone - 2 ^ (scale - 30)).
        { unfold V, M. rewrite Vone_split.
          replace (-30 + scale) with (scale - 30) by lia. ring. }
        destruct (HB my ey Hby) as [_ HU].
        rewrite HVy, HVM in HU. apply HU. simpl in Hu3. lia.
Qed.

Lemma Seconds_negative (d : time.Duration) :
  d <= 0 -> nonpos (time.Seconds d) = true.
Proof.
  intros Hd. unfold time.Seconds, Float64.add, Float64.div. rewrite of_int_1e9.
  apply SFadd_nonpos.
  - apply of_int_nonpos. unfold time.Second.
    replace d with (- (- d)) by lia. rewrite Z.quot_opp_l by lia.
    pose proof (Z.quot_pos (- d) 1000000000 ltac:(lia) ltac:(lia)). lia.
  - apply SFdiv_nonpos, of_int_nonpos.
    apply Z.rem_nonpos; [unfold time.Second; lia | exact Hd].
Qed.

(** The comparisons [d.Seconds() < k] of the histogram are exact: they
    hold when the duration is below [k] seconds and only then. *)
Lemma Seconds_ltb (k : Z) (d : time.Duration) :
  1 <= k <= 2 ^ 20 -> GoInt.minInt64 <= d <= GoInt.maxInt64 ->
  Float64.ltb (time.Seconds d) (Float64.of_int k) = (d <? k * 1000000000).
Proof.
  intros Hk Hd.
  destruct (of_int_pos k ltac:(lia)) as (mk & ek & Hof & Hbk & HVk).
  rewrite Hof. unfold Float64.ltb.
  destruct (Z_le_gt_dec d 0) as [Hneg | Hpos].
  - rewrite nonpos_ltb by (apply Seconds_negative; exact Hneg).
    symmetry. apply Z.ltb_lt. lia.
  - destruct (Seconds_nonneg d ltac:(lia)) as (Hv & Hlo & Hhi).
    set (x := time.Seconds d) in *. set (sec := d / 1000000000) in *.
    pose proof Vone_pos as Hu.
    pose proof (pow2_pos (scale - 30) ltac:(unfold scale; lia)) as HT.
    destruct (Z.ltb_spec d (k * 1000000000)) as [Hlt | Hge].
    + assert (Hsec : sec < k) by (apply Z.div_lt_upper_bound; lia).
      destruct (Hhi ltac:(lia)) as [Hfin Hup].
      destruct x as [s | s | | s m e]; simpl in Hv; try discriminate;
        destruct s; try discriminate; try contradiction; [reflexivity |].
      unfold SFltb. rewrite SFcompare_pos by assumption.
      replace (V (Z.pos m) e ?= V (Z.pos mk) ek) with Lt; [reflexivity |].
      symmetry. apply Z.compare_lt_iff. simpl in Hup. nia.
    + assert (Hsec : k <= sec) by (apply Z.div_le_lower_bound; lia).
      destruct x as [s | s | | s m e]; simpl in Hv; try discriminate;
        destruct s; try discriminate.
      * destruct Hlo as [Hinf | Hlo]; [discriminate | simpl in Hlo; nia].
      * reflexivity.
      * destruct Hlo as [Hinf | Hlo]; [discriminate |].
        unfold SFltb. rewrite SFcompare_pos by assumption.
        destruct (Z.compare_spec (V (Z.pos m) e) (V (Z.pos mk) ek)) as [H | H | H];
          try reflexivity.
        simpl in Hlo. nia.
Qed.

(** The conversion [int64(d.Seconds())] is the number of whole seconds,
    for non-negative durations of less than [2^20] seconds. *)
Lemma to_int64_Seconds (d : time.Duration) :
  0 <= d -> d / 1000000000 < 2 ^ 20 ->
  Float64.to_int64 (time.Seconds d) = d / 1000000000.
Proof.
  intros Hd Hsec.
  assert (Hmax : d <= GoInt.maxInt64).
  { unfold GoInt.maxInt64.
    pose proof (Z.mul_succ_div_gt d 1000000000 ltac:(lia)). lia. }
  destruct (Seconds_nonneg d ltac:(lia)) as (Hv & Hlo & Hhi).
  destruct (Hhi Hsec) as [Hfin Hup].
  destruct Hlo as [Hinf | Hlo]; [contradiction |].
  pose proof (pow2_pos (scale - 30) ltac:(unfold scale; lia)) as HT.
  assert (H0 : 0 <= d / 1000000000) by (apply Z.div_pos; lia).
  destruct (to_int64_between (time.Seconds d) (d / 1000000000) (d / 1000000000)
              Hv Hfin H0 ltac:(unfold GoInt.maxInt64; lia) Hlo ltac:(lia))
    as [_ Hr].
  lia.
Qed.

(** ** Back-off delays *)

Lemma backOffBase_eq : backOffBase = S754_finite false 8388608000000000 (-23).
Proof. reflexivity. Qed.

Lemma backOffMax_eq : backOffMax = S754_finite false 7864320000000000 (-17).
Proof. reflexivity. Qed.

Lemma pow2_eq (n : Z) :
  Float64.pow2 n = binary_round prec emax false 4503599627370496 (-52 + n).
Proof. reflexivity. Qed.

(** Case analysis on a float known to be zero, valid and positive, or
    [+Inf]. *)
Ltac nonneg_cases r Hv m e :=
  destruct r as [[] | [] | | [] m e]; simpl in Hv; try discriminate Hv.

(** From the sixth attempt on the delay is the cap. *)
Lemma backOffDur_cap (attempt : Z) : 6 <= attempt -> backOffDur attempt = backOffMax.
Proof.
  intros Ha. unfold backOffDur. rewrite pow2_eq.
  destruct (binary_round_pos 4503599627370496 (-52 + attempt)
              ltac:(unfold scale; lia)) as [Hv HB].
  assert (H64 : bounded prec emax 4503599627370496 (-46) = true) by reflexivity.
  destruct (HB _ _ H64) as [HL _]. clear HB.
  assert (HV64 : V 4503599627370496 (-46) = 64 * Vone) by reflexivity.
  specialize (HL ltac:(apply V_mono_e; [lia | unfold scale; lia])).
  rewrite HV64 in HL. clear HV64. pose proof Vone_pos as Hu.
  rewrite backOffBase_eq, backOffMax_eq. unfold Float64.mul, Float64.ltb.
  set (p := binary_round prec emax false 4503599627370496 (-52 + attempt)) in *.
  clearbody p.
  nonneg_cases p Hv m e.
  - destruct HL as [HL | HL]; [discriminate HL | simpl in HL; lia].
  - reflexivity.
  -     destruct HL as [HL | HL]; [discriminate HL |]. simpl in HL.
    assert (Hb : bounded prec emax 8388608000000000 (-23) = true) by reflexivity.
    assert (Hm : bounded prec emax 7864320000000000 (-17) = true) by reflexivity.
    destruct (SFmul_pos 8388608000000000 (-23) m e Hb Hv) as [Hvr HBr].
    destruct (HBr _ _ Hm) as [HLr _]. clear HBr.
    assert (HLr' : SFmul prec emax (S754_finite false 8388608000000000 (-23))
                     (S754_finite false m e) = S754_infinity false
                   \/ 60000000000 * Vone
                      <= Fval (SFmul prec emax
                                 (S754_finite false 8388608000000000 (-23))
                                 (S754_finite false m e))).
    { assert (HVb : V 8388608000000000 (-23) = 1000000000 * Vone) by reflexivity.
      assert (HVm : V 7864320000000000 (-17) = 60000000000 * Vone) by reflexivity.
      rewrite HVb, HVm in HLr. apply HLr. nia. }
    clear HLr.
    set (r := SFmul prec emax (S754_finite false 8388608000000000 (-23))
                (S754_finite false m e)) in *.
    clearbody r.
    nonneg_cases r Hvr m' e'.
    + destruct HLr' as [HLr | HLr]; [discriminate HLr | simpl in HLr; lia].
    + reflexivity.
    + destruct HLr' as [HLr | HLr]; [discriminate HLr |]. simpl in HLr.
      unfold SFltb. rewrite SFcompare_pos by assumption.
      assert (HVm : V 7864320000000000 (-17) = 60000000000 * Vone) by reflexivity.
      destruct (Z.compare_spec (V 7864320000000000 (-17)) (V (Z.pos m') e'))
        as [Heq | Hlt | Hgt]; [| reflexivity | lia].
      destruct (bounded_unique _ _ _ _ Hm Hvr Heq) as [<- <-]. reflexivity.
Qed.

Lemma backOffDurNs_cap (attempt : Z) : 6 <= attempt -> backOffDurNs attempt = 60000000000.
Proof.
  intros Ha. unfold backOffDurNs.
  assert (2 ^ 6 <= 2 ^ attempt) by (apply Z.pow_le_mono_r; lia).
  change (2 ^ 6) with 64 in *. lia.
Qed.

Lemma backOffDur_exact (attempt : Z) :
  0 <= attempt -> backOffDur attempt = Float64.of_int (backOffDurNs attempt).
Proof.
  intros Ha. destruct (Z_le_gt_dec 6 attempt) as [Hge | Hlt].
  - rewrite backOffDur_cap, backOffDurNs_cap by exact Hge. reflexivity.
  - assert (Hc : attempt = 0 \/ attempt = 1 \/ attempt = 2 \/ attempt = 3
                 \/ attempt = 4 \/ attempt = 5) by lia.
    destruct Hc as [-> | [-> | [-> | [-> | [-> | ->]]]]]; vm_compute; reflexivity.
Qed.

Lemma backOffDurNs_values (attempt : Z) :
  0 <= attempt ->
  In (backOffDurNs attempt)
     [1000000000; 2000000000; 4000000000; 8000000000; 16000000000;
      32000000000; 60000000000].
Proof.
  intros Ha. destruct (Z_le_gt_dec 6 attempt) as [Hge | Hlt].
  - rewrite backOffDurNs_cap by exact Hge. simpl. tauto.
  - assert (Hc : attempt = 0 \/ attempt = 1 \/ attempt = 2 \/ attempt = 3
                 \/ attempt = 4 \/ attempt = 5) by lia.
    destruct Hc as [-> | [-> | [-> | [-> | [-> | ->]]]]]; vm_compute; tauto.
Qed.

Lemma backOffDurNs_mono (a b : Z) :
  0 <= a <= b -> backOffDurNs a <= backOffDurNs b.
Proof.
  intros Hab. unfold backOffDurNs.
  assert (2 ^ a <= 2 ^ b) by (apply Z.pow_le_mono_r; lia). lia.
Qed.

Lemma of_int_leb (x y : Z) :
  0 < x <= y -> y < 2 ^ 53 ->
  Float64.leb (Float64.of_int x) (Float64.of_int y) = true.
Proof.
  intros Hx Hy.
  destruct (of_int_pos x ltac:(lia)) as (mx & ex & -> & Hbx & HVx).
  destruct (of_int_pos y ltac:(lia)) as (my & ey & -> & Hby & HVy).
  unfold Float64.leb, SFleb. rewrite SFcompare_pos by assumption.
  pose proof Vone_pos.
  destruct (Z.compare_spec (V (Z.pos mx) ex) (V (Z.pos my) ey)); try reflexivity.
  nia.
Qed.

Lemma unitInterval_cases (u : Float64.float64) :
  unitInterval u = true ->
  (exists s, u = S754_zero s)
  \/ (exists m e, u = S754_finite false m e /\ bounded prec emax m e = true
                  /\ V (Z.pos m) e < Vone).
Proof.
  unfold unitInterval. intros Hu.
  apply andb_prop in Hu. destruct Hu as [Hu Hlt].
  apply andb_prop in Hu. destruct Hu as [Hv Hle].
  destruct u as [s | s | | s m e]; try (destruct s; discriminate); try discriminate.
  - left. eauto.
  - right. destruct s; [discriminate |]. exists m, e. simpl in Hv.
    split; [reflexivity |]. split; [exact Hv |].
    change (Float64.of_int 1) with (S754_finite false 4503599627370496 (-52)) in Hlt.
    unfold Float64.ltb, SFltb in Hlt.
    rewrite SFcompare_pos in Hlt by (assumption || reflexivity).
    change (V 4503599627370496 (-52)) with Vone in Hlt.
    destruct (Z.compare_spec (V (Z.pos m) e) Vone); try discriminate. assumption.
Qed.

(** The jittered delay lies between the base and the value of [dur]. *)
Lemma jitter_between (u D : Float64.float64) (hi : Z) (mh : positive) (eh : Z) :
  unitInterval u = true ->
  nonnegValid D = true -> D <> S754_infinity false ->
  Fval D + 1000000000 * Vone = hi * Vone ->
  bounded prec emax mh eh = true -> V (Z.pos mh) eh = hi * Vone ->
  hi <= GoInt.maxInt64 ->
  1000000000
  <= Float64.to_int64 (Float64.add (Float64.mul u D) backOffBase) <= hi.
Proof.
  intros Hu HvD HfD HD Hbh HVh Hmax.
  pose proof Vone_pos as Hone.
  assert (Hb : bounded prec emax 8388608000000000 (-23) = true) by reflexivity.
  assert (HD0 : 0 <= Fval D).
  { nonneg_cases D HvD mD eD; simpl; try lia.
    destruct (bounded_facts _ _ HvD) as (He & _ & _).
    unfold V. pose proof (pow2_pos (eD + scale) ltac:(unfold scale; lia)). nia. }
  assert (Hbase : forall s,
             1000000000 <= Float64.to_int64
                 (Float64.add (S754_zero s) backOffBase) <= hi).
  { intros s. change (Float64.to_int64 (Float64.add (S754_zero s) backOffBase))
      with 1000000000. nia. }
  destruct (unitInterval_cases u Hu) as [[s ->] | (mu & eu & -> & Hbu & HVu)].
  - nonneg_cases D HvD mD eD; try contradiction.
    + apply Hbase.
    + apply (Hbase (xorb s false)).
  - nonneg_cases D HvD mD eD; try contradiction.
    + apply Hbase.
    + destruct (SFmul_pos mu eu mD eD Hbu HvD) as [Hv1 HB1].
      destruct (HB1 mD eD HvD) as [_ HU1]. clear HB1. simpl in HD0.
      specialize (HU1 ltac:(nia)). destruct HU1 as [Hf1 HU1].
      unfold Float64.mul.
      set (r1 := SFmul prec emax (S754_finite false mu eu) (S754_finite false mD eD)) in *.
      clearbody r1.
      nonneg_cases r1 Hv1 m1 e1; try contradiction.
      * apply Hbase.
      * destruct (bounded_facts m1 e1 Hv1) as (He1 & _ & _).
        rewrite backOffBase_eq. unfold Float64.add.
        destruct (SFadd_pos m1 e1 8388608000000000 (-23)
                    ltac:(unfold scale; lia) ltac:(unfold scale; lia)) as [Hv2 HB2].
        destruct (HB2 _ _ Hb) as [HL2 _].
        destruct (HB2 _ _ Hbh) as [_ HU2]. clear HB2.
        simpl in HU1, HD.
        assert (HVb : V 8388608000000000 (-23) = 1000000000 * Vone) by reflexivity.
        assert (0 < V (Z.pos m1) e1).
        { unfold V. pose proof (pow2_pos (e1 + scale) ltac:(unfold scale; lia)). nia. }
        specialize (HL2 ltac:(lia)). specialize (HU2 ltac:(lia)).
        destruct HU2 as [Hf2 HU2]. destruct HL2 as [HL2 | HL2]; [contradiction |].
        rewrite HVb in HL2. rewrite HVh in HU2.
        destruct (to_int64_between _ 1000000000 hi Hv2 Hf2 ltac:(lia) Hmax HL2
                    ltac:(lia)) as [_ Hr].
        exact Hr.
Qed.

Lemma jitter_of_value (hi : Z) (u : Float64.float64) :
  In hi [1000000000; 2000000000; 4000000000; 8000000000; 16000000000;
         32000000000; 60000000000] ->
  unitInterval u = true ->
  1000000000
  <= Float64.to_int64
       (Float64.add (Float64.mul u (Float64.sub (Float64.of_int hi) backOffBase))
                    backOffBase)
  <= hi.
Proof.
  intros Hin Hu. simpl In in Hin.
  repeat (destruct Hin as [<- | Hin];
          [match goal with
           | |- _ <= Float64.to_int64 (Float64.add (Float64.mul u (Float64.sub (Float64.of_int ?h) _)) _) <= _ =>
               destruct (of_int_pos h ltac:(lia)) as (mh & eh & _ & Hb & HV)
           end;
           apply (jitter_between u _ _ mh eh Hu);
           [ vm_compute; reflexivity
           | vm_compute; intros Habs; discriminate Habs
           | vm_compute; reflexivity
           | exact Hb
           | exact HV
           | vm_compute; intros Habs; discriminate Habs ]
          |]).
  contradiction.
Qed.

(** C3.  For every attempt number (counted from 0) the delay before the
    jitter is the base doubled [attempt] times and capped, hence
    non-decreasing in the attempt number up to the cap; and the delay
    slept, after the jitter, lies between the base (1 second) and that
    delay, hence between the base and the cap (60 seconds), whatever
    number of the unit interval [rand.Float64()] draws. *)
Theorem backOff_delay_monotone_and_bounded (a b : Z) (u : Float64.float64) :
  0 <= a <= b -> unitInterval u = true ->
  backOffDur a = Float64.of_int (backOffDurNs a)
  /\ backOffDurNs a <= backOffDurNs b
  /\ Float64.leb (backOffDur a) (backOffDur b) = true
  /\ 1 * time.Second <= backOffJitter a u <= backOffDurNs a
  /\ backOffDurNs a <= 60 * time.Second
  /\ (forall env w,
        events (backOffSleep env a w)
        = events w ++ [EvSleep a (backOffJitter a (randAt env (step w)))]).
Proof.
  intros Hab Hu.
  pose proof (backOffDurNs_values a ltac:(lia)) as Hva.
  pose proof (backOffDurNs_values b ltac:(lia)) as Hvb.
  pose proof (backOffDurNs_mono a b Hab) as Hmono.
  assert (Hra : 1000000000 <= backOffDurNs a <= 60000000000).
  { simpl In in Hva. lia. }
  assert (Hrb : 1000000000 <= backOffDurNs b <= 60000000000).
  { simpl In in Hvb. lia. }
  split; [apply backOffDur_exact; lia |].
  split; [exact Hmono |].
  split.
  { rewrite !backOffDur_exact by lia. apply of_int_leb; lia. }
  split.
  { unfold backOffJitter. rewrite backOffDur_exact by lia.
    change (1 * time.Second) with 1000000000.
    apply jitter_of_value; assumption. }
  split; [unfold time.Second; lia |].
  intros env w. reflexivity.
Qed.

Lemma backOff_delay_example :
  (0 <= 3 <= 7 /\ unitInterval (S754_finite false 4503599627370496 (-53)) = true)
  /\ backOffJitter 3 (S754_finite false 4503599627370496 (-53)) = 4500000000
  /\ 1 * time.Second
     <= backOffJitter 3 (S754_finite false 4503599627370496 (-53))
     <= backOffDurNs 3.
Proof.
  split; [split; [lia | reflexivity] |].
  split; [reflexivity |].
  apply (backOff_delay_monotone_and_bounded 3 7
           (S754_finite false 4503599627370496 (-53))); [lia | reflexivity].
Defined.

(** ** The active-span histogram *)

Lemma Sub_range (t u : time.Time) :
  GoInt.minInt64 <= time.Sub t u <= GoInt.maxInt64.
Proof.
  unfold time.Sub, GoInt.minInt64, GoInt.maxInt64.
  destruct (Z.ltb_spec (t - u) (- 2 ^ 63)); [lia |].
  destruct (Z.ltb_spec (2 ^ 63 - 1) (t - u)); lia.
Qed.

Lemma Sub_ltb (t u : time.Time) (k : Z) :
  1 <= k <= 2 ^ 20 ->
  (time.Sub t u <? k * 1000000000) = (t - u <? k * 1000000000).
Proof.
  intros Hk. unfold time.Sub, GoInt.minInt64, GoInt.maxInt64.
  destruct (Z.ltb_spec (t - u) (- 2 ^ 63)) as [H1 | H1].
  - destruct (Z.ltb_spec (- 2 ^ 63) (k * 1000000000)),
             (Z.ltb_spec (t - u) (k * 1000000000)); lia.
  - destruct (Z.ltb_spec (2 ^ 63 - 1) (t - u)) as [H2 | H2]; [| reflexivity].
    destruct (Z.ltb_spec (2 ^ 63 - 1) (k * 1000000000)),
             (Z.ltb_spec (t - u) (k * 1000000000)); lia.
Qed.

(** The bucket that the code selects with float comparisons is the
    half-open bucket of the span's age. *)
Lemma activeSpanBucket_spec (now start : time.Time) :
  activeSpanBucket now start = ageBucket (now - start).
Proof.
  unfold activeSpanBucket, ageBucket.
  rewrite !Seconds_ltb by (try apply Sub_range; lia).
  rewrite !Sub_ltb by lia. reflexivity.
Qed.

Lemma ageBucket_lt (age : Z) : (ageBucket age < 4)%nat.
Proof.
  unfold ageBucket.
  destruct (age <? 1000000000), (age <? 3000000000), (age <? 5000000000); lia.
Qed.

Lemma incr32_int32 (c : Z) : GoInt.incr32 (GoInt.int32 c) = GoInt.int32 (c + 1).
Proof.
  unfold GoInt.incr32, GoInt.int32, GoInt.wrap. f_equal.
  replace ((c + 2 ^ (32 - 1)) mod 2 ^ 32 - 2 ^ (32 - 1) + 1 + 2 ^ (32 - 1))
    with ((c + 2 ^ (32 - 1)) mod 2 ^ 32 + 1) by lia.
  rewrite Zplus_mod_idemp_l. f_equal. lia.
Qed.

Lemma fold_histogram (now : time.Time) (l : list (Z * time.Time)) :
  foldr (uncurry (fun (_ : Z) (start : time.Time) (activeSpanCount : list Z) =>
                    incrBucket (activeSpanBucket now start) activeSpanCount))
        [0; 0; 0; 0] l
  = map (fun i => GoInt.int32 (Z.of_nat (bucketCount now l i))) [0; 1; 2; 3]%nat.
Proof.
  induction l as [| [k start] l IH]; [reflexivity |].
  simpl foldr. rewrite IH.
  rewrite activeSpanBucket_spec. unfold bucketCount. simpl map.
  rewrite !filter_cons. simpl snd.
  pose proof (ageBucket_lt (now - start)) as Hlt.
  destruct (ageBucket (now - start)) as [| [| [| [| n]]]]; [| | | | lia];
    repeat case_decide; try lia; try congruence;
    unfold incrBucket; simpl; rewrite incr32_int32;
    repeat f_equal; lia.
Qed.

Lemma bucketCount_sum (now : time.Time) (l : list (Z * time.Time)) :
  (bucketCount now l 0 + bucketCount now l 1 + bucketCount now l 2
   + bucketCount now l 3 = length l)%nat.
Proof.
  unfold bucketCount. induction l as [| [k start] l IH]; [reflexivity |].
  rewrite !filter_cons. simpl snd.
  pose proof (ageBucket_lt (now - start)) as Hlt.
  destruct (ageBucket (now - start)) as [| [| [| [| n]]]]; [| | | | lia];
    repeat case_decide; try lia; try congruence; simpl length; lia.
Qed.

Lemma int32_small (z : Z) : - 2 ^ 31 <= z < 2 ^ 31 -> GoInt.int32 z = z.
Proof.
  intros Hz. unfold GoInt.int32, GoInt.wrap.
  change (2 ^ (32 - 1)) with 2147483648 in *. change (2 ^ 31) with 2147483648 in *.
  change (2 ^ 32) with 4294967296.
  rewrite Z.mod_small by lia. lia.
Qed.

(** C4.  The histogram that [getActiveSpanCount] returns has four
    buckets; bucket [i] counts (as an int32) the registered spans whose
    age [now - start] lies in the [i]-th of the half-open intervals
    below 1s, from 1s to below 3s, from 3s to below 5s, and from 5s on;
    every registered span is counted in exactly one bucket, so that the
    four counts add up to the number of registered spans (as long as that
    number fits an int32, the type of the counters). *)
Theorem active_span_histogram (now : time.Time) (st : Stats) :
  getActiveSpanCount now st
  = map (fun i => GoInt.int32 (Z.of_nat (spansInBucket now (activeSpan st) i)))
        [0; 1; 2; 3]%nat
  /\ (spansInBucket now (activeSpan st) 0 + spansInBucket now (activeSpan st) 1
      + spansInBucket now (activeSpan st) 2 + spansInBucket now (activeSpan st) 3
      = size (activeSpan st))%nat
  /\ (Z.of_nat (size (activeSpan st)) < 2 ^ 31 ->
      getActiveSpanCount now st
      = map (fun i => Z.of_nat (spansInBucket now (activeSpan st) i)) [0; 1; 2; 3]%nat
      /\ foldr Z.add 0 (getActiveSpanCount now st)
         = Z.of_nat (size (activeSpan st))).
Proof.
  assert (Hhist : getActiveSpanCount now st
                  = map (fun i => GoInt.int32
                                    (Z.of_nat (spansInBucket now (activeSpan st) i)))
                        [0; 1; 2; 3]%nat).
  { unfold getActiveSpanCount, rangeActiveSpan. rewrite map_fold_foldr.
    apply fold_histogram. }
  assert (Hsum : (spansInBucket now (activeSpan st) 0
                  + spansInBucket now (activeSpan st) 1
                  + spansInBucket now (activeSpan st) 2
                  + spansInBucket now (activeSpan st) 3
                  = size (activeSpan st))%nat).
  { unfold spansInBucket. rewrite bucketCount_sum. apply length_map_to_list. }
  split; [exact Hhist |]. split; [exact Hsum |].
  intros Hsize.
  assert (Hexact : getActiveSpanCount now st
                   = map (fun i => Z.of_nat (spansInBucket now (activeSpan st) i))
                         [0; 1; 2; 3]%nat).
  { rewrite Hhist. simpl map. rewrite !int32_small by lia. reflexivity. }
  split; [exact Hexact |].
  rewrite Hexact. simpl. lia.
Qed.

(** ** Sending on the channels *)

Section Sending.
Context `{Extern}.

Lemma Send_sent {M : Type} (stream : grpc.ClientStream M) (m : M) :
  grpc.sent (snd (grpc.Send stream m)) = grpc.sent stream ++ [m].
Proof. reflexivity. Qed.

Lemma makePSpan_isRootSpan (sp : span.t) : isRootSpan (fst (makePSpan sp)) = true.
Proof.
  unfold makePSpan. destruct (encodeSpanEvents _ _ _). reflexivity.
Qed.

Lemma makePSpanChunk_isSpanChunk (sp : span.t) :
  isSpanChunk (fst (makePSpanChunk sp)) = true.
Proof.
  unfold makePSpanChunk. destruct (encodeSpanEvents _ _ _). reflexivity.
Qed.

(** C1.  On a live stream, [sendSpan] hands exactly one message to the
    transport: the root-span message [makePSpan] builds when the span's
    [asyncId] is 0, the span-chunk message [makePSpanChunk] builds when
    it is not. *)
Theorem sendSpan_selects_shape (s : spanStream)
    (stream : grpc.ClientStream PSpanMessage) (sp : span.t) :
  spanStream_stream s = Some stream ->
  exists (e : option grpc.error) (stream' : grpc.ClientStream PSpanMessage)
         (sp' : span.t) (gspan : PSpanMessage),
    spanStream_sendSpan s sp = (e, mkSpanStream (Some stream'), sp')
    /\ grpc.sent stream' = grpc.sent stream ++ [gspan]
    /\ (span.asyncId sp = 0 ->
        gspan = fst (makePSpan sp) /\ isRootSpan gspan = true)
    /\ (span.asyncId sp <> 0 ->
        gspan = fst (makePSpanChunk sp) /\ isSpanChunk gspan = true).
Proof.
  intros Hs. unfold spanStream_sendSpan. rewrite Hs.
  destruct (Z.eqb_spec (span.asyncId sp) 0) as [Heq | Hne].
  - pose proof (makePSpan_isRootSpan sp) as Hroot.
    destruct (makePSpan sp) as [gspan sp'] eqn:Hmk. simpl in Hroot.
    exists (grpc.answers stream (length (grpc.sent stream))).
    eexists. exists sp', gspan. simpl.
    split; [reflexivity | split; [reflexivity | split]].
    + intros _. split; [reflexivity | exact Hroot].
    + intros Hne. contradiction.
  - pose proof (makePSpanChunk_isSpanChunk sp) as Hchunk.
    destruct (makePSpanChunk sp) as [gspan sp'] eqn:Hmk. simpl in Hchunk.
    exists (grpc.answers stream (length (grpc.sent stream))).
    eexists. exists sp', gspan. simpl.
    split; [reflexivity | split; [reflexivity | split]].
    + intros Heq. contradiction.
    + intros _. split; [reflexivity | exact Hchunk].
Qed.

(** C2.  A send on a channel whose stream handle is nil (ping, span or
    stat) returns at once with an error whose code is Unavailable; the
    wrapper still holds no stream, so nothing was handed to a transport,
    and the span was not touched. *)
Theorem send_on_nil_stream_is_unavailable :
  (forall s : pingStream, pingStream_stream s = None ->
     isUnavailable (fst (pingStream_sendPing s)) = true
     /\ snd (pingStream_sendPing s) = s)
  /\ (forall (s : spanStream) (sp : span.t), spanStream_stream s = None ->
     isUnavailable (fst (fst (spanStream_sendSpan s sp))) = true
     /\ snd (fst (spanStream_sendSpan s sp)) = s
     /\ snd (spanStream_sendSpan s sp) = sp)
  /\ (forall (s : statStream) (stats : list inspectorStats.t),
     statStream_stream s = None ->
     isUnavailable (fst (statStream_sendStats s stats)) = true
     /\ snd (statStream_sendStats s stats) = s).
Proof.
  split; [| split].
  - intros s Hs. unfold pingStream_sendPing. rewrite Hs. split; reflexivity.
  - intros s sp Hs. unfold spanStream_sendSpan. rewrite Hs.
    split; [| split]; reflexivity.
  - intros s stats Hs. unfold statStream_sendStats. rewrite Hs.
    split; reflexivity.
Qed.

End Sending.

(** ** Span encoding and the span's fields *)

Section EncodingFrame.
Context `{Extern}.

Lemma makePSpanEvent_frame (e : spanEvent.t) :
  sameEventButAnnotations e (snd (makePSpanEvent e))
  /\ annotation.alist (spanEvent.annotations (snd (makePSpanEvent e)))
     = annotation.alist (spanEvent.annotations e) ++ eventAppendix e.
Proof.
  unfold makePSpanEvent, eventAppendix, sameEventButAnnotations.
  destruct ((spanEvent.apiId e =? 0)
            && negb (String.eqb (spanEvent.operationName e) "")); simpl.
  - repeat split; reflexivity.
  - rewrite app_nil_r. repeat split; reflexivity.
Qed.

(** The loop over the span events encodes them one by one, in order. *)
Lemma encodeSpanEvents_spec (events : list spanEvent.t) :
  forall (acc : list PSpanEvent) (done : list spanEvent.t),
    encodeSpanEvents acc done events
    = (acc ++ map (fun e => fst (makePSpanEvent e)) events,
       done ++ map (fun e => snd (makePSpanEvent e)) events).
Proof.
  induction events as [| e rest IH]; intros acc done; simpl.
  - rewrite !app_nil_r. reflexivity.
  - destruct (makePSpanEvent e) as [p e'] eqn:He. simpl.
    rewrite IH, <- !app_assoc. reflexivity.
Qed.

Lemma makePSpan_leaves (sp : span.t) :
  snd (makePSpan sp)
  = span.set_spanEvents
      (span.set_annotations sp
         (annotation.AppendString (span.annotations sp) 12 (span.operationName sp)))
      (map (fun e => snd (makePSpanEvent e)) (span.spanEvents sp)).
Proof.
  unfold makePSpan. rewrite encodeSpanEvents_spec. reflexivity.
Qed.

Lemma makePSpanChunk_leaves (sp : span.t) :
  snd (makePSpanChunk sp)
  = span.set_spanEvents sp
      (map (fun e => snd (makePSpanEvent e)) (span.spanEvents sp)).
Proof.
  unfold makePSpanChunk. rewrite encodeSpanEvents_spec. reflexivity.
Qed.

(** C7, as amended.  Encoding leaves every field of the span and of its
    span events unchanged except the annotation lists, which only grow
    at their end: the root-span encoder appends the operation-name
    annotation (key 12) to the span's list, the chunk encoder leaves the
    span's list as it is, and both append the operation-name annotation
    to the list of each span event whose [apiId] is 0 and whose
    operation name is not empty.  The number and order of the span
    events are kept. *)
Theorem encoding_changes_only_annotations (sp : span.t) :
  let eventsKept (sp' : span.t) :=
    Forall2 (fun e e' =>
               sameEventButAnnotations e e'
               /\ annotation.alist (spanEvent.annotations e')
                  = annotation.alist (spanEvent.annotations e) ++ eventAppendix e)
            (span.spanEvents sp) (span.spanEvents sp') in
  (sameSpanButAnnotationsAndEvents sp (snd (makePSpan sp))
   /\ annotation.alist (span.annotations (snd (makePSpan sp)))
      = annotation.alist (span.annotations sp)
        ++ [operationNameAnnotation (span.operationName sp)]
   /\ eventsKept (snd (makePSpan sp)))
  /\ (sameSpanButAnnotationsAndEvents sp (snd (makePSpanChunk sp))
      /\ span.annotations (snd (makePSpanChunk sp)) = span.annotations sp
      /\ eventsKept (snd (makePSpanChunk sp))).
Proof.
  assert (Hev : Forall2
            (fun e e' =>
               sameEventButAnnotations e e'
               /\ annotation.alist (spanEvent.annotations e')
                  = annotation.alist (spanEvent.annotations e) ++ eventAppendix e)
            (span.spanEvents sp)
            (map (fun e => snd (makePSpanEvent e)) (span.spanEvents sp))).
  { induction (span.spanEvents sp) as [| e rest IH]; simpl; constructor.
    - apply makePSpanEvent_frame.
    - exact IH. }
  simpl. rewrite makePSpan_leaves, makePSpanChunk_leaves.
  unfold sameSpanButAnnotationsAndEvents. simpl.
  repeat split; try reflexivity; exact Hev.
Qed.

End EncodingFrame.

(** C7, as stated, fails: encoding the root span [plainSpan] changes its
    annotation list, which is empty before and holds the operation-name
    annotation after. *)
Lemma encoding_mutates_annotations :
  ~ (snd (@makePSpan sampleExtern plainSpan) = plainSpan)
  /\ annotation.alist (span.annotations plainSpan) = []
  /\ annotation.alist (span.annotations (snd (@makePSpan sampleExtern plainSpan)))
     = [operationNameAnnotation "GET /"].
Proof.
  split; [| split]; [| reflexivity | reflexivity].
  intros Heq. apply (f_equal (fun s => length (annotation.alist (span.annotations s)))) in Heq.
  vm_compute in Heq. discriminate Heq.
Qed.

(** ** The stat wire message *)

Lemma int64_small (z : Z) :
  GoInt.minInt64 <= z <= GoInt.maxInt64 -> GoInt.int64 z = z.
Proof.
  unfold GoInt.minInt64, GoInt.maxInt64, GoInt.int64, GoInt.wrap. intros Hz.
  change (2 ^ (64 - 1)) with 9223372036854775808 in *.
  change (2 ^ 63) with 9223372036854775808 in *.
  change (2 ^ 64) with 18446744073709551616.
  rewrite Z.mod_small by lia. lia.
Qed.

Lemma encodeStats_spec (stats : list inspectorStats.t) :
  forall acc, encodeStats acc stats = acc ++ map makePAgentStat stats.
Proof.
  induction stats as [| s rest IH]; intros acc; simpl.
  - rewrite app_nil_r. reflexivity.
  - rewrite IH, <- app_assoc. reflexivity.
Qed.

(** C10.  In the wire message of a sample the non-heap-max field is the
    sample's [nonHeapAlloc] plus 1000 (the int64 sum, which is the
    mathematical one whenever that fits an int64), the sample's own
    [nonHeapMax] has no influence on the message, and the collect
    interval is the constant 5000; the same holds for every sample of a
    batch that [sendStats] hands to a live stream. *)
Theorem makePAgentStat_nonHeapMax_and_interval (stat : inspectorStats.t) :
  PJvmGc_JvmMemoryNonHeapMax (PAgentStat_Gc (makePAgentStat stat))
  = GoInt.add64 (inspectorStats.nonHeapAlloc stat) 1000
  /\ (GoInt.minInt64 <= inspectorStats.nonHeapAlloc stat + 1000 <= GoInt.maxInt64 ->
      PJvmGc_JvmMemoryNonHeapMax (PAgentStat_Gc (makePAgentStat stat))
      = inspectorStats.nonHeapAlloc stat + 1000)
  /\ (forall v : Z,
        makePAgentStat (inspectorStats.set_nonHeapMax stat v) = makePAgentStat stat)
  /\ PAgentStat_CollectInterval (makePAgentStat stat) = 5000
  /\ (forall (stream : grpc.ClientStream PStatMessage) (stats : list inspectorStats.t),
        grpc.sent (default stream
                     (statStream_stream
                        (snd (statStream_sendStats (mkStatStream (Some stream)) stats))))
        = grpc.sent stream
          ++ [PStatMessage_AgentStatBatch (map makePAgentStat stats)]).
Proof.
  split; [reflexivity |]. split.
  { intros Hr. simpl. unfold GoInt.add64. apply int64_small. exact Hr. }
  split; [intros v; reflexivity |]. split; [reflexivity |].
  intros stream stats. unfold statStream_sendStats. simpl.
  rewrite encodeStats_spec. reflexivity.
Qed.

(** ** The average response time *)

(** C6.  [calcResponseAvg] always returns (no division panics, whatever
    the accumulated sum), it returns 0 when no request was counted, and
    then every snapshot that [getStats] returns reports the average 0. *)
Theorem calcResponseAvg_no_division_by_zero `{Extern} (st : Stats) :
  is_Some (calcResponseAvg st)
  /\ (requestCount st = 0 ->
      calcResponseAvg st = Some 0
      /\ forall (p : Probe) (s : inspectorStats.t) (st' : Stats),
           getStats p st = Some (s, st') -> inspectorStats.responseAvg s = 0).
Proof.
  split.
  - unfold calcResponseAvg, GoInt.div64.
    destruct (Z.ltb_spec 0 (requestCount st)) as [Hpos | Hle].
    + destruct (Z.eqb_spec (requestCount st) 0) as [Hz | Hnz]; [lia | eauto].
    + eauto.
  - intros Hzero.
    assert (Havg : calcResponseAvg st = Some 0).
    { unfold calcResponseAvg. rewrite Hzero. reflexivity. }
    split; [exact Havg |].
    intros p s st' Hget. unfold getStats in Hget. rewrite Havg in Hget.
    simpl in Hget.
    repeat match type of Hget with
           | context [GoInt.div64 ?a ?b] =>
               destruct (GoInt.div64 a b); simpl in Hget; [| discriminate Hget]
           end.
    inversion Hget. reflexivity.
Qed.

(** ** Stream creation with retry *)

Section RetryLoop.
Context {G T M : Type}.
Variable env : Env.
Variable open : G -> World -> T * G * World.
Variable live : T -> bool.
Variable nilStream : T.
Variable handle : T -> option (grpc.ClientStream M).

(** An opener issues exactly one stream-opening call. *)
Hypothesis open_once :
  forall g w, exists ch sid ok,
    snd (open g w) = tick w (EvOpen ch sid ok).
Hypothesis nilStream_nil : handle nilStream = None.

(** An iteration that starts with the flag reading false leaves the loop
    without calling the opener. *)
Lemma withRetryFrom_disabled (fuel : nat) (n : Z) (g : G) (w : World) :
  enableAt env (step w) = false ->
  withRetryFrom env open live nilStream (S fuel) n g w
  = (nilStream, g, tick w (EvEnable false)).
Proof. intros Hoff. simpl. rewrite Hoff. reflexivity. Qed.

Lemma withRetryFrom_gated (fuel : nat) :
  forall (n : Z) (g : G) (w : World),
    stopsWhenDisabled handle w (withRetryFrom env open live nilStream fuel n g w).
Proof.
  induction fuel as [| fuel IH]; intros n g w.
  - exists []. simpl. rewrite app_nil_r.
    split; [reflexivity | split; [reflexivity | intros []]].
  - simpl. destruct (enableAt env (step w)) eqn:Hen; simpl.
    + destruct (open_once g (tick w (EvEnable true))) as (ch & sid & ok & Hop).
      destruct (open g (tick w (EvEnable true))) as [[s g'] w'] eqn:Hopen.
      simpl in Hop. subst w'.
      destruct (live s).
      * exists [EvEnable true; EvOpen ch sid ok]. simpl.
        rewrite <- app_assoc.
        split; [reflexivity | split; [reflexivity |]].
        intros [Hf | [Hf | []]]; discriminate Hf.
      * destruct (IH (n + 1) g'
                    (backOffSleep env n
                       (tick (tick w (EvEnable true)) (EvOpen ch sid ok))))
          as (evs & Hev & Hg & Hnil).
        exists (EvEnable true :: EvOpen ch sid ok
                :: EvSleep n (backOffJitter n
                     (randAt env (step (tick (tick w (EvEnable true))
                                             (EvOpen ch sid ok)))))
                :: evs).
        split; [| split].
        -- rewrite Hev. unfold backOffSleep, tick. simpl.
           rewrite <- !app_assoc. reflexivity.
        -- simpl. exact Hg.
        -- intros [Hf | [Hf | [Hf | Hin]]]; try discriminate Hf.
           apply Hnil, Hin.
    + exists [EvEnable false]. simpl.
      split; [reflexivity | split; [reflexivity |]].
      intros _. exact nilStream_nil.
Qed.

End RetryLoop.

Lemma openStream_once {M : Type} (env : Env) (ch : Channel) (socketId : Z)
    (w : World) :
  exists ok, snd (openStream (M := M) env ch socketId w)
             = tick w (EvOpen ch (socketIdMetadata socketId) ok).
Proof.
  unfold openStream. destruct (openAt env (step w)); eexists; reflexivity.
Qed.

Lemma newPingStream_once (env : Env) (g : agentGrpc) (w : World) :
  exists ch sid ok, snd (newPingStream env g w) = tick w (EvOpen ch sid ok).
Proof.
  unfold newPingStream.
  destruct (openStream_once (M := PPing) env PingChannel
              (GoInt.incr64 (agentGrpc_pingSocketId g)) w) as [ok Hok].
  simpl in *. destruct (openStream _ _ _ _) as [s w']. simpl in *.
  subst w'. eauto.
Qed.

Lemma newSpanStream_once (env : Env) (g : spanGrpc) (w : World) :
  exists ch sid ok, snd (newSpanStream env g w) = tick w (EvOpen ch sid ok).
Proof.
  unfold newSpanStream.
  destruct (openStream_once (M := PSpanMessage) env SpanChannel (-1) w) as [ok Hok].
  destruct (openStream _ _ _ _) as [s w']. simpl in *. subst w'. eauto.
Qed.

Lemma newStatStream_once (env : Env) (g : statGrpc) (w : World) :
  exists ch sid ok, snd (newStatStream env g w) = tick w (EvOpen ch sid ok).
Proof.
  unfold newStatStream.
  destruct (openStream_once (M := PStatMessage) env StatChannel (-1) w) as [ok Hok].
  destruct (openStream _ _ _ _) as [s w']. simpl in *. subst w'. eauto.
Qed.

Lemma newHandleCommandStream_once (env : Env) (g : cmdGrpc) (w : World) :
  exists ch sid ok, snd (newHandleCommandStream env g w) = tick w (EvOpen ch sid ok).
Proof.
  unfold newHandleCommandStream.
  destruct (openStream_once (M := PCmdMessage) env CommandChannel (-1) w) as [ok Hok].
  destruct (openStream _ _ _ _) as [s w']. simpl in *. subst w'. eauto.
Qed.

(** C9.  In each of the four retry loops (ping, span, stat, command), an
    iteration that starts with the agent's enabled flag reading false
    leaves the loop at once, with a stream object whose handle is nil and
    without any attempt to open a stream; and over a whole run of a loop
    every attempt to open a stream comes right after a poll of the same
    iteration that read true, nothing at all follows a poll that read
    false, and such a poll means that the returned handle is nil. *)
Theorem retry_loops_stop_when_disabled (env : Env) :
  (forall (fuel : nat) (n : Z) (w : World),
     enableAt env (step w) = false ->
     (forall g, withRetryFrom env (newPingStream env) pingStream_live
                  (mkPingStream None) (S fuel) n g w
                = (mkPingStream None, g, tick w (EvEnable false)))
     /\ (forall g, withRetryFrom env (newSpanStream env) spanStream_live
                     (mkSpanStream None) (S fuel) n g w
                   = (mkSpanStream None, g, tick w (EvEnable false)))
     /\ (forall g, withRetryFrom env (newStatStream env) statStream_live
                     (mkStatStream None) (S fuel) n g w
                   = (mkStatStream None, g, tick w (EvEnable false)))
     /\ (forall g, withRetryFrom env (newHandleCommandStream env) cmdStream_live
                     (mkCmdStream None) (S fuel) n g w
                   = (mkCmdStream None, g, tick w (EvEnable false))))
  /\ (forall w g, stopsWhenDisabled pingStream_stream w (newPingStreamWithRetry env g w))
  /\ (forall w g, stopsWhenDisabled spanStream_stream w (newSpanStreamWithRetry env g w))
  /\ (forall w g, stopsWhenDisabled statStream_stream w (newStatStreamWithRetry env g w))
  /\ (forall w g, stopsWhenDisabled cmdStream_stream w (newCommandStreamWithRetry env g w)).
Proof.
  split; [| split; [| split; [| split]]].
  - intros fuel n w Hoff.
    repeat split; intros g; apply withRetryFrom_disabled; exact Hoff.
  - intros w g. apply withRetryFrom_gated; [apply newPingStream_once | reflexivity].
  - intros w g. apply withRetryFrom_gated; [apply newSpanStream_once | reflexivity].
  - intros w g. apply withRetryFrom_gated; [apply newStatStream_once | reflexivity].
  - intros w g. apply withRetryFrom_gated; [apply newHandleCommandStream_once | reflexivity].
Qed.

(** ** Thread dumps *)

Section ThreadDumps.
Context `{Extern}.

Lemma selectThreads_spec (dump : GoroutineDump) (threadName : list string) :
  forall selected,
    selectThreads dump selected threadName = selected ++ matched dump threadName.
Proof.
  unfold matched.
  induction threadName as [| tn rest IH]; intros selected; simpl.
  - rewrite app_nil_r. reflexivity.
  - destruct (Search dump tn) as [g |]; simpl.
    + rewrite IH, <- app_assoc. reflexivity.
    + apply IH.
Qed.

(** The index loop, from index [k] on, appends the encodings of the
    elements of index [k] to [limit - 1] (as far as [src] goes). *)
Lemma dumpLoop_spec {A : Type} (mk : time.Time -> Goroutine -> A)
    (clock : Z -> time.Time) (limit : Z) (src : list Goroutine) :
  forall (fuel k : nat) (dumpList : list A),
    (length src - k <= fuel)%nat ->
    dumpLoop mk clock fuel (Z.of_nat k) limit src dumpList
    = dumpList ++ imap (fun j g => mk (clock (Z.of_nat (k + j))) g)
                       (take (Z.to_nat limit - k) (drop k src)).
Proof.
  induction fuel as [| fuel IH]; intros k dumpList Hfuel.
  - simpl. rewrite drop_ge by lia. rewrite take_nil. simpl.
    rewrite app_nil_r. reflexivity.
  - simpl.
    destruct (Z.ltb_spec (Z.of_nat k) limit) as [Hlim | Hlim]; simpl.
    + destruct (Z.ltb_spec (Z.of_nat k) (Z.of_nat (length src))) as [Hlen | Hlen].
      * rewrite Nat2Z.id.
        destruct (lookup_lt_is_Some_2 src k ltac:(lia)) as [g Hg].
        rewrite Hg.
        replace (Z.of_nat k + 1) with (Z.of_nat (S k)) by lia.
        rewrite IH by lia.
        rewrite (drop_S _ _ _ Hg).
        replace (Z.to_nat limit - k)%nat with (S (Z.to_nat limit - S k)) by lia.
        simpl. rewrite <- app_assoc. simpl.
        replace (k + 0)%nat with k by lia.
        f_equal. f_equal. apply imap_ext. intros j g' _. simpl.
        replace (k + S j)%nat with (S k + j)%nat by lia. reflexivity.
      * rewrite drop_ge by lia. rewrite take_nil. simpl.
        rewrite app_nil_r. reflexivity.
    + replace (Z.to_nat limit - k)%nat with 0%nat by lia. simpl.
      rewrite app_nil_r. reflexivity.
Qed.

Lemma dumpLoop_dumped {A : Type} (mk : time.Time -> Goroutine -> A)
    (clock : Z -> time.Time) (limit : Z) (src : list Goroutine) :
  dumpLoop mk clock (length src) 0 limit src [] = dumped mk clock limit src.
Proof.
  change 0 with (Z.of_nat 0). rewrite dumpLoop_spec by lia.
  unfold dumped. simpl. rewrite Nat.sub_0_r. reflexivity.
Qed.

Lemma dumped_length {A : Type} (mk : time.Time -> Goroutine -> A)
    (clock : Z -> time.Time) (limit : Z) (src : list Goroutine) :
  0 <= limit ->
  Z.of_nat (length (dumped mk clock limit src))
  = Z.min limit (Z.of_nat (length src)).
Proof.
  intros Hl. unfold dumped. rewrite length_imap, length_take. lia.
Qed.

Lemma effectiveLimit_nonneg (dump : GoroutineDump) (limit : Z) :
  0 <= effectiveLimit dump limit.
Proof.
  unfold effectiveLimit. destruct (Z.leb_spec limit 0); lia.
Qed.

(** C8.  The full dump looks every name of the filter list up in the
    snapshot, in the order of the list, keeps the threads found, and
    encodes the first [min(effective limit, number of threads found)] of
    them; the light dump encodes the first [min(effective limit, size
    of the snapshot)] threads of the snapshot in the snapshot's own
    order; in both, the effective limit is the size of the snapshot when
    the limit given is 0 or less. *)
Theorem thread_dump_lists (clock : Z -> time.Time) (dump : GoroutineDump)
    (limit : Z) (threadName : list string) (localId : list Z) :
  makePActiveThreadDumpList clock dump limit threadName localId
  = dumped makePActiveThreadDump clock (effectiveLimit dump limit)
           (matched dump threadName)
  /\ Z.of_nat (length (makePActiveThreadDumpList clock dump limit threadName localId))
     = Z.min (effectiveLimit dump limit)
             (Z.of_nat (length (matched dump threadName)))
  /\ makePActiveThreadLightDumpList clock dump limit
     = dumped makePActiveThreadLightDump clock (effectiveLimit dump limit)
              (GoroutineDump_goroutines dump)
  /\ Z.of_nat (length (makePActiveThreadLightDumpList clock dump limit))
     = Z.min (effectiveLimit dump limit)
             (Z.of_nat (length (GoroutineDump_goroutines dump)))
  /\ (limit <= 0 ->
      effectiveLimit dump limit
      = Z.of_nat (length (GoroutineDump_goroutines dump))).
Proof.
  assert (Hlim : (if limit <? 1
                  then Z.of_nat (length (GoroutineDump_goroutines dump))
                  else limit) = effectiveLimit dump limit).
  { unfold effectiveLimit.
    destruct (Z.ltb_spec limit 1), (Z.leb_spec limit 0); lia. }
  assert (Hfull : makePActiveThreadDumpList clock dump limit threadName localId
                  = dumped makePActiveThreadDump clock (effectiveLimit dump limit)
                           (matched dump threadName)).
  { unfold makePActiveThreadDumpList. rewrite Hlim.
    rewrite selectThreads_spec. simpl. apply dumpLoop_dumped. }
  assert (Hlight : makePActiveThreadLightDumpList clock dump limit
                   = dumped makePActiveThreadLightDump clock
                            (effectiveLimit dump limit)
                            (GoroutineDump_goroutines dump)).
  { unfold makePActiveThreadLightDumpList. rewrite Hlim. apply dumpLoop_dumped. }
  split; [exact Hfull |]. split.
  { rewrite Hfull. apply dumped_length, effectiveLimit_nonneg. }
  split; [exact Hlight |]. split.
  { rewrite Hlight. apply dumped_length, effectiveLimit_nonneg. }
  intros Hle. unfold effectiveLimit.
  destruct (Z.leb_spec limit 0); [reflexivity | lia].
Qed.

End ThreadDumps.

(** ** Snapshots of the aggregator *)

Lemma Sub_exact (t u : time.Time) :
  GoInt.minInt64 <= t - u <= GoInt.maxInt64 -> time.Sub t u = t - u.
Proof.
  intros Hr. unfold time.Sub.
  destruct (Z.ltb_spec (t - u) GoInt.minInt64); [lia |].
  destruct (Z.ltb_spec GoInt.maxInt64 (t - u)); [lia | reflexivity].
Qed.

(** The divisor of the rate fields is 0 within a second of the previous
    snapshot, and is not 0 from one second on. *)
Lemma rate_divisor_zero (d : time.Duration) :
  0 <= d < 1000000000 -> Float64.to_int64 (time.Seconds d) = 0.
Proof.
  intros Hd. rewrite to_int64_Seconds; [apply Z.div_small; lia | lia |].
  rewrite Z.div_small by lia. lia.
Qed.

Lemma rate_divisor_nonzero (d : time.Duration) :
  1000000000 <= d <= GoInt.maxInt64 -> Float64.to_int64 (time.Seconds d) <> 0.
Proof.
  intros Hd. destruct (Seconds_nonneg d ltac:(lia)) as (Hv & Hlo & _).
  assert (Hsec : 1 <= d / 1000000000) by (apply Z.div_le_lower_bound; lia).
  pose proof Vone_pos as Hu.
  set (x := time.Seconds d) in *. clearbody x.
  nonneg_cases x Hv m e.
  - destruct Hlo as [Hlo | Hlo]; [discriminate Hlo | simpl in Hlo; nia].
  - discriminate.
  - destruct Hlo as [Hlo | Hlo]; [discriminate Hlo |]. simpl in Hlo.
    destruct (bounded_facts m e Hv) as (He & _ & _).
    unfold Float64.to_int64.
    rewrite <- (V_div_unit (Z.pos m) e) by (unfold scale; lia).
    assert (1 <= V (Z.pos m) e / Vone) by (apply Z.div_le_lower_bound; nia).
    cbv zeta.
    destruct ((GoInt.minInt64 <=? V (Z.pos m) e / Vone)
              && (V (Z.pos m) e / Vone <=? GoInt.maxInt64));
      [lia | discriminate].
Qed.

Section Snapshots.
Context `{Extern}.

Lemma calcResponseAvg_returns (st : Stats) : is_Some (calcResponseAvg st).
Proof.
  unfold calcResponseAvg, GoInt.div64.
  destruct (Z.ltb_spec 0 (requestCount st)) as [Hpos | Hle]; [| eauto].
  destruct (Z.eqb_spec (requestCount st) 0) as [Hz | Hnz]; [lia | eauto].
Qed.

(** Within a second of the previous snapshot, [getStats] panics with a
    division by zero. *)
Lemma getStats_divides_by_zero (p : Probe) (st : Stats) :
  0 <= Probe_now p - lastCollectTime st < 1000000000 ->
  getStats p st = None.
Proof.
  intros Hd. unfold getStats.
  rewrite Sub_exact by (unfold GoInt.minInt64, GoInt.maxInt64; lia).
  rewrite rate_divisor_zero by exact Hd.
  destruct (calcResponseAvg_returns st) as [avg ->]. reflexivity.
Qed.

(** From one second after the previous snapshot on, [getStats] returns,
    resets the counters, and reports the rate 0 for a counter that
    is 0. *)
Lemma getStats_returns (p : Probe) (st : Stats) :
  1000000000 <= Probe_now p - lastCollectTime st ->
  exists s st',
    getStats p st = Some (s, st')
    /\ lastCollectTime st' = Probe_now p
    /\ activeSpan st' = activeSpan st
    /\ (accResponseTime st', maxResponseTime st', requestCount st') = (0, 0, 0)
    /\ (sampleNew st', sampleCont st', unsampleNew st',
        unsampleCont st', skipNew st', skipCont st') = (0, 0, 0, 0, 0, 0)
    /\ (sampleNew st = 0 -> inspectorStats.sampleNew s = 0)
    /\ (sampleCont st = 0 -> inspectorStats.sampleCont s = 0)
    /\ (unsampleNew st = 0 -> inspectorStats.unSampleNew s = 0)
    /\ (unsampleCont st = 0 -> inspectorStats.unSampleCont s = 0)
    /\ (skipNew st = 0 -> inspectorStats.skipNew s = 0)
    /\ (skipCont st = 0 -> inspectorStats.skipCont s = 0).
Proof.
  intros Hd. unfold getStats.
  set (dur := time.Sub (Probe_now p) (lastCollectTime st)).
  assert (Hdur : 1000000000 <= dur <= GoInt.maxInt64).
  { pose proof (Sub_range (Probe_now p) (lastCollectTime st)) as Hr.
    unfold dur, time.Sub in *.
    destruct (Z.ltb_spec (Probe_now p - lastCollectTime st) GoInt.minInt64);
      [unfold GoInt.minInt64 in *; lia |].
    destruct (Z.ltb_spec GoInt.maxInt64 (Probe_now p - lastCollectTime st));
      unfold GoInt.maxInt64 in *; lia. }
  pose proof (rate_divisor_nonzero dur Hdur) as Hnz.
  set (secs := Float64.to_int64 (time.Seconds dur)) in *. clearbody secs.
  destruct (calcResponseAvg_returns st) as [avg ->].
  assert (Hdiv : forall c, GoInt.div64 c secs = Some (GoInt.int64 (Z.quot c secs))).
  { intros c. unfold GoInt.div64.
    destruct (Z.eqb_spec secs 0); [contradiction | reflexivity]. }
  rewrite !Hdiv. simpl.
  eexists _, _. split; [reflexivity |]. simpl.
  repeat split; intros ->; reflexivity.
Qed.

(** Two consecutive snapshots at least one second apart: the second one
    reports only zero rates. *)
Lemma second_snapshot_zero_rates (p1 p2 : Probe) (st st1 : Stats)
    (s1 : inspectorStats.t) :
  getStats p1 st = Some (s1, st1) ->
  1000000000 <= Probe_now p2 - Probe_now p1 ->
  exists s2 st2,
    getStats p2 st1 = Some (s2, st2)
    /\ (inspectorStats.sampleNew s2, inspectorStats.sampleCont s2,
        inspectorStats.unSampleNew s2, inspectorStats.unSampleCont s2,
        inspectorStats.skipNew s2, inspectorStats.skipCont s2)
       = (0, 0, 0, 0, 0, 0).
Proof.
  intros H1 Hd.
  assert (Hst1 : lastCollectTime st1 = Probe_now p1
                 /\ (sampleNew st1, sampleCont st1, unsampleNew st1,
                     unsampleCont st1, skipNew st1, skipCont st1)
                    = (0, 0, 0, 0, 0, 0)).
  { unfold getStats in H1.
    destruct (calcResponseAvg st); simpl in H1; [| discriminate H1].
    repeat match type of H1 with
           | context [GoInt.div64 ?a ?b] =>
               destruct (GoInt.div64 a b); simpl in H1; [| discriminate H1]
           end.
    inversion H1. split; reflexivity. }
  destruct Hst1 as [Hlast Hzero]. injection Hzero as Ha Hb Hc Hd' He Hf.
  destruct (getStats_returns p2 st1 ltac:(rewrite Hlast; exact Hd))
    as (s2 & st2 & Hget & _ & _ & _ & _ & Z1 & Z2 & Z3 & Z4 & Z5 & Z6).
  exists s2, st2. split; [exact Hget |].
  rewrite Z1, Z2, Z3, Z4, Z5, Z6 by assumption. reflexivity.
Qed.

End Snapshots.

(** C5, as stated, fails on the code.  The aggregator starts at time 0
    with all counters at 0; a first snapshot at 5s returns and reports
    only zero rates; a second snapshot half a second later, with no
    recording in between, does not return: the rate fields divide by
    [int64(dur.Seconds())], which is 0, and the division panics. *)
Theorem second_snapshot_within_a_second_panics :
  exists (s1 : inspectorStats.t) (st1 : Stats),
    @getStats sampleExtern (probeAt 5000000000) (startStats 0 ∅) = Some (s1, st1)
    /\ (inspectorStats.sampleNew s1, inspectorStats.sampleCont s1,
        inspectorStats.unSampleNew s1, inspectorStats.unSampleCont s1,
        inspectorStats.skipNew s1, inspectorStats.skipCont s1)
       = (0, 0, 0, 0, 0, 0)
    /\ Float64.to_int64 (time.Seconds (time.Sub 5500000000 5000000000)) = 0
    /\ @getStats sampleExtern (probeAt 5500000000) st1 = None.
Proof.
  destruct (@getStats_returns sampleExtern (probeAt 5000000000) (startStats 0 ∅)
              ltac:(simpl; lia))
    as (s1 & st1 & Hget & Hlast & _ & _ & _ & Z1 & Z2 & Z3 & Z4 & Z5 & Z6).
  exists s1, st1. split; [exact Hget |]. split.
  { rewrite Z1, Z2, Z3, Z4, Z5, Z6 by reflexivity. reflexivity. }
  split; [vm_compute; reflexivity |].
  apply getStats_divides_by_zero. rewrite Hlast. simpl. lia.
Qed.

(** ** The statements on sample data *)

Lemma active_span_histogram_example :
  Z.of_nat (size (activeSpan (startStats 0 fourSpans))) < 2 ^ 31
  /\ getActiveSpanCount 6000000000 (startStats 0 fourSpans) = [1; 1; 1; 1]
  /\ foldr Z.add 0 (getActiveSpanCount 6000000000 (startStats 0 fourSpans))
     = Z.of_nat (size (activeSpan (startStats 0 fourSpans))).
Proof.
  assert (Hsize : Z.of_nat (size (activeSpan (startStats 0 fourSpans))) < 2 ^ 31).
  { vm_compute. reflexivity. }
  split; [exact Hsize |]. split; [vm_compute; reflexivity |].
  apply (active_span_histogram 6000000000 (startStats 0 fourSpans)). exact Hsize.
Defined.

Lemma sendSpan_selects_shape_example :
  spanStream_stream liveSpanStream = Some (grpc.fresh noError)
  /\ exists (e : option grpc.error) (stream' : grpc.ClientStream PSpanMessage)
            (sp' : span.t) (gspan : PSpanMessage),
       @spanStream_sendSpan sampleExtern liveSpanStream asyncSpan
       = (e, mkSpanStream (Some stream'), sp')
       /\ grpc.sent stream' = grpc.sent (grpc.fresh noError) ++ [gspan]
       /\ (span.asyncId asyncSpan = 0 ->
           gspan = fst (@makePSpan sampleExtern asyncSpan) /\ isRootSpan gspan = true)
       /\ (span.asyncId asyncSpan <> 0 ->
           gspan = fst (@makePSpanChunk sampleExtern asyncSpan)
           /\ isSpanChunk gspan = true).
Proof.
  split; [reflexivity |].
  apply (@sendSpan_selects_shape sampleExtern liveSpanStream (grpc.fresh noError)
           asyncSpan).
  reflexivity.
Defined.

Lemma send_on_nil_stream_example :
  (pingStream_stream (mkPingStream None) = None
   /\ isUnavailable (fst (pingStream_sendPing (mkPingStream None))) = true
   /\ snd (pingStream_sendPing (mkPingStream None)) = mkPingStream None)
  /\ (spanStream_stream (mkSpanStream None) = None
      /\ isUnavailable
           (fst (fst (@spanStream_sendSpan sampleExtern (mkSpanStream None) plainSpan)))
         = true
      /\ snd (fst (@spanStream_sendSpan sampleExtern (mkSpanStream None) plainSpan))
         = mkSpanStream None
      /\ snd (@spanStream_sendSpan sampleExtern (mkSpanStream None) plainSpan)
         = plainSpan)
  /\ (statStream_stream (mkStatStream None) = None
      /\ isUnavailable (fst (statStream_sendStats (mkStatStream None) [sampleStat]))
         = true
      /\ snd (statStream_sendStats (mkStatStream None) [sampleStat])
         = mkStatStream None).
Proof.
  destruct (@send_on_nil_stream_is_unavailable sampleExtern) as (Hping & Hspan & Hstat).
  split; [| split].
  - split; [reflexivity |]. apply Hping. reflexivity.
  - split; [reflexivity |]. apply Hspan. reflexivity.
  - split; [reflexivity |]. apply Hstat. reflexivity.
Defined.

Lemma makePAgentStat_example :
  GoInt.minInt64 <= inspectorStats.nonHeapAlloc sampleStat + 1000 <= GoInt.maxInt64
  /\ PJvmGc_JvmMemoryNonHeapMax (PAgentStat_Gc (makePAgentStat sampleStat)) = 5096
  /\ inspectorStats.nonHeapMax sampleStat = 65536.
Proof.
  assert (Hr : GoInt.minInt64 <= inspectorStats.nonHeapAlloc sampleStat + 1000
               <= GoInt.maxInt64).
  { unfold GoInt.minInt64, GoInt.maxInt64. simpl. lia. }
  split; [exact Hr |]. split; [| reflexivity].
  destruct (makePAgentStat_nonHeapMax_and_interval sampleStat) as (_ & Hplain & _).
  rewrite (Hplain Hr). reflexivity.
Defined.

Lemma calcResponseAvg_example :
  requestCount (startStats 0 ∅) = 0
  /\ calcResponseAvg (startStats 0 ∅) = Some 0
  /\ exists (s : inspectorStats.t) (st' : Stats),
       @getStats sampleExtern (probeAt 5000000000) (startStats 0 ∅) = Some (s, st')
       /\ inspectorStats.responseAvg s = 0.
Proof.
  destruct (@calcResponseAvg_no_division_by_zero sampleExtern (startStats 0 ∅))
    as [_ Hzero].
  destruct (Hzero eq_refl) as [Havg Hsnap].
  split; [reflexivity |]. split; [exact Havg |].
  destruct (@getStats_returns sampleExtern (probeAt 5000000000) (startStats 0 ∅)
              ltac:(simpl; lia)) as (s & st' & Hget & _).
  exists s, st'. split; [exact Hget |]. exact (Hsnap _ _ _ Hget).
Defined.

Lemma retry_loops_example :
  enableAt disabledEnv (step startWorld) = false
  /\ newPingStreamWithRetry disabledEnv
       {| agentGrpc_pingSocketId := 0; agentGrpc_agent := sampleAgent |} startWorld
     = (mkPingStream None,
        {| agentGrpc_pingSocketId := 0; agentGrpc_agent := sampleAgent |},
        mkWorld 1 [EvEnable false]).
Proof.
  split; [reflexivity |].
  destruct (retry_loops_stop_when_disabled disabledEnv) as [Hiter _].
  destruct (Hiter 98%nat 1 startWorld eq_refl) as [Hping _].
  apply Hping.
Defined.

Lemma thread_dump_lists_example :
  0 <= 0
  /\ effectiveLimit sampleDump 0 = 2
  /\ @makePActiveThreadDumpList sampleExtern (fun _ => 0) sampleDump 0
       ["worker"; "absent"; "main"]%string []
     = @dumped _ (@makePActiveThreadDump sampleExtern) (fun _ => 0) 2
         (@matched sampleExtern sampleDump ["worker"; "absent"; "main"]%string)
  /\ length (@makePActiveThreadDumpList sampleExtern (fun _ => 0) sampleDump 0
               ["worker"; "absent"; "main"]%string []) = 2%nat.
Proof.
  destruct (@thread_dump_lists sampleExtern (fun _ => 0) sampleDump 0
              ["worker"; "absent"; "main"]%string [])
    as (Hfull & _ & _ & _ & Hlim).
  split; [lia |].
  assert (Heff : effectiveLimit sampleDump 0 = 2) by (rewrite Hlim; [reflexivity | lia]).
  split; [exact Heff |]. split.
  - rewrite Hfull, Heff. reflexivity.
  - reflexivity.
Defined.

(** Outside the attempt numbers that the retry loops pass (1 to 99), a
    negative attempt makes [dur] smaller than the base, and the delay
    slept falls below the base: three quarters of a second for the
    attempt -1 and the draw 0.5. *)
Example backOffJitter_negative_attempt :
  backOffJitter (-1) (S754_finite false 4503599627370496 (-53)) = 750000000.
Proof. vm_compute. reflexivity. Qed.

(** The scenario of a single span registered at time 0 with id 7: it is
    counted in the first bucket half a second later, in the third one
    after four seconds, and nowhere once it is dropped. *)
Example single_span_scenario :
  getActiveSpanCount 500000000 (addActiveSpan 7 0 (startStats 0 ∅)) = [1; 0; 0; 0]
  /\ getActiveSpanCount 4000000000 (addActiveSpan 7 0 (startStats 0 ∅)) = [0; 0; 1; 0]
  /\ getActiveSpanCount 4000000000
       (dropActiveSpan 7 (addActiveSpan 7 0 (startStats 0 ∅))) = [0; 0; 0; 0].
Proof. vm_compute. repeat split; reflexivity. Qed.

(** The scenario of two recorded response times, 100ms and 300ms: the
    snapshot reports the average 200 and the maximum 300, and the next
    snapshot, a second later and with nothing recorded, reports 0 and
    0. *)
Example response_time_scenario :
  let st := collectResponseTime 300 (collectResponseTime 100 (startStats 0 ∅)) in
  exists s1 st1 s2 st2,
    @getStats sampleExtern (probeAt 5000000000) st = Some (s1, st1)
    /\ inspectorStats.responseAvg s1 = 200 /\ inspectorStats.responseMax s1 = 300
    /\ @getStats sampleExtern (probeAt 6000000000) st1 = Some (s2, st2)
    /\ inspectorStats.responseAvg s2 = 0 /\ inspectorStats.responseMax s2 = 0.
Proof.
  simpl. eexists _, _, _, _.
  split; [vm_compute; reflexivity |].
  split; [reflexivity |]. split; [reflexivity |].
  split; [vm_compute; reflexivity |].
  split; reflexivity.
Qed.

(** ** Runs of the retry loops *)

Lemma failedAttempts_cons (ch : Channel) (sid : nat -> option Z) (n : Z)
    (d : time.Duration) (ds : list time.Duration) :
  failedAttempts ch sid n (d :: ds)
  = failedAttempt ch (sid 0%nat) n d
    ++ failedAttempts ch (fun i => sid (S i)) (n + 1) ds.
Proof.
  unfold failedAttempts. rewrite imap_cons, concat_cons.
  change (Z.of_nat 0) with 0. rewrite Z.add_0_r. f_equal. f_equal.
  apply imap_ext. intros i x _. unfold compose. f_equal. lia.
Qed.

Lemma failedAttempts_ext (ch : Channel) (sid sid' : nat -> option Z) (n : Z)
    (ds : list time.Duration) :
  (forall i, (i < length ds)%nat -> sid i = sid' i) ->
  failedAttempts ch sid n ds = failedAttempts ch sid' n ds.
Proof.
  intros Hext. unfold failedAttempts. f_equal. apply imap_ext.
  intros i d Hd. rewrite Hext; [reflexivity |].
  apply lookup_lt_Some in Hd. exact Hd.
Qed.

Lemma failedAttempts_In_sleep (ch : Channel) (ds : list time.Duration) :
  forall (sid : nat -> option Z) (n m : Z) (d : time.Duration),
    In (EvSleep m d) (failedAttempts ch sid n ds) ->
    exists i, ds !! i = Some d /\ m = n + Z.of_nat i.
Proof.
  induction ds as [| d0 ds IH]; intros sid n m d Hin.
  - destruct Hin.
  - rewrite failedAttempts_cons in Hin. simpl in Hin.
    destruct Hin as [Hf | [Hf | [Hf | Hin]]]; try discriminate Hf.
    + injection Hf as -> ->. exists 0%nat. split; [reflexivity | lia].
    + destruct (IH _ _ _ _ Hin) as (i & Hi & ->).
      exists (S i). split; [exact Hi | lia].
Qed.

Lemma openCount_app (l1 l2 : list Event) :
  openCount (l1 ++ l2) = (openCount l1 + openCount l2)%nat.
Proof.
  unfold openCount. induction l1 as [| ev l1 IH]; [reflexivity |].
  simpl. rewrite IH. destruct ev; reflexivity.
Qed.

Lemma openCount_failedAttempts (ch : Channel) (ds : list time.Duration) :
  forall (sid : nat -> option Z) (n : Z),
    openCount (failedAttempts ch sid n ds) = length ds.
Proof.
  induction ds as [| d ds IH]; intros sid n; [reflexivity |].
  rewrite failedAttempts_cons, openCount_app, IH. reflexivity.
Qed.

Lemma totalSleep_app (l1 l2 : list Event) :
  totalSleep (l1 ++ l2) = totalSleep l1 + totalSleep l2.
Proof.
  unfold totalSleep. induction l1 as [| ev l1 IH]; [reflexivity |].
  simpl. rewrite IH. destruct ev; lia.
Qed.

(** The failed iterations sleep no longer than the delays before the
    jitter add up to. *)
Lemma totalSleep_failedAttempts (ch : Channel) (ds : list time.Duration) :
  forall (sid : nat -> option Z) (n : Z),
    (forall i d, ds !! i = Some d -> d <= backOffDurNs (n + Z.of_nat i)) ->
    totalSleep (failedAttempts ch sid n ds)
    <= foldr Z.add 0 (map (fun i => backOffDurNs (n + Z.of_nat i))
                          (seq 0 (length ds))).
Proof.
  induction ds as [| d ds IH]; intros sid n Hds; [simpl; lia |].
  rewrite failedAttempts_cons, totalSleep_app.
  specialize (IH (fun i => sid (S i)) (n + 1)
                 ltac:(intros i d' Hd'; specialize (Hds (S i) d' Hd');
                       replace (n + 1 + Z.of_nat i) with (n + Z.of_nat (S i)) by lia;
                       exact Hds)).
  pose proof (Hds 0%nat d eq_refl) as H0.
  simpl length. simpl seq. simpl map. simpl foldr.
  rewrite <- seq_shift, map_map.
  erewrite (map_ext (fun x => backOffDurNs (n + Z.of_nat (S x))));
    [| intros i; replace (n + Z.of_nat (S i)) with (n + 1 + Z.of_nat i) by lia;
       reflexivity].
  unfold failedAttempt, totalSleep at 1. simpl foldr. lia.
Qed.

Lemma backOffDurNs_nonneg (n : Z) : 0 <= backOffDurNs n.
Proof.
  unfold backOffDurNs. pose proof (Z.pow_nonneg 2 n ltac:(lia)). lia.
Qed.

Lemma backOffDurNs_total (k : nat) :
  (k <= 99)%nat ->
  foldr Z.add 0 (map (fun i => backOffDurNs (1 + Z.of_nat i)) (seq 0 k))
  <= maxTotalSleep.
Proof.
  intros Hk.
  assert (Hnn : forall l : list nat,
             0 <= foldr Z.add 0 (map (fun i => backOffDurNs (1 + Z.of_nat i)) l)).
  { induction l as [| i l IH]; simpl; [lia |].
    pose proof (backOffDurNs_nonneg (1 + Z.of_nat i)). lia. }
  assert (Happ : forall l1 l2 : list Z,
             foldr Z.add 0 (l1 ++ l2) = foldr Z.add 0 l1 + foldr Z.add 0 l2).
  { induction l1 as [| x l1 IH]; intros l2; simpl; [reflexivity |].
    rewrite IH. lia. }
  assert (H99 : foldr Z.add 0 (map (fun i => backOffDurNs (1 + Z.of_nat i)) (seq 0 99))
                = maxTotalSleep) by (vm_compute; reflexivity).
  rewrite <- H99.
  replace 99%nat with (k + (99 - k))%nat at 1 by lia.
  rewrite seq_app, map_app, Happ.
  pose proof (Hnn (seq (0 + k) (99 - k))). lia.
Qed.

Lemma retryRun_ext {M : Type} (ch : Channel) (sid sid' : nat -> option Z)
    (evs : list Event) (h : option (grpc.ClientStream M)) :
  (forall i, (i < 99)%nat -> sid i = sid' i) ->
  retryRun ch sid evs h -> retryRun ch sid' evs h.
Proof.
  intros Hext [ds Hcase]. exists ds.
  assert (Hfa : (length ds <= 99)%nat ->
                failedAttempts ch sid 1 ds = failedAttempts ch sid' 1 ds).
  { intros Hlen. apply failedAttempts_ext. intros i Hi. apply Hext. lia. }
  destruct Hcase as [(Hlen & -> & ->) | [(Hlen & -> & ->) | (Hlen & ans & -> & ->)]].
  - left. rewrite Hfa by lia. repeat split. exact Hlen.
  - right. left. rewrite Hfa by lia. repeat split. exact Hlen.
  - right. right. rewrite Hfa by lia. rewrite (Hext _ Hlen).
    split; [exact Hlen |]. exists ans. split; reflexivity.
Qed.

Lemma retryRun_openCount {M : Type} (ch : Channel) (sid : nat -> option Z)
    (evs : list Event) (h : option (grpc.ClientStream M)) :
  retryRun ch sid evs h -> (openCount evs <= 99)%nat.
Proof.
  intros [ds [(Hlen & -> & _) | [(Hlen & -> & _) | (Hlen & ans & -> & _)]]];
    rewrite ?openCount_app, openCount_failedAttempts; simpl; lia.
Qed.

Section RetryRuns.
Context {G T M : Type}.
Variable env : Env.
Variable open : G -> World -> T * G * World.
Variable live : T -> bool.
Variable nilStream : T.
Variable handle : T -> option (grpc.ClientStream M).
Variable ch : Channel.
(** the metadata with which the opener opens, and the connection object
    as it leaves it *)
Variable sidOf : G -> option Z.
Variable next : G -> G.

(** An opener issues one stream-opening call, returns a live wrapper
    exactly when the collector accepts the stream, and then holds a
    stream on which nothing was sent. *)
Hypothesis open_spec :
  forall g w, exists s,
    open g w = (s, next g, tick w (EvOpen ch (sidOf g) (live s)))
    /\ live s = bool_decide (is_Some (openAt env (step w)))
    /\ (live s = true -> exists ans, handle s = Some (grpc.fresh ans)).
Hypothesis nilStream_nil : handle nilStream = None.

(** What the loop, from the iteration numbered [n] on and with [fuel]
    iterations left, adds to the events: failed iterations that sleep
    for the durations [ds], then the events [last]. *)
Lemma withRetryFrom_trace (fuel : nat) :
  forall (n : Z) (g : G) (w : World),
    exists (ds : list time.Duration) (last : list Event) (opened : nat),
      let r := withRetryFrom env open live nilStream fuel n g w in
      events (snd r)
      = events w ++ failedAttempts ch (fun i => sidOf (Nat.iter i next g)) n ds ++ last
      /\ snd (fst r) = Nat.iter (length ds + opened) next g
      /\ (forall i d, ds !! i = Some d ->
            exists k, d = backOffJitter (n + Z.of_nat i) (randAt env k))
      /\ ((last = [] /\ opened = 0%nat /\ length ds = fuel
           /\ fst (fst r) = nilStream)
          \/ (last = [EvEnable false] /\ opened = 0%nat /\ (length ds < fuel)%nat
              /\ fst (fst r) = nilStream
              /\ exists k, enableAt env k = false)
          \/ (last = [EvEnable true;
                      EvOpen ch (sidOf (Nat.iter (length ds) next g)) true]
              /\ opened = 1%nat /\ (length ds < fuel)%nat
              /\ (exists ans, handle (fst (fst r)) = Some (grpc.fresh ans))
              /\ exists k, is_Some (openAt env k))).
Proof.
  induction fuel as [| fuel IH]; intros n g w.
  - exists [], [], 0%nat. simpl. rewrite app_nil_r.
    split; [reflexivity |]. split; [reflexivity |].
    split; [intros i d Hd; discriminate Hd |].
    left. repeat split; reflexivity.
  - simpl withRetryFrom. unfold Enable.
    destruct (enableAt env (step w)) eqn:Hen; simpl negb; cbv iota.
    + destruct (open_spec g (tick w (EvEnable true))) as (s & Hopen & Hlive & Hfresh).
      rewrite Hopen.
      destruct (live s) eqn:Hs.
      * exists [], [EvEnable true; EvOpen ch (sidOf g) true], 1%nat. simpl.
        rewrite <- app_assoc. simpl.
        split; [reflexivity |]. split; [reflexivity |].
        split; [intros i d Hd; discriminate Hd |].
        right. right. split; [reflexivity |]. split; [reflexivity |].
        split; [lia |]. split; [apply Hfresh; reflexivity |].
        exists (step (tick w (EvEnable true))).
        symmetry in Hlive. apply bool_decide_eq_true in Hlive. exact Hlive.
      * set (w1 := tick (tick w (EvEnable true)) (EvOpen ch (sidOf g) false)).
        destruct (IH (n + 1) (next g) (backOffSleep env n w1))
          as (ds & last & opened & Hev & Hg & Hds & Hcase).
        cbv zeta in Hev, Hg, Hcase.
        set (r := withRetryFrom env open live nilStream fuel (n + 1) (next g)
                    (backOffSleep env n w1)) in *.
        exists (backOffJitter n (randAt env (step w1)) :: ds), last, opened.
        cbv zeta.
        split.
        { assert (Hsid : failedAttempts ch (fun i => sidOf (Nat.iter (S i) next g))
                             (n + 1) ds
                         = failedAttempts ch (fun i => sidOf (Nat.iter i next (next g)))
                             (n + 1) ds).
          { unfold failedAttempts. f_equal. apply imap_ext. intros i d _.
            rewrite Nat.iter_succ_r. reflexivity. }
          rewrite Hev, failedAttempts_cons, Hsid.
          unfold backOffSleep, w1, tick, failedAttempt. cbn [events app].
          rewrite <- !app_assoc. reflexivity. }
        split.
        { rewrite Hg. simpl length. rewrite <- Nat.iter_succ_r. reflexivity. }
        split.
        { intros [| i] d Hd; simpl in Hd.
          - injection Hd as <-. exists (step w1). f_equal. lia.
          - destruct (Hds i d Hd) as [k Hk]. exists k. rewrite Hk. f_equal. lia. }
        destruct Hcase as [(Hl & Ho & Hlen & Hnil)
                          | [(Hl & Ho & Hlen & Hnil & Hoff)
                            | (Hl & Ho & Hlen & Hans & Hacc)]].
        -- left. simpl length. repeat split; try assumption. lia.
        -- right. left. simpl length. repeat split; try assumption. lia.
        -- right. right. simpl length. split.
           { rewrite Hl. rewrite Nat.iter_succ_r. reflexivity. }
           repeat split; try assumption. lia.
    + exists [], [EvEnable false], 0%nat. simpl.
      split; [reflexivity |]. split; [reflexivity |].
      split; [intros i d Hd; discriminate Hd |].
      right. left. repeat split; try reflexivity; try lia. exists (step w). exact Hen.
Qed.

Lemma withRetry_run (g : G) (w : World) :
  exists evs : list Event,
    events (snd (withRetry env open live nilStream g w)) = events w ++ evs
    /\ retryRun ch (fun i => sidOf (Nat.iter i next g)) evs
         (handle (fst (fst (withRetry env open live nilStream g w))))
    /\ snd (fst (withRetry env open live nilStream g w))
       = Nat.iter (openCount evs) next g.
Proof.
  unfold withRetry.
  destruct (withRetryFrom_trace 99 1 g w)
    as (ds & last & opened & Hev & Hg & _ & Hcase).
  cbv zeta in Hev, Hg, Hcase.
  exists (failedAttempts ch (fun i => sidOf (Nat.iter i next g)) 1 ds ++ last).
  split; [exact Hev |].
  rewrite Hg, openCount_app, openCount_failedAttempts.
  destruct Hcase as [(-> & -> & Hlen & Hnil)
                    | [(-> & -> & Hlen & Hnil & _)
                      | (-> & -> & Hlen & (ans & Hans) & _)]].
  - split; [| reflexivity]. exists ds. left.
    rewrite app_nil_r, Hnil. split; [exact Hlen |]. split; [reflexivity |].
    exact nilStream_nil.
  - split; [| reflexivity]. exists ds. right. left.
    rewrite Hnil. split; [exact Hlen |]. split; [reflexivity |].
    exact nilStream_nil.
  - split; [| reflexivity]. exists ds. right. right.
    split; [exact Hlen |]. exists ans. split; [reflexivity | exact Hans].
Qed.

Lemma withRetry_sleeps (g : G) (w : World) :
  (forall k, unitInterval (randAt env k) = true) ->
  exists evs : list Event,
    events (snd (withRetry env open live nilStream g w)) = events w ++ evs
    /\ (forall n d, In (EvSleep n d) evs ->
          1 <= n <= 99
          /\ 1 * time.Second <= d <= backOffDurNs n
          /\ backOffDurNs n <= 60 * time.Second)
    /\ totalSleep evs <= maxTotalSleep.
Proof.
  intros Hrand. unfold withRetry.
  destruct (withRetryFrom_trace 99 1 g w)
    as (ds & last & opened & Hev & _ & Hds & Hcase).
  cbv zeta in Hev, Hcase.
  assert (Hlast : totalSleep last = 0 /\ forall n d, ~ In (EvSleep n d) last).
  { destruct Hcase as [(-> & _) | [(-> & _) | (-> & _)]]; (split; [reflexivity |]);
      intros n d Hin; simpl in Hin;
      repeat (destruct Hin as [Hf | Hin]; [discriminate Hf |]); exact Hin. }
  assert (Hlen : (length ds <= 99)%nat).
  { destruct Hcase as [(_ & _ & Hlen & _)
                      | [(_ & _ & Hlen & _) | (_ & _ & Hlen & _)]]; lia. }
  assert (Hbound : forall i d, ds !! i = Some d ->
             1000000000 <= d <= backOffDurNs (1 + Z.of_nat i)).
  { intros i d Hd. destruct (Hds i d Hd) as [k ->].
    unfold backOffJitter. rewrite backOffDur_exact by lia.
    apply jitter_of_value; [apply backOffDurNs_values; lia | apply Hrand]. }
  exists (failedAttempts ch (fun i => sidOf (Nat.iter i next g)) 1 ds ++ last).
  split; [exact Hev |]. split.
  - intros n d Hin. apply in_app_or in Hin.
    destruct Hin as [Hin | Hin]; [| destruct (proj2 Hlast n d Hin)].
    destruct (failedAttempts_In_sleep _ _ _ _ _ _ Hin) as (i & Hi & ->).
    pose proof (lookup_lt_Some _ _ _ Hi) as Hlt.
    pose proof (backOffDurNs_values (1 + Z.of_nat i) ltac:(lia)) as Hv.
    split; [lia |]. split; [apply (Hbound i d Hi) |].
    unfold time.Second. simpl In in Hv. lia.
  - rewrite totalSleep_app, (proj1 Hlast), Z.add_0_r.
    etransitivity; [apply totalSleep_failedAttempts |].
    + intros i d Hd. apply (Hbound i d Hd).
    + apply backOffDurNs_total. exact Hlen.
Qed.

Lemma withRetry_gives_up (g : G) (w : World) :
  (forall k, enableAt env k = true) ->
  (forall k, openAt env k = None) ->
  exists ds : list time.Duration,
    length ds = 99%nat
    /\ events (snd (withRetry env open live nilStream g w))
       = events w ++ failedAttempts ch (fun i => sidOf (Nat.iter i next g)) 1 ds
    /\ handle (fst (fst (withRetry env open live nilStream g w))) = None
    /\ snd (fst (withRetry env open live nilStream g w)) = Nat.iter 99 next g.
Proof.
  intros Hon Hrefused. unfold withRetry.
  destruct (withRetryFrom_trace 99 1 g w)
    as (ds & last & opened & Hev & Hg & _ & Hcase).
  cbv zeta in Hev, Hg, Hcase.
  destruct Hcase as [(-> & -> & Hlen & Hnil)
                    | [(_ & _ & _ & _ & k & Hoff)
                      | (_ & _ & _ & _ & k & Hacc)]].
  - exists ds. rewrite app_nil_r in Hev. rewrite Hnil.
    split; [exact Hlen |]. split; [exact Hev |].
    split; [exact nilStream_nil |].
    rewrite Hg, Hlen. reflexivity.
  - rewrite Hon in Hoff. discriminate Hoff.
  - rewrite Hrefused in Hacc. destruct Hacc as [ans Hans]. discriminate Hans.
Qed.

End RetryRuns.

Lemma openStream_spec {M : Type} (env : Env) (ch : Channel) (socketId : Z)
    (w : World) :
  exists stream,
    openStream (M := M) env ch socketId w
    = (stream, tick w (EvOpen ch (socketIdMetadata socketId)
                         (bool_decide (is_Some stream))))
    /\ bool_decide (is_Some stream) = bool_decide (is_Some (openAt env (step w)))
    /\ (bool_decide (is_Some stream) = true ->
        exists ans, stream = Some (grpc.fresh ans)).
Proof.
  unfold openStream. destruct (openAt env (step w)) as [ans |].
  - exists (Some (grpc.fresh ans)).
    split; [reflexivity |]. split; [reflexivity |]. intros _. eauto.
  - exists None. split; [reflexivity |]. split; [reflexivity |].
    intros Hf. discriminate Hf.
Qed.

Lemma newSpanStream_spec (env : Env) (g : spanGrpc) (w : World) :
  exists s,
    newSpanStream env g w
    = (s, g, tick w (EvOpen SpanChannel None (spanStream_live s)))
    /\ spanStream_live s = bool_decide (is_Some (openAt env (step w)))
    /\ (spanStream_live s = true ->
        exists ans, spanStream_stream s = Some (grpc.fresh ans)).
Proof.
  unfold newSpanStream.
  destruct (openStream_spec (M := PSpanMessage) env SpanChannel (-1) w)
    as (stream & -> & Hlive & Hfresh).
  exists (mkSpanStream stream). split; [reflexivity |]. split; assumption.
Qed.

Lemma newStatStream_spec (env : Env) (g : statGrpc) (w : World) :
  exists s,
    newStatStream env g w
    = (s, g, tick w (EvOpen StatChannel None (statStream_live s)))
    /\ statStream_live s = bool_decide (is_Some (openAt env (step w)))
    /\ (statStream_live s = true ->
        exists ans, statStream_stream s = Some (grpc.fresh ans)).
Proof.
  unfold newStatStream.
  destruct (openStream_spec (M := PStatMessage) env StatChannel (-1) w)
    as (stream & -> & Hlive & Hfresh).
  exists (mkStatStream stream). split; [reflexivity |]. split; assumption.
Qed.

Lemma newHandleCommandStream_spec (env : Env) (g : cmdGrpc) (w : World) :
  exists s,
    newHandleCommandStream env g w
    = (s, g, tick w (EvOpen CommandChannel None (cmdStream_live s)))
    /\ cmdStream_live s = bool_decide (is_Some (openAt env (step w)))
    /\ (cmdStream_live s = true ->
        exists ans, cmdStream_stream s = Some (grpc.fresh ans)).
Proof.
  unfold newHandleCommandStream.
  destruct (openStream_spec (M := PCmdMessage) env CommandChannel (-1) w)
    as (stream & -> & Hlive & Hfresh).
  exists (mkCmdStream stream). split; [reflexivity |]. split; assumption.
Qed.

Lemma newPingStream_spec (env : Env) (g : agentGrpc) (w : World) :
  exists s,
    newPingStream env g w
    = (s, nextPing g,
       tick w (EvOpen PingChannel
                 (socketIdMetadata (agentGrpc_pingSocketId (nextPing g)))
                 (pingStream_live s)))
    /\ pingStream_live s = bool_decide (is_Some (openAt env (step w)))
    /\ (pingStream_live s = true ->
        exists ans, pingStream_stream s = Some (grpc.fresh ans)).
Proof.
  unfold newPingStream. cbv zeta. fold (nextPing g).
  destruct (openStream_spec (M := PPing) env PingChannel
              (agentGrpc_pingSocketId (nextPing g)) w)
    as (stream & -> & Hlive & Hfresh).
  exists (mkPingStream stream). split; [reflexivity |]. split; assumption.
Qed.

Lemma nextPing_iter (k : nat) (g : agentGrpc) :
  0 <= agentGrpc_pingSocketId g ->
  agentGrpc_pingSocketId g + Z.of_nat k <= GoInt.maxInt64 ->
  Nat.iter k nextPing g
  = {| agentGrpc_pingSocketId := agentGrpc_pingSocketId g + Z.of_nat k;
       agentGrpc_agent := agentGrpc_agent g |}.
Proof.
  intros H0. induction k as [| k IH]; intros Hmax.
  - simpl. rewrite Z.add_0_r. destruct g; reflexivity.
  - simpl Nat.iter. rewrite IH by lia. unfold nextPing. simpl.
    unfold GoInt.incr64. rewrite int64_small by (unfold GoInt.minInt64; lia).
    f_equal. lia.
Qed.

(** X1.  A run of the span, stat or command retry loop adds to the
    events some failed iterations, numbered from 1 and each made of a
    poll of the enabled flag that read true, a refused open without
    socket id and a back-off sleep with the number of the iteration;
    then it ends in one of three ways: after the sleep of the 99th
    failed iteration, with a nil handle; on a poll that read false, with
    a nil handle; or on an open that the collector accepted, with no
    sleep after it and a handle on a stream on which nothing was sent
    yet. *)
Theorem retry_loop_runs (env : Env) (w : World) :
  (forall g, exists evs,
      events (snd (newSpanStreamWithRetry env g w)) = events w ++ evs
      /\ retryRun SpanChannel (fun _ => None) evs
           (spanStream_stream (fst (fst (newSpanStreamWithRetry env g w)))))
  /\ (forall g, exists evs,
      events (snd (newStatStreamWithRetry env g w)) = events w ++ evs
      /\ retryRun StatChannel (fun _ => None) evs
           (statStream_stream (fst (fst (newStatStreamWithRetry env g w)))))
  /\ (forall g, exists evs,
      events (snd (newCommandStreamWithRetry env g w)) = events w ++ evs
      /\ retryRun CommandChannel (fun _ => None) evs
           (cmdStream_stream (fst (fst (newCommandStreamWithRetry env g w))))).
Proof.
  split; [| split]; intros g.
  - destruct (withRetry_run env (newSpanStream env) spanStream_live
                (mkSpanStream None) spanStream_stream SpanChannel
                (fun _ => None) (fun g => g)
                (newSpanStream_spec env) eq_refl g w) as (evs & Hev & Hrun & _).
    exists evs. split; [exact Hev | exact Hrun].
  - destruct (withRetry_run env (newStatStream env) statStream_live
                (mkStatStream None) statStream_stream StatChannel
                (fun _ => None) (fun g => g)
                (newStatStream_spec env) eq_refl g w) as (evs & Hev & Hrun & _).
    exists evs. split; [exact Hev | exact Hrun].
  - destruct (withRetry_run env (newHandleCommandStream env) cmdStream_live
                (mkCmdStream None) cmdStream_stream CommandChannel
                (fun _ => None) (fun g => g)
                (newHandleCommandStream_spec env) eq_refl g w)
      as (evs & Hev & Hrun & _).
    exists evs. split; [exact Hev | exact Hrun].
Qed.

(** X2.  When the agent stays enabled and the collector refuses every
    stream, the span, stat and command retry loops give up after
    exactly 99 attempts: the run consists of 99 failed iterations, the
    last of which still sleeps before the loop returns, and the handle
    returned is nil. *)
Theorem retry_loops_give_up (env : Env) (w : World) :
  (forall k, enableAt env k = true) ->
  (forall k, openAt env k = None) ->
  (forall g, exists ds,
      length ds = 99%nat
      /\ events (snd (newSpanStreamWithRetry env g w))
         = events w ++ failedAttempts SpanChannel (fun _ => None) 1 ds
      /\ spanStream_stream (fst (fst (newSpanStreamWithRetry env g w))) = None)
  /\ (forall g, exists ds,
      length ds = 99%nat
      /\ events (snd (newStatStreamWithRetry env g w))
         = events w ++ failedAttempts StatChannel (fun _ => None) 1 ds
      /\ statStream_stream (fst (fst (newStatStreamWithRetry env g w))) = None)
  /\ (forall g, exists ds,
      length ds = 99%nat
      /\ events (snd (newCommandStreamWithRetry env g w))
         = events w ++ failedAttempts CommandChannel (fun _ => None) 1 ds
      /\ cmdStream_stream (fst (fst (newCommandStreamWithRetry env g w))) = None).
Proof.
  intros Hon Hrefused. split; [| split]; intros g.
  - destruct (withRetry_gives_up env (newSpanStream env) spanStream_live
                (mkSpanStream None) spanStream_stream SpanChannel
                (fun _ => None) (fun g => g)
                (newSpanStream_spec env) eq_refl g w Hon Hrefused)
      as (ds & Hlen & Hev & Hnil & _).
    exists ds. split; [exact Hlen |]. split; [exact Hev | exact Hnil].
  - destruct (withRetry_gives_up env (newStatStream env) statStream_live
                (mkStatStream None) statStream_stream StatChannel
                (fun _ => None) (fun g => g)
                (newStatStream_spec env) eq_refl g w Hon Hrefused)
      as (ds & Hlen & Hev & Hnil & _).
    exists ds. split; [exact Hlen |]. split; [exact Hev | exact Hnil].
  - destruct (withRetry_gives_up env (newHandleCommandStream env) cmdStream_live
                (mkCmdStream None) cmdStream_stream CommandChannel
                (fun _ => None) (fun g => g)
                (newHandleCommandStream_spec env) eq_refl g w Hon Hrefused)
      as (ds & Hlen & Hev & Hnil & _).
    exists ds. split; [exact Hlen |]. split; [exact Hev | exact Hnil].
Qed.

Lemma retry_loops_give_up_example :
  ((forall k, enableAt refusingEnv k = true)
   /\ (forall k, openAt refusingEnv k = None))
  /\ exists ds,
       length ds = 99%nat
       /\ events (snd (newSpanStreamWithRetry refusingEnv sampleSpanGrpc startWorld))
          = events startWorld ++ failedAttempts SpanChannel (fun _ => None) 1 ds
       /\ spanStream_stream
            (fst (fst (newSpanStreamWithRetry refusingEnv sampleSpanGrpc startWorld)))
          = None.
Proof.
  split; [split; intros k; reflexivity |].
  destruct (retry_loops_give_up refusingEnv startWorld
              (fun _ => eq_refl) (fun _ => eq_refl)) as [Hspan _].
  exact (Hspan sampleSpanGrpc).
Defined.

(** X3.  Whatever numbers of the unit interval [rand.Float64()] draws,
    every sleep of a run of any of the four retry loops belongs to an
    attempt numbered from 1 to 99 and lasts at least one second and at
    most the delay of its attempt before the jitter, which is at most 60
    seconds; and a whole run sleeps for at most 5702 seconds. *)
Theorem retry_loop_sleeps_bounded (env : Env) (w : World) :
  (forall k, unitInterval (randAt env k) = true) ->
  let bounded (evs : list Event) :=
    (forall n d, In (EvSleep n d) evs ->
       1 <= n <= 99
       /\ 1 * time.Second <= d <= backOffDurNs n
       /\ backOffDurNs n <= 60 * time.Second)
    /\ totalSleep evs <= maxTotalSleep in
  (forall g, exists evs,
      events (snd (newPingStreamWithRetry env g w)) = events w ++ evs
      /\ bounded evs)
  /\ (forall g, exists evs,
      events (snd (newSpanStreamWithRetry env g w)) = events w ++ evs
      /\ bounded evs)
  /\ (forall g, exists evs,
      events (snd (newStatStreamWithRetry env g w)) = events w ++ evs
      /\ bounded evs)
  /\ (forall g, exists evs,
      events (snd (newCommandStreamWithRetry env g w)) = events w ++ evs
      /\ bounded evs).
Proof.
  intros Hrand. cbv zeta. split; [| split; [| split]]; intros g.
  - exact (withRetry_sleeps env (newPingStream env) pingStream_live
             (mkPingStream None) pingStream_stream PingChannel _ nextPing
             (newPingStream_spec env) g w Hrand).
  - exact (withRetry_sleeps env (newSpanStream env) spanStream_live
             (mkSpanStream None) spanStream_stream SpanChannel
             (fun _ => None) (fun g => g) (newSpanStream_spec env) g w Hrand).
  - exact (withRetry_sleeps env (newStatStream env) statStream_live
             (mkStatStream None) statStream_stream StatChannel
             (fun _ => None) (fun g => g) (newStatStream_spec env) g w Hrand).
  - exact (withRetry_sleeps env (newHandleCommandStream env) cmdStream_live
             (mkCmdStream None) cmdStream_stream CommandChannel
             (fun _ => None) (fun g => g) (newHandleCommandStream_spec env) g w Hrand).
Qed.

Lemma retry_loop_sleeps_bounded_example :
  (forall k, unitInterval (randAt refusingEnv k) = true)
  /\ exists evs,
       events (snd (newStatStreamWithRetry refusingEnv sampleStatGrpc startWorld))
       = events startWorld ++ evs
       /\ ((forall n d, In (EvSleep n d) evs ->
              1 <= n <= 99
              /\ 1 * time.Second <= d <= backOffDurNs n
              /\ backOffDurNs n <= 60 * time.Second)
           /\ totalSleep evs <= maxTotalSleep).
Proof.
  split; [intros k; reflexivity |].
  destruct (retry_loop_sleeps_bounded refusingEnv startWorld (fun _ => eq_refl))
    as (_ & _ & Hstat & _).
  exact (Hstat sampleStatGrpc).
Defined.

(** X4.  The ping retry loop advances the socket id of the agent
    connection once per attempt, before the attempt and whether or not
    the stream is accepted: starting from the socket id [id] (not
    negative, and at least 99 below the largest int64), the [i]-th
    attempt of a run opens with the socket id [id + i] in its metadata,
    so that no two attempts share one, and the connection is left with
    [id] plus the number of attempts made. *)
Theorem ping_socket_ids (env : Env) (g : agentGrpc) (w : World) :
  0 <= agentGrpc_pingSocketId g ->
  agentGrpc_pingSocketId g + 99 <= GoInt.maxInt64 ->
  exists evs,
    events (snd (newPingStreamWithRetry env g w)) = events w ++ evs
    /\ retryRun PingChannel
         (fun i => Some (agentGrpc_pingSocketId g + 1 + Z.of_nat i)) evs
         (pingStream_stream (fst (fst (newPingStreamWithRetry env g w))))
    /\ agentGrpc_pingSocketId (snd (fst (newPingStreamWithRetry env g w)))
       = agentGrpc_pingSocketId g + Z.of_nat (openCount evs)
    /\ agentGrpc_agent (snd (fst (newPingStreamWithRetry env g w)))
       = agentGrpc_agent g.
Proof.
  intros H0 Hmax.
  destruct (withRetry_run env (newPingStream env) pingStream_live
              (mkPingStream None) pingStream_stream PingChannel
              (fun g => socketIdMetadata (agentGrpc_pingSocketId (nextPing g)))
              nextPing (newPingStream_spec env) eq_refl g w)
    as (evs & Hev & Hrun & Hg).
  fold (newPingStreamWithRetry env g w) in Hev, Hrun, Hg.
  exists evs. split; [exact Hev |].
  assert (Hrun' : retryRun PingChannel
                    (fun i => Some (agentGrpc_pingSocketId g + 1 + Z.of_nat i)) evs
                    (pingStream_stream (fst (fst (newPingStreamWithRetry env g w))))).
  { revert Hrun. apply retryRun_ext. intros i Hi.
    change (nextPing (Nat.iter i nextPing g)) with (Nat.iter (S i) nextPing g).
    rewrite nextPing_iter by lia. simpl agentGrpc_pingSocketId.
    unfold socketIdMetadata.
    destruct (Z.ltb_spec 0 (agentGrpc_pingSocketId g + Z.of_nat (S i))); [| lia].
    f_equal. lia. }
  split; [exact Hrun' |].
  pose proof (retryRun_openCount _ _ _ _ Hrun') as Hcount.
  rewrite Hg, nextPing_iter by lia. split; reflexivity.
Qed.

Lemma ping_socket_ids_example :
  (0 <= agentGrpc_pingSocketId sampleAgentGrpc
   /\ agentGrpc_pingSocketId sampleAgentGrpc + 99 <= GoInt.maxInt64)
  /\ exists evs,
       events (snd (newPingStreamWithRetry refusingEnv sampleAgentGrpc startWorld))
       = events startWorld ++ evs
       /\ retryRun PingChannel
            (fun i => Some (agentGrpc_pingSocketId sampleAgentGrpc + 1 + Z.of_nat i))
            evs
            (pingStream_stream
               (fst (fst (newPingStreamWithRetry refusingEnv sampleAgentGrpc startWorld))))
       /\ agentGrpc_pingSocketId
            (snd (fst (newPingStreamWithRetry refusingEnv sampleAgentGrpc startWorld)))
          = agentGrpc_pingSocketId sampleAgentGrpc + Z.of_nat (openCount evs)
       /\ agentGrpc_agent
            (snd (fst (newPingStreamWithRetry refusingEnv sampleAgentGrpc startWorld)))
          = agentGrpc_agent sampleAgentGrpc.
Proof.
  assert (H0 : 0 <= agentGrpc_pingSocketId sampleAgentGrpc) by (simpl; lia).
  assert (Hmax : agentGrpc_pingSocketId sampleAgentGrpc + 99 <= GoInt.maxInt64)
    by (vm_compute; intros Hf; discriminate Hf).
  split; [split; assumption |].
  apply (ping_socket_ids refusingEnv sampleAgentGrpc startWorld H0 Hmax).
Defined.

(** ** Closed channels *)

(** X5.  Using a channel after [close] is safe for the three sending
    functions that check the handle: after [close] the handle is nil, a
    second [close] changes nothing, and [sendPing], [sendSpan] and
    [sendStats] return the Unavailable error without touching the
    wrapper or the span. *)
Theorem send_after_close_is_unavailable `{Extern} :
  (forall s : pingStream,
     pingStream_stream (pingStream_close s) = None
     /\ pingStream_close (pingStream_close s) = pingStream_close s
     /\ isUnavailable (fst (pingStream_sendPing (pingStream_close s))) = true
     /\ snd (pingStream_sendPing (pingStream_close s)) = pingStream_close s)
  /\ (forall (s : spanStream) (sp : span.t),
     spanStream_stream (spanStream_close s) = None
     /\ spanStream_close (spanStream_close s) = spanStream_close s
     /\ isUnavailable (fst (fst (spanStream_sendSpan (spanStream_close s) sp))) = true
     /\ spanStream_sendSpan (spanStream_close s) sp
        = (fst (fst (spanStream_sendSpan (spanStream_close s) sp)),
           spanStream_close s, sp))
  /\ (forall (s : statStream) (stats : list inspectorStats.t),
     statStream_stream (statStream_close s) = None
     /\ statStream_close (statStream_close s) = statStream_close s
     /\ isUnavailable (fst (statStream_sendStats (statStream_close s) stats)) = true
     /\ snd (statStream_sendStats (statStream_close s) stats) = statStream_close s)
  /\ (forall s : cmdStream,
     cmdStream_stream (cmdStream_close s) = None
     /\ cmdStream_close (cmdStream_close s) = cmdStream_close s).
Proof.
  split; [| split; [| split]].
  - intros [[stream |]]; repeat split; reflexivity.
  - intros [[stream |]] sp; repeat split; reflexivity.
  - intros [[stream |]] stats; repeat split; reflexivity.
  - intros [[stream |]]; repeat split; reflexivity.
Qed.

(** X6.  [sendSpanFinish] does not check the handle: it panics exactly
    when the handle is nil, hence on every span stream that was closed;
    on a live stream it half-closes the stream and leaves the messages
    sent as they are. *)
Theorem sendSpanFinish_panics_on_nil_handle :
  (forall s, spanStream_sendSpanFinish s = None <-> spanStream_stream s = None)
  /\ (forall s, spanStream_sendSpanFinish (spanStream_close s) = None)
  /\ (forall s stream,
        spanStream_stream s = Some stream ->
        exists stream',
          spanStream_sendSpanFinish s = Some (mkSpanStream (Some stream'))
          /\ grpc.halfClosed stream' = true
          /\ grpc.sent stream' = grpc.sent stream
          /\ grpc.answers stream' = grpc.answers stream).
Proof.
  split; [| split].
  - intros [[stream |]]; simpl; split; intros Hf; (discriminate Hf || reflexivity).
  - intros [[stream |]]; reflexivity.
  - intros s stream Hs. unfold spanStream_sendSpanFinish. rewrite Hs.
    eexists. split; [reflexivity |]. repeat split.
Qed.

Lemma sendSpanFinish_example :
  spanStream_stream liveSpanStream = Some (grpc.fresh noError)
  /\ spanStream_sendSpanFinish (spanStream_close liveSpanStream) = None
  /\ exists stream',
       spanStream_sendSpanFinish liveSpanStream = Some (mkSpanStream (Some stream'))
       /\ grpc.halfClosed stream' = true
       /\ grpc.sent stream' = grpc.sent (grpc.fresh (M := PSpanMessage) noError)
       /\ grpc.answers stream'
          = grpc.answers (grpc.fresh (M := PSpanMessage) noError).
Proof.
  destruct sendSpanFinish_panics_on_nil_handle as (_ & Hclosed & Hlive).
  split; [reflexivity |]. split; [apply Hclosed |].
  apply (Hlive liveSpanStream (grpc.fresh noError)). reflexivity.
Defined.

(** ** The span events of a message *)

Section WireEvents.
Context `{Extern}.

Lemma makePSpanEvent_key (e : spanEvent.t) :
  wireEventKey (fst (makePSpanEvent e)) = eventKey e.
Proof.
  unfold makePSpanEvent.
  destruct ((spanEvent.apiId e =? 0)
            && negb (String.eqb (spanEvent.operationName e) "")); reflexivity.
Qed.

Lemma makePSpan_events (sp : span.t) :
  wireSpanEvents (fst (makePSpan sp))
  = map (fun e => fst (makePSpanEvent e)) (span.spanEvents sp).
Proof. unfold makePSpan. rewrite encodeSpanEvents_spec. reflexivity. Qed.

Lemma makePSpanChunk_events (sp : span.t) :
  wireSpanEvents (fst (makePSpanChunk sp))
  = map (fun e => fst (makePSpanEvent e)) (span.spanEvents sp).
Proof. unfold makePSpanChunk. rewrite encodeSpanEvents_spec. reflexivity. Qed.

(** X7.  A span message carries one wire event per span event, in the
    order of the span's list, each with the sequence number, depth,
    service type, API id and async id of its span event; the root-span
    message and the chunk message of a span carry the same wire events,
    and the two encoders leave the same span events behind. *)
Theorem wire_span_events_in_order (sp : span.t) :
  map wireEventKey (wireSpanEvents (fst (makePSpan sp)))
  = map eventKey (span.spanEvents sp)
  /\ map wireEventKey (wireSpanEvents (fst (makePSpanChunk sp)))
     = map eventKey (span.spanEvents sp)
  /\ length (wireSpanEvents (fst (makePSpan sp))) = length (span.spanEvents sp)
  /\ wireSpanEvents (fst (makePSpanChunk sp)) = wireSpanEvents (fst (makePSpan sp))
  /\ span.spanEvents (snd (makePSpanChunk sp)) = span.spanEvents (snd (makePSpan sp)).
Proof.
  rewrite makePSpan_events, makePSpanChunk_events, makePSpan_leaves,
    makePSpanChunk_leaves.
  rewrite !map_map, length_map.
  assert (Hkey : map (fun e => wireEventKey (fst (makePSpanEvent e)))
                     (span.spanEvents sp)
                 = map eventKey (span.spanEvents sp)).
  { apply map_ext. intros e. apply makePSpanEvent_key. }
  repeat split; try exact Hkey; reflexivity.
Qed.

Lemma makePSpanEvent_twice (e : spanEvent.t) :
  PSpanEvent_Annotation (fst (makePSpanEvent (snd (makePSpanEvent e))))
  = annotation.alist (spanEvent.annotations e) ++ eventAppendix e ++ eventAppendix e.
Proof.
  unfold makePSpanEvent, eventAppendix.
  destruct ((spanEvent.apiId e =? 0)
            && negb (String.eqb (spanEvent.operationName e) "")) eqn:Hc; simpl.
  - rewrite Hc. simpl. rewrite <- app_assoc. reflexivity.
  - rewrite Hc. simpl. rewrite app_nil_r. reflexivity.
Qed.

(** X8.  Encoding is not idempotent.  A root span that is encoded a
    second time (as [sendSpan] does when the same span is sent again)
    carries the operation-name annotation twice, and so does each of its
    span events that has no API id and a non-empty operation name; the
    second message differs from the first.  ([AppendString] appends at
    the end of the list, as for the statement on what encoding
    changes.) *)
Theorem encoding_twice_duplicates_annotations (sp : span.t) :
  wireAnnotations (fst (makePSpan (snd (makePSpan sp))))
  = annotation.alist (span.annotations sp)
    ++ [operationNameAnnotation (span.operationName sp);
        operationNameAnnotation (span.operationName sp)]
  /\ map PSpanEvent_Annotation (wireSpanEvents (fst (makePSpan (snd (makePSpan sp)))))
     = map (fun e => annotation.alist (spanEvent.annotations e)
                     ++ eventAppendix e ++ eventAppendix e)
           (span.spanEvents sp)
  /\ wireAnnotations (fst (makePSpan (snd (makePSpan sp))))
     <> wireAnnotations (fst (makePSpan sp)).
Proof.
  assert (Hann : wireAnnotations (fst (makePSpan (snd (makePSpan sp))))
                 = annotation.alist (span.annotations sp)
                   ++ [operationNameAnnotation (span.operationName sp);
                       operationNameAnnotation (span.operationName sp)]).
  { rewrite makePSpan_leaves. unfold makePSpan. rewrite encodeSpanEvents_spec.
    simpl. rewrite <- app_assoc. reflexivity. }
  split; [exact Hann |]. split.
  - rewrite makePSpan_events, makePSpan_leaves. simpl span.spanEvents.
    rewrite !map_map. apply map_ext. intros e. apply makePSpanEvent_twice.
  - rewrite Hann. unfold makePSpan at 1. rewrite encodeSpanEvents_spec. simpl.
    intros Heq. apply (f_equal (@length _)) in Heq.
    rewrite !length_app in Heq. simpl in Heq. lia.
Qed.

End WireEvents.

(** ** The thread dumps and their limit *)

Section DumpBounds.
Context `{Extern}.

Lemma matched_spec (dump : GoroutineDump) (threadName : list string) :
  (length (matched dump threadName) <= length threadName)%nat
  /\ forall g, In g (matched dump threadName) ->
       exists tn, In tn threadName /\ Search dump tn = Some g.
Proof.
  unfold matched. induction threadName as [| tn rest [IHlen IHin]]; cbn.
  - split; [lia | intros g []].
  - destruct (Search dump tn) as [g0 |] eqn:Hs; cbn.
    + split; [lia |]. intros g [<- | Hin].
      * exists tn. split; [left; reflexivity | exact Hs].
      * destruct (IHin g Hin) as (tn' & Hin' & Hs').
        exists tn'. split; [right; exact Hin' | exact Hs'].
    + split; [lia |]. intros g Hin.
      destruct (IHin g Hin) as (tn' & Hin' & Hs').
      exists tn'. split; [right; exact Hin' | exact Hs'].
Qed.

Lemma dumped_In {A : Type} (mk : time.Time -> Goroutine -> A)
    (clock : Z -> time.Time) (limit : Z) (src : list Goroutine) (a : A) :
  In a (dumped mk clock limit src) ->
  exists i g, In g src /\ a = mk (clock (Z.of_nat i)) g.
Proof.
  unfold dumped. intros Hin. apply list_elem_of_In in Hin.
  apply elem_of_lookup_imap_1 in Hin. destruct Hin as (i & g & -> & Hg).
  exists i, g. split; [| reflexivity].
  apply lookup_take_Some in Hg. destruct Hg as [Hg _].
  apply list_elem_of_In. eapply list_elem_of_lookup_2. exact Hg.
Qed.

Lemma dumped_prefix {A : Type} (mk : time.Time -> Goroutine -> A)
    (clock : Z -> time.Time) (a b : Z) (src : list Goroutine) :
  a <= b -> dumped mk clock a src `prefix_of` dumped mk clock b src.
Proof.
  intros Hab. unfold dumped.
  assert (Hn : (Z.to_nat a <= Z.to_nat b)%nat) by lia.
  rewrite <- (take_drop (Z.to_nat a) (take (Z.to_nat b) src)).
  rewrite take_take, Nat.min_l by exact Hn.
  rewrite imap_app. eexists. reflexivity.
Qed.

Lemma dumped_all {A : Type} (mk : time.Time -> Goroutine -> A)
    (clock : Z -> time.Time) (limit : Z) (src : list Goroutine) :
  Z.of_nat (length src) <= limit ->
  dumped mk clock limit src = dumped mk clock (Z.of_nat (length src)) src.
Proof.
  intros Hl. unfold dumped. rewrite !take_ge by lia. reflexivity.
Qed.

Lemma makePActiveThreadDumpList_dumped (clock : Z -> time.Time)
    (dump : GoroutineDump) (limit : Z) (threadName : list string)
    (localId : list Z) :
  makePActiveThreadDumpList clock dump limit threadName localId
  = dumped makePActiveThreadDump clock (effectiveLimit dump limit)
           (matched dump threadName).
Proof.
  unfold makePActiveThreadDumpList, effectiveLimit.
  rewrite selectThreads_spec. simpl.
  replace (limit <? 1) with (limit <=? 0)
    by (destruct (Z.ltb_spec limit 1), (Z.leb_spec limit 0); lia).
  apply dumpLoop_dumped.
Qed.

Lemma makePActiveThreadLightDumpList_dumped (clock : Z -> time.Time)
    (dump : GoroutineDump) (limit : Z) :
  makePActiveThreadLightDumpList clock dump limit
  = dumped makePActiveThreadLightDump clock (effectiveLimit dump limit)
           (GoroutineDump_goroutines dump).
Proof.
  unfold makePActiveThreadLightDumpList, effectiveLimit.
  replace (limit <? 1) with (limit <=? 0)
    by (destruct (Z.ltb_spec limit 1), (Z.leb_spec limit 0); lia).
  apply dumpLoop_dumped.
Qed.

(** X9.  The full thread dump lists only threads that the filter names:
    it is never longer than the filter list, each of its entries
    describes (name, id, state and stack trace) a goroutine that
    [Search] returned for a name of the filter list, an empty filter
    list gives an empty dump whatever the limit, a name that is listed
    twice is dumped twice, and the list of local trace ids has no
    influence. *)
Theorem full_dump_within_filter (clock : Z -> time.Time) (dump : GoroutineDump)
    (limit : Z) (threadName : list string) (localId : list Z) :
  (length (makePActiveThreadDumpList clock dump limit threadName localId)
   <= length threadName)%nat
  /\ (forall d,
        In d (makePActiveThreadDumpList clock dump limit threadName localId) ->
        exists tn g,
          In tn threadName /\ Search dump tn = Some g
          /\ PActiveThreadDump_ThreadDump d
             = {| PThreadDump_ThreadName := Goroutine_header g;
                  PThreadDump_ThreadId := GoInt.int64 (Goroutine_id g);
                  PThreadDump_ThreadState := goRoutineState g;
                  PThreadDump_StackTrace := [Goroutine_trace g] |})
  /\ makePActiveThreadDumpList clock dump limit [] localId = []
  /\ (forall tn g,
        Search dump tn = Some g ->
        map PActiveThreadDump_ThreadDump
            (makePActiveThreadDumpList clock dump 2 [tn; tn] localId)
        = map PActiveThreadDump_ThreadDump
              [makePActiveThreadDump 0 g; makePActiveThreadDump 0 g])
  /\ (forall localId',
        makePActiveThreadDumpList clock dump limit threadName localId'
        = makePActiveThreadDumpList clock dump limit threadName localId).
Proof.
  destruct (matched_spec dump threadName) as [Hlen Hin].
  split; [| split; [| split; [| split]]].
  - rewrite makePActiveThreadDumpList_dumped. unfold dumped.
    rewrite length_imap, length_take. lia.
  - intros d Hd. rewrite makePActiveThreadDumpList_dumped in Hd.
    destruct (dumped_In _ _ _ _ _ Hd) as (i & g & Hg & ->).
    destruct (Hin g Hg) as (tn & Htn & Hs).
    exists tn, g. split; [exact Htn |]. split; [exact Hs | reflexivity].
  - rewrite makePActiveThreadDumpList_dumped. unfold dumped, matched. cbn.
    rewrite take_nil. reflexivity.
  - intros tn g Hs. rewrite makePActiveThreadDumpList_dumped.
    unfold matched. simpl. rewrite Hs. reflexivity.
  - intros localId'. reflexivity.
Qed.

(** X10.  The limit only cuts the dump short: raising a limit of at
    least 1 extends both dump lists at their end; every light dump is a
    prefix of the light dump for the limit 0, which lists the whole
    snapshot, and equals it from the size of the snapshot on; for the
    full dump a limit of 0 or less is the limit "size of the snapshot",
    whatever the number of threads selected. *)
Theorem dump_limit_cuts_a_prefix (clock : Z -> time.Time) (dump : GoroutineDump)
    (threadName : list string) (localId : list Z) :
  (forall a b,
     1 <= a <= b ->
     makePActiveThreadDumpList clock dump a threadName localId
     `prefix_of` makePActiveThreadDumpList clock dump b threadName localId
     /\ makePActiveThreadLightDumpList clock dump a
        `prefix_of` makePActiveThreadLightDumpList clock dump b)
  /\ (forall limit,
        makePActiveThreadLightDumpList clock dump limit
        `prefix_of` makePActiveThreadLightDumpList clock dump 0
        /\ (Z.of_nat (length (GoroutineDump_goroutines dump)) <= limit ->
            makePActiveThreadLightDumpList clock dump limit
            = makePActiveThreadLightDumpList clock dump 0))
  /\ (forall limit,
        limit <= 0 ->
        makePActiveThreadDumpList clock dump limit threadName localId
        = dumped makePActiveThreadDump clock
            (Z.of_nat (length (GoroutineDump_goroutines dump)))
            (matched dump threadName)).
Proof.
  assert (Heff0 : effectiveLimit dump 0
                  = Z.of_nat (length (GoroutineDump_goroutines dump)))
    by reflexivity.
  assert (Heff : forall a, 1 <= a -> effectiveLimit dump a = a).
  { intros a Ha. unfold effectiveLimit. destruct (Z.leb_spec a 0); [lia | reflexivity]. }
  assert (Hneg : forall a, a <= 0 ->
             effectiveLimit dump a
             = Z.of_nat (length (GoroutineDump_goroutines dump))).
  { intros a Ha. unfold effectiveLimit. destruct (Z.leb_spec a 0); [reflexivity | lia]. }
  split; [| split].
  - intros a b Hab.
    rewrite !makePActiveThreadDumpList_dumped, !makePActiveThreadLightDumpList_dumped.
    rewrite !Heff by lia. split; apply dumped_prefix; lia.
  - intros limit. rewrite !makePActiveThreadLightDumpList_dumped, Heff0.
    destruct (Z_le_gt_dec limit 0) as [Hle | Hgt].
    + rewrite Hneg by exact Hle. split; [reflexivity |]. intros _. reflexivity.
    + rewrite Heff by lia. split.
      * destruct (Z_le_gt_dec limit
                    (Z.of_nat (length (GoroutineDump_goroutines dump)))) as [Hl | Hl].
        -- apply dumped_prefix. exact Hl.
        -- rewrite dumped_all by lia. reflexivity.
      * intros Hl. apply dumped_all. exact Hl.
  - intros limit Hle. rewrite makePActiveThreadDumpList_dumped, Hneg by exact Hle.
    reflexivity.
Qed.

End DumpBounds.

Lemma full_dump_within_filter_example :
  @Search sampleExtern sampleDump "worker" = Some workerGoroutine
  /\ map PActiveThreadDump_ThreadDump
         (@makePActiveThreadDumpList sampleExtern (fun _ => 0) sampleDump 2
            ["worker"; "worker"]%string [])
     = map PActiveThreadDump_ThreadDump
         [@makePActiveThreadDump sampleExtern 0 workerGoroutine;
          @makePActiveThreadDump sampleExtern 0 workerGoroutine].
Proof.
  assert (Hs : @Search sampleExtern sampleDump "worker" = Some workerGoroutine)
    by reflexivity.
  split; [exact Hs |].
  destruct (@full_dump_within_filter sampleExtern (fun _ => 0) sampleDump 2
              ["worker"; "worker"]%string []) as (_ & _ & _ & Htwice & _).
  exact (Htwice "worker"%string _ Hs).
Defined.

Lemma dump_limit_example :
  1 <= 1 <= 2
  /\ @makePActiveThreadLightDumpList sampleExtern (fun _ => 0) sampleDump 1
     `prefix_of` @makePActiveThreadLightDumpList sampleExtern (fun _ => 0) sampleDump 2.
Proof.
  destruct (@dump_limit_cuts_a_prefix sampleExtern (fun _ => 0) sampleDump [] [])
    as (Hmono & _).
  split; [lia |]. apply (Hmono 1 2). lia.
Defined.

(** With a filter list that names a thread more often than the snapshot
    has threads, the full dump for the limit 0 is shorter than the one
    for a large limit. *)
Example full_dump_limit_zero_is_snapshot_size :
  let dump := {| GoroutineDump_goroutines :=
                   take 1 (GoroutineDump_goroutines sampleDump) |} in
  length (@makePActiveThreadDumpList sampleExtern (fun _ => 0) dump 0
            ["main"; "main"]%string []) = 1%nat
  /\ length (@makePActiveThreadDumpList sampleExtern (fun _ => 0) dump 5
               ["main"; "main"]%string []) = 2%nat.
Proof. split; reflexivity. Qed.

(** ** Transaction ids and stream metadata *)

Lemma FormatInt_inj (a b : Z) : strconv.FormatInt a = strconv.FormatInt b -> a = b.
Proof.
  unfold strconv.FormatInt. intros Heq.
  assert (Hok : forall z, Z.to_int z <> Decimal.Pos Decimal.Nil
                          /\ Z.to_int z <> Decimal.Neg Decimal.Nil).
  { intros [| p | p]; simpl; split; intros Hf; try discriminate Hf;
      injection Hf as Hf; exact (Unsigned.to_uint_nonnil p Hf). }
  apply (f_equal NilZero.int_of_string) in Heq.
  rewrite !NilZero.isi in Heq by apply Hok.
  injection Heq as Heq. apply to_int_inj. exact Heq.
Qed.

Lemma string_of_uint_noCaret (d : Decimal.uint) :
  noCaret (NilEmpty.string_of_uint d) = true.
Proof. induction d; simpl; try rewrite IHd; reflexivity. Qed.

Lemma FormatInt_noCaret (i : Z) : noCaret (strconv.FormatInt i) = true.
Proof.
  unfold strconv.FormatInt, NilZero.string_of_int, NilZero.string_of_uint.
  destruct (Z.to_int i) as [d | d]; destruct d; simpl;
    try rewrite string_of_uint_noCaret; reflexivity.
Qed.

Lemma noCaret_append_caret (x t : string) :
  noCaret (x ++ String "^" t)%string = false.
Proof.
  induction x as [| c x IH]; simpl; [reflexivity |].
  rewrite IH. apply andb_false_r.
Qed.

(** A string is split at its last [^] in one way only. *)
Lemma split_at_last_caret (x1 x2 t1 t2 : string) :
  noCaret t1 = true -> noCaret t2 = true ->
  (x1 ++ String "^" t1)%string = (x2 ++ String "^" t2)%string ->
  x1 = x2 /\ t1 = t2.
Proof.
  intros H1 H2. revert x2.
  induction x1 as [| c1 x1 IH]; intros [| c2 x2] Heq; simpl in Heq.
  - injection Heq as ->. split; reflexivity.
  - injection Heq as _ ->. rewrite noCaret_append_caret in H1. discriminate H1.
  - injection Heq as _ <-. rewrite noCaret_append_caret in H2. discriminate H2.
  - injection Heq as -> Heq. destruct (IH x2 Heq) as [-> ->]. split; reflexivity.
Qed.

Lemma string_append_assoc (a b c : string) :
  ((a ++ b) ++ c)%string = (a ++ (b ++ c))%string.
Proof.
  induction a as [| x a IH]; [reflexivity |].
  change (String x ((a ++ b) ++ c) = String x (a ++ (b ++ c)))%string.
  rewrite IH. reflexivity.
Qed.

(** X11.  The string form of a transaction id identifies it: two
    transaction ids with the same string are equal, whatever characters
    the agent id holds (the separator included), since the two numbers
    are printed in decimal and the string is split at its last two
    separators. *)
Theorem TransactionId_String_inj (t1 t2 : TransactionId) :
  TransactionId_String t1 = TransactionId_String t2 -> t1 = t2.
Proof.
  destruct t1 as [a1 s1 q1], t2 as [a2 s2 q2]. unfold TransactionId_String. simpl.
  intros Heq.
  change (a1 ++ "^" ++ strconv.FormatInt s1 ++ "^" ++ strconv.FormatInt q1)%string
    with (a1 ++ String "^" (strconv.FormatInt s1
                            ++ String "^" (strconv.FormatInt q1)))%string in Heq.
  change (a2 ++ "^" ++ strconv.FormatInt s2 ++ "^" ++ strconv.FormatInt q2)%string
    with (a2 ++ String "^" (strconv.FormatInt s2
                            ++ String "^" (strconv.FormatInt q2)))%string in Heq.
  assert (Hre : forall a s q,
             (a ++ String "^" (s ++ String "^" q))%string
             = ((a ++ String "^" s) ++ String "^" q)%string).
  { intros a s q. rewrite string_append_assoc. reflexivity. }
  rewrite !Hre in Heq.
  apply split_at_last_caret in Heq; try apply FormatInt_noCaret.
  destruct Heq as [Heq Hq].
  apply split_at_last_caret in Heq; try apply FormatInt_noCaret.
  destruct Heq as [-> Hs].
  apply FormatInt_inj in Hq, Hs. subst. reflexivity.
Qed.

Lemma TransactionId_String_example :
  TransactionId_String caretTid = "a^1^-20^0"%string
  /\ TransactionId_String caretTid = TransactionId_String caretTid'
  /\ caretTid = caretTid'.
Proof.
  assert (Heq : TransactionId_String caretTid = TransactionId_String caretTid')
    by reflexivity.
  split; [reflexivity |]. split; [exact Heq |].
  apply (TransactionId_String_inj caretTid caretTid' Heq).
Defined.

(** X12.  The metadata of an outgoing context always holds the agent id,
    the application name and the start time in decimal; it holds a
    socket id exactly when the socket id given is positive (the ping
    stream; every other stream and call passes -1), and it holds no
    other key.  The metadata identifies the agent id, the application
    name, the start time and the positive socket id they were made
    from. *)
Theorem grpcMetadataContext_keys (agent : Agent) (socketId : Z) :
  grpcMetadataContext agent socketId !! "agentid"%string
  = Some (Config_AgentId (Agent_Config agent))
  /\ grpcMetadataContext agent socketId !! "applicationname"%string
     = Some (Config_ApplicationName (Agent_Config agent))
  /\ grpcMetadataContext agent socketId !! "starttime"%string
     = Some (strconv.FormatInt (Agent_StartTime agent))
  /\ grpcMetadataContext agent socketId !! "socketid"%string
     = strconv.FormatInt <$> socketIdMetadata socketId
  /\ grpcMetadataContext agent (-1) !! "socketid"%string = None
  /\ (forall k, is_Some (grpcMetadataContext agent socketId !! k) ->
        In k ["agentid"; "applicationname"; "starttime"; "socketid"]%string)
  /\ (forall agent' socketId',
        grpcMetadataContext agent' socketId' = grpcMetadataContext agent socketId ->
        Config_AgentId (Agent_Config agent') = Config_AgentId (Agent_Config agent)
        /\ Config_ApplicationName (Agent_Config agent')
           = Config_ApplicationName (Agent_Config agent)
        /\ Agent_StartTime agent' = Agent_StartTime agent
        /\ socketIdMetadata socketId' = socketIdMetadata socketId).
Proof.
  assert (Hlook : forall a s,
            grpcMetadataContext a s !! "agentid"%string
            = Some (Config_AgentId (Agent_Config a))
            /\ grpcMetadataContext a s !! "applicationname"%string
               = Some (Config_ApplicationName (Agent_Config a))
            /\ grpcMetadataContext a s !! "starttime"%string
               = Some (strconv.FormatInt (Agent_StartTime a))
            /\ grpcMetadataContext a s !! "socketid"%string
               = strconv.FormatInt <$> socketIdMetadata s).
  { intros a s. unfold grpcMetadataContext, socketIdMetadata. cbv zeta.
    destruct (0 <? s); repeat split;
      repeat (rewrite lookup_insert_ne by (intros Hf; discriminate Hf));
      try apply lookup_insert_eq; apply lookup_empty. }
  destruct (Hlook agent socketId) as (H1 & H2 & H3 & H4).
  split; [exact H1 |]. split; [exact H2 |]. split; [exact H3 |].
  split; [exact H4 |]. split; [apply (Hlook agent (-1)) |]. split.
  - intros k [v Hk]. unfold grpcMetadataContext in Hk. cbv zeta in Hk.
    simpl In.
    destruct (0 <? socketId);
      repeat (apply lookup_insert_Some in Hk;
              destruct Hk as [[<- _] | [_ Hk]]; [tauto |]);
      rewrite lookup_empty in Hk; discriminate Hk.
  - intros agent' socketId' Heq.
    destruct (Hlook agent' socketId') as (H1' & H2' & H3' & H4').
    rewrite Heq in H1', H2', H3', H4'.
    rewrite H1 in H1'. rewrite H2 in H2'. rewrite H3 in H3'. rewrite H4 in H4'.
    injection H1' as H1'. injection H2' as H2'. injection H3' as H3'.
    split; [symmetry; exact H1' |]. split; [symmetry; exact H2' |].
    split; [symmetry; apply FormatInt_inj; exact H3' |].
    destruct (socketIdMetadata socketId) as [s |],
             (socketIdMetadata socketId') as [s' |]; simpl in H4';
      try discriminate H4'; [| reflexivity].
    injection H4' as H4'. apply FormatInt_inj in H4'. subst. reflexivity.
Qed.

(** ** Windows of the aggregator *)

Lemma recordAll_snoc (l : list Z) (t : Z) (st : Stats) :
  recordAll (l ++ [t]) st = collectResponseTime t (recordAll l st).
Proof. unfold recordAll. rewrite foldl_app. reflexivity. Qed.

Lemma sumZ_snoc (l : list Z) (t : Z) : sumZ (l ++ [t]) = sumZ l + t.
Proof. unfold sumZ. induction l as [| x l IH]; simpl; [lia | rewrite IH; lia]. Qed.

Lemma maxZ_snoc (l : list Z) (t : Z) : maxZ (l ++ [t]) = Z.max (maxZ l) t.
Proof. unfold maxZ. induction l as [| x l IH]; simpl; [lia | rewrite IH; lia]. Qed.

Lemma sumZ_nonneg (l : list Z) : Forall (fun t => 0 <= t) l -> 0 <= sumZ l.
Proof.
  unfold sumZ. induction 1 as [| x l Hx _ IH]; simpl; lia.
Qed.

Lemma sumZ_le_max (l : list Z) : sumZ l <= Z.of_nat (length l) * maxZ l.
Proof.
  unfold sumZ, maxZ. induction l as [| x l IH]; [simpl; lia |].
  simpl foldr. simpl length. nia.
Qed.

Lemma recordAll_spec (l : list Z) (st0 : Stats) :
  Forall (fun t => 0 <= t) l ->
  sumZ l <= GoInt.maxInt64 ->
  Z.of_nat (length l) <= GoInt.maxInt64 ->
  requestCount (recordAll l (resetResponseTime st0)) = Z.of_nat (length l)
  /\ accResponseTime (recordAll l (resetResponseTime st0)) = sumZ l
  /\ maxResponseTime (recordAll l (resetResponseTime st0)) = maxZ l.
Proof.
  induction l as [| t l IH] using rev_ind; intros Hpos Hsum Hlen.
  - repeat split.
  - apply Forall_app in Hpos. destruct Hpos as [Hpos Ht].
    apply Forall_cons in Ht. destruct Ht as [Ht _].
    rewrite sumZ_snoc in Hsum. rewrite length_app in Hlen. simpl in Hlen.
    pose proof (sumZ_nonneg l Hpos) as Hnn.
    destruct (IH Hpos ltac:(lia) ltac:(lia)) as (Hc & Ha & Hm).
    rewrite recordAll_snoc, sumZ_snoc, maxZ_snoc, length_app.
    unfold collectResponseTime. simpl.
    rewrite Hc, Ha, Hm. unfold GoInt.incr64, GoInt.add64.
    rewrite !int64_small by (unfold GoInt.minInt64; lia).
    split; [lia |]. split; [reflexivity |].
    destruct (Z.ltb_spec (maxZ l) t); lia.
Qed.

(** X13.  The response times recorded since the last reset, when none
    is negative and neither their sum nor their number overflows an
    int64: the aggregator holds their number, their sum and their
    maximum; the average that [calcResponseAvg] returns is the sum
    divided by the number (0 when nothing was recorded) and lies between
    0 and the maximum; and a snapshot reports that average and that
    maximum and starts the next window at zero. *)
Theorem response_times_of_a_window `{Extern} (l : list Z) (st0 : Stats) :
  Forall (fun t => 0 <= t) l ->
  sumZ l <= GoInt.maxInt64 ->
  Z.of_nat (length l) <= GoInt.maxInt64 ->
  let st := recordAll l (resetResponseTime st0) in
  requestCount st = Z.of_nat (length l)
  /\ accResponseTime st = sumZ l
  /\ maxResponseTime st = maxZ l
  /\ calcResponseAvg st
     = Some (if decide (l = []) then 0 else sumZ l / Z.of_nat (length l))
  /\ (forall avg, calcResponseAvg st = Some avg -> 0 <= avg <= maxResponseTime st)
  /\ (forall p s st',
        getStats p st = Some (s, st') ->
        inspectorStats.responseAvg s
        = (if decide (l = []) then 0 else sumZ l / Z.of_nat (length l))
        /\ inspectorStats.responseMax s = maxZ l
        /\ (requestCount st', accResponseTime st', maxResponseTime st') = (0, 0, 0)).
Proof.
  intros Hpos Hsum Hlen. cbv zeta.
  destruct (recordAll_spec l st0 Hpos Hsum Hlen) as (Hc & Ha & Hm).
  pose proof (sumZ_nonneg l Hpos) as Hnn.
  pose proof (sumZ_le_max l) as Hlemax.
  set (st := recordAll l (resetResponseTime st0)) in *.
  assert (Havg : calcResponseAvg st
                 = Some (if decide (l = []) then 0
                         else sumZ l / Z.of_nat (length l))).
  { unfold calcResponseAvg, GoInt.div64. rewrite Hc, Ha.
    destruct l as [| t l']; [reflexivity |].
    destruct (decide (t :: l' = [])) as [Hf | _]; [discriminate Hf |].
    simpl length in *.
    destruct (Z.ltb_spec 0 (Z.of_nat (S (length l')))); [| lia].
    destruct (Z.eqb_spec (Z.of_nat (S (length l'))) 0); [lia |].
    rewrite Z.quot_div_nonneg by lia.
    rewrite int64_small; [reflexivity |].
    unfold GoInt.minInt64.
    pose proof (Z.div_pos (sumZ (t :: l')) (Z.of_nat (S (length l')))
                  ltac:(lia) ltac:(lia)).
    pose proof (Z.div_le_upper_bound (sumZ (t :: l')) (Z.of_nat (S (length l')))
                  (sumZ (t :: l')) ltac:(lia) ltac:(nia)).
    lia. }
  assert (Hrange : forall avg, calcResponseAvg st = Some avg ->
                               0 <= avg <= maxResponseTime st).
  { rewrite Havg, Hm. intros avg [= <-].
    destruct (decide (l = [])) as [-> | Hne]; [simpl; lia |].
    assert (0 < Z.of_nat (length l)) by (destruct l; [contradiction | simpl; lia]).
    split; [apply Z.div_pos; lia |].
    apply Z.div_le_upper_bound; lia. }
  split; [exact Hc |]. split; [exact Ha |]. split; [exact Hm |].
  split; [exact Havg |]. split; [exact Hrange |].
  intros p s st' Hget. unfold getStats in Hget. rewrite Havg in Hget.
  simpl in Hget.
  repeat match type of Hget with
         | context [GoInt.div64 ?a ?b] =>
             destruct (GoInt.div64 a b); simpl in Hget; [| discriminate Hget]
         end.
  injection Hget as <- <-. simpl. rewrite Hm. repeat split.
Qed.

Lemma response_times_of_a_window_example :
  (Forall (fun t => 0 <= t) [100; 300; 200]
   /\ sumZ [100; 300; 200] <= GoInt.maxInt64
   /\ Z.of_nat (length [100; 300; 200]) <= GoInt.maxInt64)
  /\ requestCount (recordAll [100; 300; 200] (resetResponseTime (startStats 0 ∅))) = 3
  /\ calcResponseAvg (recordAll [100; 300; 200] (resetResponseTime (startStats 0 ∅)))
     = Some 200
  /\ maxResponseTime (recordAll [100; 300; 200] (resetResponseTime (startStats 0 ∅)))
     = 300.
Proof.
  assert (H1 : Forall (fun t => 0 <= t) [100; 300; 200])
    by (repeat constructor; lia).
  assert (H2 : sumZ [100; 300; 200] <= GoInt.maxInt64)
    by (vm_compute; intros Hf; discriminate Hf).
  assert (H3 : Z.of_nat (length [100; 300; 200]) <= GoInt.maxInt64)
    by (vm_compute; intros Hf; discriminate Hf).
  split; [split; [exact H1 | split; [exact H2 | exact H3]] |].
  destruct (@response_times_of_a_window sampleExtern [100; 300; 200]
              (startStats 0 ∅) H1 H2 H3) as (Hc & _ & Hm & Havg & _).
  split; [exact Hc |]. split; [exact Havg | exact Hm].
Defined.

Section Rates.
Context `{Extern}.

(** From one second after the previous snapshot on (and for less than
    [2^20] seconds), the divisor of the rates is the number of whole
    seconds elapsed. *)
Lemma getStats_rates (p : Probe) (st : Stats) :
  1000000000 <= Probe_now p - lastCollectTime st ->
  (Probe_now p - lastCollectTime st) / 1000000000 < 2 ^ 20 ->
  exists s st',
    getStats p st = Some (s, st')
    /\ rates s
       = map (fun c => GoInt.int64
                         (Z.quot c ((Probe_now p - lastCollectTime st) / 1000000000)))
             (counters st)
    /\ inspectorStats.sampleTime s = Probe_now p
    /\ inspectorStats.responseMax s = maxResponseTime st
    /\ inspectorStats.activeSpan s = getActiveSpanCount (Probe_now p) st
    /\ st' = resetResponseTime
               (mkStats (Probe_rusage p) (Probe_mem p) (Probe_now p)
                  0 0 0 0 0 0 0 0 0 (activeSpan st)).
Proof.
  intros Hd Hsec. unfold getStats.
  assert (Hpow : 2 ^ 20 = 1048576) by reflexivity.
  rewrite Sub_exact
    by (unfold GoInt.minInt64, GoInt.maxInt64;
        pose proof (Z.mul_succ_div_gt (Probe_now p - lastCollectTime st) 1000000000
                      ltac:(lia)); lia).
  rewrite to_int64_Seconds by (lia || exact Hsec).
  set (secs := (Probe_now p - lastCollectTime st) / 1000000000) in *.
  assert (Hnz : secs <> 0).
  { unfold secs. pose proof (Z.div_le_lower_bound
                               (Probe_now p - lastCollectTime st) 1000000000 1
                               ltac:(lia) ltac:(lia)). lia. }
  clearbody secs.
  destruct (calcResponseAvg_returns st) as [avg ->].
  assert (Hdiv : forall c, GoInt.div64 c secs = Some (GoInt.int64 (Z.quot c secs))).
  { intros c. unfold GoInt.div64.
    destruct (Z.eqb_spec secs 0); [contradiction | reflexivity]. }
  rewrite !Hdiv. simpl.
  eexists _, _. split; [reflexivity |]. repeat split.
Qed.

(** X14.  A snapshot taken between one second and [2^20] seconds after
    the previous one, with counters that are not negative: each of the
    six rates is its counter divided by the number of whole seconds
    elapsed, rounded down, so that a counter below that number of
    seconds is reported as the rate 0; the snapshot resets the six
    counters. *)
Theorem snapshot_rates_are_per_whole_second (p : Probe) (st : Stats) :
  let secs := (Probe_now p - lastCollectTime st) / 1000000000 in
  1000000000 <= Probe_now p - lastCollectTime st ->
  secs < 2 ^ 20 ->
  Forall (fun c => 0 <= c <= GoInt.maxInt64) (counters st) ->
  exists s st',
    getStats p st = Some (s, st')
    /\ rates s = map (fun c => c / secs) (counters st)
    /\ Forall2 (fun c r => r * secs <= c < (r + 1) * secs) (counters st) (rates s)
    /\ (Forall (fun c => c < secs) (counters st) -> rates s = [0; 0; 0; 0; 0; 0])
    /\ counters st' = [0; 0; 0; 0; 0; 0].
Proof.
  cbv zeta. intros Hd Hsec Hc.
  destruct (getStats_rates p st Hd Hsec) as (s & st' & Hget & Hr & _ & _ & _ & ->).
  set (secs := (Probe_now p - lastCollectTime st) / 1000000000) in *.
  assert (Hpos : 1 <= secs).
  { unfold secs. apply Z.div_le_lower_bound; lia. }
  clearbody secs.
  assert (Hq : forall c, 0 <= c <= GoInt.maxInt64 ->
                         GoInt.int64 (Z.quot c secs) = c / secs).
  { intros c Hcr. rewrite Z.quot_div_nonneg by lia.
    apply int64_small. unfold GoInt.minInt64.
    pose proof (Z.div_pos c secs ltac:(lia) ltac:(lia)).
    pose proof (Z.div_le_upper_bound c secs c ltac:(lia) ltac:(nia)). lia. }
  assert (Hb : forall c, c / secs * secs <= c < (c / secs + 1) * secs).
  { intros c. pose proof (Z.mul_div_le c secs ltac:(lia)).
    pose proof (Z.mul_succ_div_gt c secs ltac:(lia)). lia. }
  eexists s, _. split; [exact Hget |].
  assert (Hrates : rates s = map (fun c => c / secs) (counters st)).
  { rewrite Hr. unfold counters in *.
    repeat match goal with
           | Hx : Forall _ (_ :: _) |- _ =>
               apply Forall_cons in Hx; destruct Hx as [? Hx]
           end.
    simpl. rewrite !Hq by assumption. reflexivity. }
  split; [exact Hrates |]. split; [| split].
  - rewrite Hrates. unfold counters. simpl. repeat constructor; apply Hb.
  - intros Hsmall. rewrite Hrates. unfold counters in *.
    repeat match goal with
           | Hx : Forall _ (_ :: _) |- _ =>
               apply Forall_cons in Hx; destruct Hx as [? Hx]
           end.
    simpl. rewrite !Z.div_small by lia. reflexivity.
  - reflexivity.
Qed.

End Rates.

Lemma snapshot_rates_example :
  (1000000000
   <= Probe_now (probeAt 5000000000)
      - lastCollectTime (incrSampleNew (incrSampleNew (startStats 0 ∅)))
   /\ (Probe_now (probeAt 5000000000)
       - lastCollectTime (incrSampleNew (incrSampleNew (startStats 0 ∅))))
      / 1000000000 < 2 ^ 20
   /\ Forall (fun c => 0 <= c <= GoInt.maxInt64)
        (counters (incrSampleNew (incrSampleNew (startStats 0 ∅)))))
  /\ exists s st',
       @getStats sampleExtern (probeAt 5000000000)
          (incrSampleNew (incrSampleNew (startStats 0 ∅)))
       = Some (s, st')
       /\ rates s = [0; 0; 0; 0; 0; 0].
Proof.
  assert (Hd : 1000000000
               <= Probe_now (probeAt 5000000000)
                  - lastCollectTime (incrSampleNew (incrSampleNew (startStats 0 ∅))))
    by (simpl; lia).
  assert (Hsec : (Probe_now (probeAt 5000000000)
                  - lastCollectTime (incrSampleNew (incrSampleNew (startStats 0 ∅))))
                 / 1000000000 < 2 ^ 20) by (vm_compute; reflexivity).
  assert (Hc : Forall (fun c => 0 <= c <= GoInt.maxInt64)
                 (counters (incrSampleNew (incrSampleNew (startStats 0 ∅)))))
    by (repeat constructor; vm_compute; intros Hf; discriminate Hf).
  split; [split; [exact Hd | split; [exact Hsec | exact Hc]] |].
  destruct (@snapshot_rates_are_per_whole_second sampleExtern (probeAt 5000000000)
              (incrSampleNew (incrSampleNew (startStats 0 ∅))) Hd Hsec Hc)
    as (s & st' & Hget & _ & _ & Hzero & _).
  exists s, st'. split; [exact Hget |]. apply Hzero.
  repeat constructor; vm_compute; reflexivity.
Defined.

Ltac iter_incr n IH :=
  induction n as [| n IH]; intros Hnn Hmax;
  [ simpl; rewrite Z.add_0_r; match goal with |- ?st = _ => destruct st end;
    reflexivity
  | simpl Nat.iter; rewrite IH by lia; cbv beta delta [incrSampleNew incrSampleCont
      incrUnsampleNew incrUnsampleCont incrSkipNew incrSkipCont]; simpl;
    unfold GoInt.incr64; rewrite int64_small by (unfold GoInt.minInt64; lia);
    f_equal; lia ].

Lemma iter_incrSampleNew (n : nat) (st : Stats) :
  0 <= sampleNew st -> sampleNew st + Z.of_nat n <= GoInt.maxInt64 ->
  Nat.iter n incrSampleNew st
  = mkStats (lastRusage st) (lastMemStats st) (lastCollectTime st)
      (accResponseTime st) (maxResponseTime st) (requestCount st)
      (sampleNew st + Z.of_nat n) (unsampleNew st) (sampleCont st)
      (unsampleCont st) (skipNew st) (skipCont st) (activeSpan st).
Proof. iter_incr n IH. Qed.

Lemma iter_incrUnsampleNew (n : nat) (st : Stats) :
  0 <= unsampleNew st -> unsampleNew st + Z.of_nat n <= GoInt.maxInt64 ->
  Nat.iter n incrUnsampleNew st
  = mkStats (lastRusage st) (lastMemStats st) (lastCollectTime st)
      (accResponseTime st) (maxResponseTime st) (requestCount st)
      (sampleNew st) (unsampleNew st + Z.of_nat n) (sampleCont st)
      (unsampleCont st) (skipNew st) (skipCont st) (activeSpan st).
Proof. iter_incr n IH. Qed.

Lemma iter_incrSampleCont (n : nat) (st : Stats) :
  0 <= sampleCont st -> sampleCont st + Z.of_nat n <= GoInt.maxInt64 ->
  Nat.iter n incrSampleCont st
  = mkStats (lastRusage st) (lastMemStats st) (lastCollectTime st)
      (accResponseTime st) (maxResponseTime st) (requestCount st)
      (sampleNew st) (unsampleNew st) (sampleCont st + Z.of_nat n)
      (unsampleCont st) (skipNew st) (skipCont st) (activeSpan st).
Proof. iter_incr n IH. Qed.

Lemma iter_incrUnsampleCont (n : nat) (st : Stats) :
  0 <= unsampleCont st -> unsampleCont st + Z.of_nat n <= GoInt.maxInt64 ->
  Nat.iter n incrUnsampleCont st
  = mkStats (lastRusage st) (lastMemStats st) (lastCollectTime st)
      (accResponseTime st) (maxResponseTime st) (requestCount st)
      (sampleNew st) (unsampleNew st) (sampleCont st)
      (unsampleCont st + Z.of_nat n) (skipNew st) (skipCont st) (activeSpan st).
Proof. iter_incr n IH. Qed.

Lemma iter_incrSkipNew (n : nat) (st : Stats) :
  0 <= skipNew st -> skipNew st + Z.of_nat n <= GoInt.maxInt64 ->
  Nat.iter n incrSkipNew st
  = mkStats (lastRusage st) (lastMemStats st) (lastCollectTime st)
      (accResponseTime st) (maxResponseTime st) (requestCount st)
      (sampleNew st) (unsampleNew st) (sampleCont st)
      (unsampleCont st) (skipNew st + Z.of_nat n) (skipCont st) (activeSpan st).
Proof. iter_incr n IH. Qed.

Lemma iter_incrSkipCont (n : nat) (st : Stats) :
  0 <= skipCont st -> skipCont st + Z.of_nat n <= GoInt.maxInt64 ->
  Nat.iter n incrSkipCont st
  = mkStats (lastRusage st) (lastMemStats st) (lastCollectTime st)
      (accResponseTime st) (maxResponseTime st) (requestCount st)
      (sampleNew st) (unsampleNew st) (sampleCont st)
      (unsampleCont st) (skipNew st) (skipCont st + Z.of_nat n) (activeSpan st).
Proof. iter_incr n IH. Qed.

Lemma countAll_spec (n1 n2 n3 n4 n5 n6 : nat) (st0 : Stats) :
  Forall (fun n => Z.of_nat n <= GoInt.maxInt64) [n1; n2; n3; n4; n5; n6] ->
  countAll n1 n2 n3 n4 n5 n6 (resetResponseTime st0)
  = mkStats (lastRusage st0) (lastMemStats st0) (lastCollectTime st0) 0 0 0
      (Z.of_nat n1) (Z.of_nat n3) (Z.of_nat n2) (Z.of_nat n4)
      (Z.of_nat n5) (Z.of_nat n6) (activeSpan st0).
Proof.
  intros Hn.
  repeat match goal with
         | Hx : Forall _ (_ :: _) |- _ =>
             apply Forall_cons in Hx; destruct Hx as [? Hx]
         end.
  unfold countAll.
  rewrite iter_incrSampleNew by (simpl; lia).
  rewrite iter_incrSampleCont by (simpl; lia).
  rewrite iter_incrUnsampleNew by (simpl; lia).
  rewrite iter_incrUnsampleCont by (simpl; lia).
  rewrite iter_incrSkipNew by (simpl; lia).
  rewrite iter_incrSkipCont by (simpl; lia).
  reflexivity.
Qed.

(** X15.  The six counting functions count independently: after a
    reset and [n1], ..., [n6] calls of them (numbers that fit an int64),
    the six counters hold these numbers, the response-time fields and
    the registry are as the reset left them, and a snapshot taken
    between one second and [2^20] seconds after the previous one reports
    each number divided by the whole seconds elapsed, rounded down, and
    sets the counters back to 0. *)
Theorem counted_samples_are_reported `{Extern} (n1 n2 n3 n4 n5 n6 : nat)
    (st0 : Stats) (p : Probe) :
  let st := countAll n1 n2 n3 n4 n5 n6 (resetResponseTime st0) in
  let secs := (Probe_now p - lastCollectTime st0) / 1000000000 in
  Forall (fun n => Z.of_nat n <= GoInt.maxInt64) [n1; n2; n3; n4; n5; n6] ->
  counters st = map Z.of_nat [n1; n2; n3; n4; n5; n6]
  /\ (accResponseTime st, maxResponseTime st, requestCount st) = (0, 0, 0)
  /\ activeSpan st = activeSpan st0
  /\ (1000000000 <= Probe_now p - lastCollectTime st0 ->
      secs < 2 ^ 20 ->
      exists s st',
        getStats p st = Some (s, st')
        /\ rates s = map (fun n => Z.of_nat n / secs) [n1; n2; n3; n4; n5; n6]
        /\ counters st' = [0; 0; 0; 0; 0; 0]).
Proof.
  cbv zeta. intros Hn. rewrite countAll_spec by exact Hn.
  split; [reflexivity |]. split; [reflexivity |]. split; [reflexivity |].
  intros Hd Hsec.
  set (st := mkStats (lastRusage st0) (lastMemStats st0) (lastCollectTime st0) 0 0 0
               (Z.of_nat n1) (Z.of_nat n3) (Z.of_nat n2) (Z.of_nat n4)
               (Z.of_nat n5) (Z.of_nat n6) (activeSpan st0)).
  destruct (getStats_rates p st Hd Hsec) as (s & st' & Hget & Hr & _ & _ & _ & ->).
  eexists s, _. split; [exact Hget |]. split; [| reflexivity].
  rewrite Hr. unfold st, counters. simpl lastCollectTime.
  set (secs := (Probe_now p - lastCollectTime st0) / 1000000000) in *.
  assert (Hpos : 1 <= secs).
  { unfold secs. apply Z.div_le_lower_bound; lia. }
  clearbody secs.
  assert (Hq : forall n : nat, Z.of_nat n <= GoInt.maxInt64 ->
                 GoInt.int64 (Z.quot (Z.of_nat n) secs) = Z.of_nat n / secs).
  { intros n Hcr. rewrite Z.quot_div_nonneg by lia.
    apply int64_small. unfold GoInt.minInt64.
    pose proof (Z.div_pos (Z.of_nat n) secs ltac:(lia) ltac:(lia)).
    pose proof (Z.div_le_upper_bound (Z.of_nat n) secs (Z.of_nat n)
                  ltac:(lia) ltac:(nia)). lia. }
  repeat match goal with
         | Hx : Forall _ (_ :: _) |- _ =>
             apply Forall_cons in Hx; destruct Hx as [? Hx]
         end.
  simpl. rewrite !Hq by assumption. reflexivity.
Qed.

Lemma counted_samples_example :
  Forall (fun n => Z.of_nat n <= GoInt.maxInt64) [4; 0; 12; 0; 0; 1]%nat
  /\ (1000000000 <= Probe_now (probeAt 5000000000) - lastCollectTime (startStats 0 ∅)
      /\ (Probe_now (probeAt 5000000000) - lastCollectTime (startStats 0 ∅))
         / 1000000000 < 2 ^ 20)
  /\ exists s st',
       @getStats sampleExtern (probeAt 5000000000)
          (countAll 4 0 12 0 0 1 (resetResponseTime (startStats 0 ∅)))
       = Some (s, st')
       /\ rates s = [0; 0; 2; 0; 0; 0]
       /\ counters st' = [0; 0; 0; 0; 0; 0].
Proof.
  assert (Hn : Forall (fun n => Z.of_nat n <= GoInt.maxInt64) [4; 0; 12; 0; 0; 1]%nat)
    by (repeat constructor; vm_compute; intros Hf; discriminate Hf).
  assert (Hd : 1000000000
               <= Probe_now (probeAt 5000000000) - lastCollectTime (startStats 0 ∅))
    by (simpl; lia).
  assert (Hsec : (Probe_now (probeAt 5000000000) - lastCollectTime (startStats 0 ∅))
                 / 1000000000 < 2 ^ 20) by (vm_compute; reflexivity).
  split; [exact Hn |]. split; [split; [exact Hd | exact Hsec] |].
  destruct (@counted_samples_are_reported sampleExtern 4 0 12 0 0 1
              (startStats 0 ∅) (probeAt 5000000000) Hn) as (_ & _ & _ & Hsnap).
  exact (Hsnap Hd Hsec).
Defined.

(** ** The registry of active spans *)

Lemma incrBucket_comm (i j : nat) (l : list Z) :
  incrBucket i (incrBucket j l) = incrBucket j (incrBucket i l).
Proof.
  unfold incrBucket. destruct (decide (i = j)) as [-> | Hne]; [reflexivity |].
  apply list_alter_alter_ne. exact Hne.
Qed.

Lemma rangeActiveSpan_insert (now : time.Time) (m : gmap Z time.Time)
    (spanId : Z) (start : time.Time) :
  m !! spanId = None ->
  rangeActiveSpan now (<[spanId := start]> m)
  = incrBucket (ageBucket (now - start)) (rangeActiveSpan now m).
Proof.
  intros Hfresh. unfold rangeActiveSpan.
  rewrite map_fold_insert_L.
  - rewrite activeSpanBucket_spec. reflexivity.
  - intros j1 j2 z1 z2 y _ _ _. apply incrBucket_comm.
  - exact Hfresh.
Qed.

(** X16.  The registry of active spans is a map from span ids to start
    times.  Registering a span under an id that is not registered adds
    one to the bucket of its age in every histogram taken afterwards
    and to the size of the registry, and dropping it again restores the
    aggregator; registering under an id that is registered replaces the
    start time (the span is counted once, with its latest start);
    dropping an id that is not registered changes nothing, and dropping
    twice is dropping once. *)
Theorem active_span_registry (now : time.Time) (spanId : Z) (start : time.Time)
    (st : Stats) :
  (activeSpan st !! spanId = None ->
     dropActiveSpan spanId (addActiveSpan spanId start st) = st
     /\ dropActiveSpan spanId st = st
     /\ getActiveSpanCount now (addActiveSpan spanId start st)
        = incrBucket (ageBucket (now - start)) (getActiveSpanCount now st)
     /\ size (activeSpan (addActiveSpan spanId start st)) = S (size (activeSpan st)))
  /\ (activeSpan st !! spanId = Some start ->
        addActiveSpan spanId start (dropActiveSpan spanId st) = st
        /\ getActiveSpanCount now st
           = incrBucket (ageBucket (now - start))
               (getActiveSpanCount now (dropActiveSpan spanId st)))
  /\ (forall start',
        addActiveSpan spanId start' (addActiveSpan spanId start st)
        = addActiveSpan spanId start' st)
  /\ dropActiveSpan spanId (dropActiveSpan spanId st) = dropActiveSpan spanId st
  /\ activeSpan (addActiveSpan spanId start st) !! spanId = Some start
  /\ activeSpan (dropActiveSpan spanId st) !! spanId = None.
Proof.
  split; [| split; [| split; [| split; [| split]]]].
  - intros Hfresh. unfold dropActiveSpan, addActiveSpan, getActiveSpanCount.
    destruct st as [r m t a x c c1 c2 c3 c4 c5 c6 reg]. simpl in *.
    unfold set_activeSpan. simpl.
    rewrite delete_insert_id by exact Hfresh.
    rewrite delete_id by exact Hfresh.
    rewrite rangeActiveSpan_insert by exact Hfresh.
    rewrite map_size_insert_None by exact Hfresh.
    repeat split.
  - intros Hreg. unfold dropActiveSpan, addActiveSpan, getActiveSpanCount.
    destruct st as [r m t a x c c1 c2 c3 c4 c5 c6 reg]. simpl in *.
    unfold set_activeSpan. simpl.
    rewrite insert_delete_id by exact Hreg. split; [reflexivity |].
    rewrite <- (insert_delete_id reg spanId start Hreg) at 1.
    apply rangeActiveSpan_insert. apply lookup_delete_eq.
  - intros start'. unfold addActiveSpan, set_activeSpan. simpl.
    rewrite insert_insert_eq. reflexivity.
  - unfold dropActiveSpan, set_activeSpan. simpl.
    rewrite delete_id by apply lookup_delete_eq. reflexivity.
  - apply lookup_insert_eq.
  - apply lookup_delete_eq.
Qed.

Lemma active_span_registry_example :
  activeSpan (startStats 0 fourSpans) !! 9 = None
  /\ getActiveSpanCount 6000000000 (addActiveSpan 9 2000000000 (startStats 0 fourSpans))
     = [1; 1; 2; 1]
  /\ dropActiveSpan 9 (addActiveSpan 9 2000000000 (startStats 0 fourSpans))
     = startStats 0 fourSpans.
Proof.
  assert (Hfresh : activeSpan (startStats 0 fourSpans) !! 9 = None)
    by (vm_compute; reflexivity).
  split; [exact Hfresh |].
  destruct (active_span_registry 6000000000 9 2000000000 (startStats 0 fourSpans))
    as (Hadd & _).
  destruct (Hadd Hfresh) as (Hdrop & _ & Hcount & _).
  split; [| exact Hdrop].
  rewrite Hcount. vm_compute. reflexivity.
Defined.


(** ** The stream of active-thread counts *)

Lemma sendCounts_snoc (l : list (time.Time * Stats)) (x : time.Time * Stats)
    (s : activeThreadCountStream) :
  sendCounts (l ++ [x]) s
  = snd (activeThreadCountStream_sendActiveThreadCount x.1 x.2 (sendCounts l s)).
Proof. unfold sendCounts. rewrite foldl_app. reflexivity. Qed.

Lemma sendCounts_live (l : list (time.Time * Stats))
    (stream : grpc.ClientStream PCmdActiveThreadCountRes) (reqId : Z) :
  Z.of_nat (length l) < 2 ^ 31 ->
  exists stream',
    sendCounts l (newActiveThreadCountStream (Some stream) reqId)
    = mkActiveThreadCountStream (Some stream') reqId (Z.of_nat (length l))
    /\ grpc.sent stream'
       = grpc.sent stream
         ++ imap (fun i x => countMessage reqId (Z.of_nat i + 1) x) l
    /\ grpc.answers stream' = grpc.answers stream
    /\ grpc.halfClosed stream' = grpc.halfClosed stream.
Proof.
  induction l as [| x l IH] using rev_ind; intros Hlen.
  - exists stream. simpl. rewrite app_nil_r. repeat split.
  - rewrite length_app in Hlen. simpl in Hlen.
    destruct (IH ltac:(lia)) as (stream1 & Hs & Hsent & Hans & Hhc).
    rewrite sendCounts_snoc, Hs.
    unfold activeThreadCountStream_sendActiveThreadCount. simpl.
    eexists. split; [| split; [| split]].
    + f_equal. rewrite length_app. simpl.
      unfold GoInt.incr32. rewrite int32_small by lia. lia.
    + simpl. rewrite Hsent, imap_app, <- app_assoc. simpl.
      unfold GoInt.incr32. rewrite int32_small by lia.
      rewrite Nat.add_0_r. reflexivity.
    + simpl. exact Hans.
    + simpl. exact Hhc.
Qed.

(** X17. The counts sent on a stream of active-thread counts are
    numbered: on a stream that was opened for the request [reqId], the
    [i]-th call of [sendActiveThreadCount] (fewer than 2^31 calls) hands
    the transport one message that carries [reqId], the sequence number
    [i] counted from 1, the schema type 2, the histogram of
    [getActiveSpanCount] and the clock in milliseconds, and the messages
    reach the transport in the order of the calls.  When the stream could
    not be opened the wrapper holds the request id -1, every send answers
    [Unavailable] and changes nothing, and so does every send after
    [close]. *)
Theorem active_thread_counts_are_numbered (l : list (time.Time * Stats))
    (reqId : Z) :
  (forall stream,
     Z.of_nat (length l) < 2 ^ 31 ->
     exists stream',
       sendCounts l (newActiveThreadCountStream (Some stream) reqId)
       = mkActiveThreadCountStream (Some stream') reqId (Z.of_nat (length l))
       /\ grpc.sent stream'
          = grpc.sent stream
            ++ imap (fun i x => countMessage reqId (Z.of_nat i + 1) x) l)
  /\ sendCounts l (newActiveThreadCountStream None reqId)
     = mkActiveThreadCountStream None (-1) 0
  /\ (forall now st,
        isUnavailable
          (fst (activeThreadCountStream_sendActiveThreadCount now st
                  (newActiveThreadCountStream None reqId))) = true)
  /\ (forall now st s,
        isUnavailable
          (fst (activeThreadCountStream_sendActiveThreadCount now st
                  (activeThreadCountStream_close s))) = true
        /\ snd (activeThreadCountStream_sendActiveThreadCount now st
                  (activeThreadCountStream_close s))
           = activeThreadCountStream_close s).
Proof.
  split; [| split; [| split]].
  - intros stream Hlen.
    destruct (sendCounts_live l stream reqId Hlen) as (stream' & Hs & Hsent & _).
    exists stream'. split; assumption.
  - induction l as [| x l IH] using rev_ind; [reflexivity |].
    rewrite sendCounts_snoc, IH. reflexivity.
  - intros now st. reflexivity.
  - intros now st [[stream |] r c]; split; reflexivity.
Qed.

Lemma active_thread_counts_example :
  Z.of_nat (length [(6000000000, startStats 0 fourSpans);
                    (7000000000, startStats 0 fourSpans)]) < 2 ^ 31
  /\ exists stream',
       sendCounts [(6000000000, startStats 0 fourSpans);
                   (7000000000, startStats 0 fourSpans)]
         (newActiveThreadCountStream (Some (grpc.fresh noError)) 7)
       = mkActiveThreadCountStream (Some stream') 7 2
       /\ grpc.sent stream'
          = [countMessage 7 1 (6000000000, startStats 0 fourSpans);
             countMessage 7 2 (7000000000, startStats 0 fourSpans)].
Proof.
  assert (Hlen : Z.of_nat (length [(6000000000, startStats 0 fourSpans);
                                   (7000000000, startStats 0 fourSpans)]) < 2 ^ 31)
    by reflexivity.
  split; [exact Hlen |].
  destruct (active_thread_counts_are_numbered
              [(6000000000, startStats 0 fourSpans);
               (7000000000, startStats 0 fourSpans)] 7) as (Hlive & _).
  destruct (Hlive (grpc.fresh noError) Hlen) as (stream' & Hs & Hsent).
  exists stream'. split; [exact Hs | exact Hsent].
Defined.

(** ** Connecting to the collector *)

Lemma dialSleeps_cons (n : Z) (d : time.Duration) (ds : list time.Duration) :
  dialSleeps n (d :: ds) = EvSleep n d :: dialSleeps (n + 1) ds.
Proof.
  unfold dialSleeps. rewrite imap_cons. change (Z.of_nat 0) with 0.
  rewrite Z.add_0_r. f_equal. apply imap_ext. intros i x _. unfold compose.
  f_equal. lia.
Qed.

(** The loop of [connectToCollectorWithRetry]: it sleeps once after each
    failed dial, and either a dial connects before the fuel is used up,
    or every dial failed and the error of the last one is returned. *)
Lemma connectFrom_trace (env : Env) (dial : Z -> option grpc.error) (fuel : nat) :
  forall (n : Z) (err : option grpc.error) (w : World),
    exists ds : list time.Duration,
      events (snd (connectFrom env dial fuel n err w)) = events w ++ dialSleeps n ds
      /\ (forall i d, ds !! i = Some d ->
            is_Some (dial (n + Z.of_nat i))
            /\ exists k, d = backOffJitter (n + Z.of_nat i) (randAt env k))
      /\ (((length ds < fuel)%nat
           /\ dial (n + Z.of_nat (length ds)) = None
           /\ fst (connectFrom env dial fuel n err w) = None)
          \/ (length ds = fuel
              /\ fst (connectFrom env dial fuel n err w)
                 = match fuel with
                   | O => err
                   | S k => dial (n + Z.of_nat k)
                   end)).
Proof.
  induction fuel as [| fuel IH]; intros n err w.
  - exists []. simpl. rewrite app_nil_r. split; [reflexivity |].
    split; [intros i d Hd; discriminate Hd |]. right. split; reflexivity.
  - simpl connectFrom. destruct (dial n) as [e |] eqn:Hdial.
    + destruct (IH (n + 1) (Some e) (backOffSleep env n w))
        as (ds & Hev & Hds & Hcase).
      exists (backOffJitter n (randAt env (step w)) :: ds).
      split; [| split].
      * rewrite Hev, dialSleeps_cons. unfold backOffSleep, tick. simpl.
        rewrite <- app_assoc. reflexivity.
      * intros [| i] d Hd; simpl in Hd.
        -- injection Hd as <-. rewrite Z.add_0_r, Hdial.
           split; [eauto |]. exists (step w). reflexivity.
        -- destruct (Hds i d Hd) as [Hsome [k Hk]].
           replace (n + Z.of_nat (S i)) with (n + 1 + Z.of_nat i) by lia.
           split; [exact Hsome |]. exists k. exact Hk.
      * simpl length.
        destruct Hcase as [(Hlen & Hnone & Hres) | (Hlen & Hres)].
        -- left. split; [lia |]. split; [| exact Hres].
           replace (n + Z.of_nat (S (length ds))) with (n + 1 + Z.of_nat (length ds))
             by lia.
           exact Hnone.
        -- right. split; [lia |]. rewrite Hres.
           destruct fuel as [| k].
           ++ rewrite Z.add_0_r. symmetry. exact Hdial.
           ++ f_equal. lia.
    + exists []. simpl. rewrite app_nil_r, Z.add_0_r.
      split; [reflexivity |]. split; [intros i d Hd; discriminate Hd |].
      left. split; [lia |]. split; [exact Hdial | reflexivity].
Qed.

(** X18. [connectToCollectorWithRetry] dials at most 99 times, numbered
    from 1, and sleeps [backOffSleep(n)] after each failed dial and at no
    other time.  It returns with a nil error at the first dial that
    connects, without a sleep after it; when all 99 dials fail it has
    slept 99 times and returns the error of the 99th dial.  With draws of
    [rand.Float64] in the unit interval each sleep lasts between one
    second and one minute. *)
Theorem connect_with_retry (env : Env) (dial : Z -> option grpc.error)
    (w : World) :
  exists ds : list time.Duration,
    events (snd (connectToCollectorWithRetry env dial w))
    = events w ++ dialSleeps 1 ds
    /\ (forall i, (i < length ds)%nat -> is_Some (dial (1 + Z.of_nat i)))
    /\ (((length ds < 99)%nat
         /\ dial (1 + Z.of_nat (length ds)) = None
         /\ fst (connectToCollectorWithRetry env dial w) = None)
        \/ (length ds = 99%nat
            /\ is_Some (dial 99)
            /\ fst (connectToCollectorWithRetry env dial w) = dial 99))
    /\ ((forall k, unitInterval (randAt env k) = true) ->
        Forall (fun d => 1 * time.Second <= d <= 60 * time.Second) ds).
Proof.
  unfold connectToCollectorWithRetry.
  destruct (connectFrom_trace env dial 99 1 None w) as (ds & Hev & Hds & Hcase).
  exists ds. split; [exact Hev |]. split; [| split].
  - intros i Hi. destruct (lookup_lt_is_Some_2 ds i Hi) as [d Hd].
    apply (Hds i d Hd).
  - destruct Hcase as [(Hlen & Hnone & Hres) | (Hlen & Hres)].
    + left. split; [exact Hlen |]. split; [exact Hnone | exact Hres].
    + right. split; [exact Hlen |].
      change (1 + Z.of_nat 98) with 99 in Hres. split; [| exact Hres].
      destruct (lookup_lt_is_Some_2 ds 98%nat ltac:(lia)) as [d Hd].
      apply (Hds 98%nat d Hd).
  - intros Hrand. apply Forall_forall. intros d Hin.
    apply list_elem_of_lookup in Hin. destruct Hin as [i Hi].
    destruct (Hds i d Hi) as [_ [k ->]].
    pose proof (backOffDurNs_values (1 + Z.of_nat i) ltac:(lia)) as Hv.
    unfold backOffJitter. rewrite backOffDur_exact by lia.
    pose proof (jitter_of_value _ (randAt env k) Hv (Hrand k)) as Hj.
    unfold time.Second. simpl In in Hv. lia.
Qed.

Lemma connect_with_retry_example :
  (forall k, unitInterval (randAt refusingEnv k) = true)
  /\ fst (connectToCollectorWithRetry refusingEnv thirdDial startWorld) = None
  /\ exists ds,
       events (snd (connectToCollectorWithRetry refusingEnv thirdDial startWorld))
       = events startWorld ++ dialSleeps 1 ds
       /\ Forall (fun d => 1 * time.Second <= d <= 60 * time.Second) ds.
Proof.
  split; [intros k; reflexivity |]. split; [reflexivity |].
  destruct (connect_with_retry refusingEnv thirdDial startWorld)
    as (ds & Hev & _ & _ & Hbound).
  exists ds. split; [exact Hev |]. apply Hbound. intros k. reflexivity.
Defined.





(** ** The statistics worker *)

Section StatWorkerRuns.
Context `{Extern}.
Variable env : Env.
Variable probes : nat -> Probe.
Variable BatchCount : Z.

Hypothesis BatchCount_pos : 1 <= BatchCount.
Hypothesis enabled : forall k, enableAt env k = true.

(** The sample that fills the batch: all the places of [collected] hold
    a sample, and the batch is sent as one message. *)
Lemma sendCollected_full (s : statWorker) (pending : list inspectorStats.t)
    (stream : grpc.ClientStream PStatMessage) (sample : inspectorStats.t) :
  workerInv BatchCount s pending stream ->
  Z.of_nat (length pending) + 1 = BatchCount ->
  sendCollected (statWorker_statStream s)
    (<[length pending := Some sample]> (statWorker_collected s))
  = Some (None,
          mkStatStream
            (Some (grpc.mkStream
                     (grpc.sent stream ++ [batchMessage (pending ++ [sample])])
                     (grpc.halfClosed stream) (grpc.answers stream)))).
Proof.
  intros (Hs & Hans & Hlen & _ & _ & Htake) Hfull.
  assert (Hall : <[length pending := Some sample]> (statWorker_collected s)
                 = Some <$> (pending ++ [sample])).
  { rewrite <- (take_ge (<[length pending := Some sample]> (statWorker_collected s))
                  (S (length pending)))
      by (rewrite length_insert; lia).
    rewrite (take_S_r _ _ (Some sample))
      by (apply list_lookup_insert_eq; lia).
    rewrite take_insert_ge by lia. rewrite Htake, fmap_app. reflexivity. }
  unfold sendCollected. rewrite Hs, Hall. simpl statStream_stream. cbv iota.
  rewrite (mapM_fmap_Some (fun x : option inspectorStats.t => x) Some)
    by reflexivity.
  simpl. unfold statStream_sendStats. simpl. rewrite encodeStats_spec, Hans.
  reflexivity.
Qed.

(** [k] iterations of the loop from a state of [workerInv]: the samples
    are cut into full batches, each sent as one message, and the rest is
    pending. *)
Lemma statsLoop_batches (k : nat) :
  forall (i : nat) (s : statWorker) (w : World)
         (pending : list inspectorStats.t)
         (stream : grpc.ClientStream PStatMessage)
         (samples : list inspectorStats.t) (st' : Stats),
    workerInv BatchCount s pending stream ->
    snapshots probes i k (statWorker_stats s) = Some (samples, st') ->
    exists (batches : list (list inspectorStats.t))
           (pending' : list inspectorStats.t) (s' : statWorker)
           (stream' : grpc.ClientStream PStatMessage),
      statsLoop env probes BatchCount k i s w
      = Running (s', mkWorld (step w + k) (events w ++ replicate k (EvEnable true)))
      /\ workerInv BatchCount s' pending' stream'
      /\ grpc.sent stream' = grpc.sent stream ++ map batchMessage batches
      /\ Forall (fun b => Z.of_nat (length b) = BatchCount) batches
      /\ concat batches ++ pending' = pending ++ samples
      /\ statWorker_stats s' = st'
      /\ statWorker_statGrpc s' = statWorker_statGrpc s.
Proof.
  induction k as [| k IH]; intros i s w pending stream samples st' Hinv Hsnap.
  - simpl in Hsnap. injection Hsnap as <- <-.
    exists [], pending, s, stream. simpl.
    rewrite !app_nil_r, Nat.add_0_r. destruct w. repeat split; try apply Hinv.
    constructor.
  - simpl in Hsnap.
    destruct (getStats (probes i) (statWorker_stats s)) as [[sample st1] |] eqn:Hget;
      simpl in Hsnap; [| discriminate Hsnap].
    destruct (snapshots probes (S i) k st1) as [[rest st2] |] eqn:Hrest;
      simpl in Hsnap; [| discriminate Hsnap].
    injection Hsnap as <- <-.
    pose proof Hinv as (Hs & Hans & Hlen & Hbatch & Hlt & Htake).
    simpl statsLoop. unfold Enable. rewrite enabled. simpl negb. cbv iota.
    unfold statsIteration. rewrite Hget. simpl.
    rewrite Hbatch, Hlen.
    destruct (Z.leb_spec 0 (Z.of_nat (length pending))) as [_ | Hf]; [| lia].
    destruct (Z.ltb_spec (Z.of_nat (length pending)) (Z.of_nat (Z.to_nat BatchCount)))
      as [_ | Hf]; [| lia].
    simpl andb. cbv iota. rewrite Nat2Z.id.
    destruct (Z.eqb_spec (Z.of_nat (length pending) + 1) BatchCount) as [Hfull | Hmore].
    + rewrite (sendCollected_full s pending stream sample Hinv Hfull). simpl.
      set (stream1 := grpc.mkStream
                        (grpc.sent stream ++ [batchMessage (pending ++ [sample])])
                        (grpc.halfClosed stream) (grpc.answers stream)).
      set (s1 := mkStatWorker st1 (statWorker_statGrpc s) (mkStatStream (Some stream1))
                   (<[length pending := Some sample]> (statWorker_collected s)) 0).
      assert (Hinv1 : workerInv BatchCount s1 [] stream1).
      { unfold workerInv, s1, stream1. simpl. rewrite length_insert.
        repeat split; try assumption; lia. }
      destruct (IH (S i) s1 (tick w (EvEnable true)) [] stream1 rest st2 Hinv1 Hrest)
        as (batches & pending' & s' & stream' & Hrun & Hinv' & Hsent & Hall
            & Hcat & Hst & Hg).
      exists ((pending ++ [sample]) :: batches), pending', s', stream'.
      split.
      { rewrite Hrun. unfold tick. simpl. f_equal. f_equal. f_equal; [lia |].
        rewrite <- app_assoc. reflexivity. }
      split; [exact Hinv' |]. split.
      { rewrite Hsent. unfold stream1. simpl. rewrite <- app_assoc. reflexivity. }
      split.
      { constructor; [rewrite length_app; simpl; lia | exact Hall]. }
      split.
      { simpl. rewrite <- !app_assoc. simpl in Hcat. rewrite Hcat. reflexivity. }
      split; [exact Hst | exact Hg].
    + set (s1 := mkStatWorker st1 (statWorker_statGrpc s) (statWorker_statStream s)
                   (<[length pending := Some sample]> (statWorker_collected s))
                   (Z.of_nat (length pending) + 1)).
      assert (Hinv1 : workerInv BatchCount s1 (pending ++ [sample]) stream).
      { unfold workerInv, s1. simpl. rewrite length_insert, length_app. simpl.
        repeat split; try assumption; try lia.
        replace (length pending + 1)%nat with (S (length pending)) by lia.
        rewrite (take_S_r _ _ (Some sample))
          by (apply list_lookup_insert_eq; lia).
        rewrite take_insert_ge by lia. rewrite Htake, fmap_app. reflexivity. }
      destruct (IH (S i) s1 (tick w (EvEnable true)) (pending ++ [sample]) stream
                  rest st2 Hinv1 Hrest)
        as (batches & pending' & s' & stream' & Hrun & Hinv' & Hsent & Hall
            & Hcat & Hst & Hg).
      exists batches, pending', s', stream'.
      split.
      { rewrite Hrun. unfold tick. simpl. f_equal. f_equal. f_equal; [lia |].
        rewrite <- app_assoc. reflexivity. }
      split; [exact Hinv' |]. split; [exact Hsent |]. split; [exact Hall |].
      split; [rewrite Hcat, <- app_assoc; reflexivity |].
      split; [exact Hst | exact Hg].
Qed.

End StatWorkerRuns.

Lemma withRetryFrom_first {G T : Type} (env : Env)
    (open : G -> World -> T * G * World) (live : T -> bool) (nilStream : T)
    (fuel : nat) (n : Z) (g : G) (w : World) (s : T) (g' : G) (w' : World) :
  enableAt env (step w) = true ->
  open g (tick w (EvEnable true)) = (s, g', w') ->
  live s = true ->
  withRetryFrom env open live nilStream (S fuel) n g w = (s, g', w').
Proof.
  intros Hen Hopen Hlive. simpl. unfold Enable. rewrite Hen. simpl.
  rewrite Hopen, Hlive. reflexivity.
Qed.

Lemma newStatStreamWithRetry_first (env : Env) (g : statGrpc) (w : World)
    (ans : nat -> option grpc.error) :
  enableAt env (step w) = true ->
  openAt env (S (step w)) = Some ans ->
  newStatStreamWithRetry env g w
  = (mkStatStream (Some (grpc.fresh ans)), g,
     tick (tick w (EvEnable true)) (EvOpen StatChannel None true)).
Proof.
  intros Hen Hopen. unfold newStatStreamWithRetry, withRetry.
  change 99%nat with (S 98).
  apply withRetryFrom_first; [exact Hen | | reflexivity].
  unfold newStatStream, openStream. simpl. rewrite Hopen. reflexivity.
Qed.

Lemma snapshots_length `{Extern} (probes : nat -> Probe) (k : nat) :
  forall i st samples st',
    snapshots probes i k st = Some (samples, st') -> length samples = k.
Proof.
  induction k as [| k IH]; intros i st samples st' Hsnap; simpl in Hsnap.
  - injection Hsnap as <- _. reflexivity.
  - destruct (getStats (probes i) st) as [[sample st1] |]; simpl in Hsnap;
      [| discriminate Hsnap].
    destruct (snapshots probes (S i) k st1) as [[rest st2] |] eqn:Hrest;
      simpl in Hsnap; [| discriminate Hsnap].
    injection Hsnap as <- _. simpl. f_equal. exact (IH _ _ _ _ Hrest).
Qed.

Lemma length_concat_batches {A : Type} (B : Z) (batches : list (list A)) :
  Forall (fun b => Z.of_nat (length b) = B) batches ->
  Z.of_nat (length (concat batches)) = B * Z.of_nat (length batches).
Proof.
  induction 1 as [| b batches Hb _ IH]; simpl; [lia |].
  rewrite length_app. lia.
Qed.

(** X20. The statistics worker sends its samples in full batches.  With a
    batch count of at least 1, the agent enabled, the stat stream opened
    at the first attempt and no send answered with an error, after [k]
    iterations in which [getStats] returned the samples [samples] the
    worker is still in its loop and has handed the transport one
    [AgentStatBatch] message for each run of [BatchCount] consecutive
    samples, in order: [k / BatchCount] messages, each of exactly
    [BatchCount] samples.  The last [k mod BatchCount] samples are not
    sent yet; they are in the first places of [collected] and [batch]
    counts them.  The worker tested the flag of the agent once per
    iteration and opened the stream once. *)
Theorem stats_worker_sends_full_batches `{Extern} (env : Env)
    (probes : nat -> Probe) (BatchCount : Z) (k : nat) (g : statGrpc)
    (st : Stats) (w : World) (ans : nat -> option grpc.error)
    (samples : list inspectorStats.t) (st' : Stats) :
  1 <= BatchCount ->
  (forall j, enableAt env j = true) ->
  openAt env (S (step w)) = Some ans ->
  (forall n, ans n = None) ->
  snapshots probes 1%nat k (resetResponseTime (initStats (probes 0%nat) st))
  = Some (samples, st') ->
  exists (batches : list (list inspectorStats.t))
         (pending : list inspectorStats.t) (s' : statWorker) (w' : World)
         (stream' : grpc.ClientStream PStatMessage),
    sendStatsWorker env probes BatchCount k g st w = Running (s', w')
    /\ statWorker_statStream s' = mkStatStream (Some stream')
    /\ grpc.sent stream' = map batchMessage batches
    /\ Forall (fun b => Z.of_nat (length b) = BatchCount) batches
    /\ concat batches ++ pending = samples
    /\ Z.of_nat (length batches) = Z.of_nat k / BatchCount
    /\ Z.of_nat (length pending) = Z.of_nat k mod BatchCount
    /\ statWorker_batch s' = Z.of_nat (length pending)
    /\ take (length pending) (statWorker_collected s') = Some <$> pending
    /\ statWorker_stats s' = st'
    /\ events w'
       = events w ++ [EvEnable true; EvOpen StatChannel None true]
         ++ replicate k (EvEnable true).
Proof.
  intros HB Hen Hopen Hans Hsnap. unfold sendStatsWorker.
  rewrite (newStatStreamWithRetry_first env g w ans (Hen _) Hopen).
  destruct (Z.ltb_spec BatchCount 0) as [Hf | _]; [lia |].
  set (s0 := mkStatWorker (resetResponseTime (initStats (probes 0%nat) st)) g
               (mkStatStream (Some (grpc.fresh ans)))
               (replicate (Z.to_nat BatchCount) None) 0).
  assert (Hinv : workerInv BatchCount s0 [] (grpc.fresh ans)).
  { unfold workerInv, s0. simpl. rewrite length_replicate.
    repeat split; try assumption; lia. }
  destruct (statsLoop_batches env probes BatchCount HB Hen k 1%nat s0
              (tick (tick w (EvEnable true)) (EvOpen StatChannel None true))
              [] (grpc.fresh ans) samples st' Hinv Hsnap)
    as (batches & pending & s' & stream' & Hrun & Hinv' & Hsent & Hall
        & Hcat & Hst & Hg).
  destruct Hinv' as (Hs' & _ & _ & Hbatch & Hlt & Htake).
  simpl in Hcat.
  eexists batches, pending, s', _, stream'.
  split; [exact Hrun |]. split; [exact Hs' |]. split; [exact Hsent |].
  split; [exact Hall |]. split; [exact Hcat |].
  assert (Hk : Z.of_nat k
               = BatchCount * Z.of_nat (length batches) + Z.of_nat (length pending)).
  { rewrite <- (snapshots_length _ _ _ _ _ _ Hsnap), <- Hcat, length_app.
    rewrite Nat2Z.inj_add, (length_concat_batches BatchCount) by exact Hall.
    reflexivity. }
  split.
  { apply (Z.div_unique_pos _ _ _ (Z.of_nat (length pending))); lia. }
  split.
  { apply (Z.mod_unique_pos _ _ (Z.of_nat (length batches))); lia. }
  split; [exact Hbatch |]. split; [exact Htake |]. split; [exact Hst |].
  simpl. rewrite <- !app_assoc. reflexivity.
Qed.

Lemma stats_worker_example :
  (1 <= 2
   /\ (forall j, enableAt acceptingEnv j = true)
   /\ openAt acceptingEnv (S (step startWorld)) = Some noError
   /\ (forall n, noError n = None))
  /\ exists samples st',
       @snapshots sampleExtern everyFiveSeconds 1%nat 5%nat
         (resetResponseTime (initStats (everyFiveSeconds 0%nat) (startStats 0 ∅)))
       = Some (samples, st')
       /\ exists batches pending s' w' stream',
            @sendStatsWorker sampleExtern acceptingEnv everyFiveSeconds 2 5%nat
              {| statGrpc_agent := sampleAgent |} (startStats 0 ∅) startWorld
            = Running (s', w')
            /\ statWorker_statStream s' = mkStatStream (Some stream')
            /\ grpc.sent stream' = map batchMessage batches
            /\ concat batches ++ pending = samples
            /\ Z.of_nat (length batches) = 2
            /\ Z.of_nat (length pending) = 1.
Proof.
  split.
  { split; [lia |]. split; [intros j; reflexivity |].
    split; [reflexivity | intros n; reflexivity]. }
  destruct (@snapshots sampleExtern everyFiveSeconds 1%nat 5%nat
              (resetResponseTime (initStats (everyFiveSeconds 0%nat) (startStats 0 ∅))))
    as [[samples st'] |] eqn:Hsnap; [| vm_compute in Hsnap; discriminate Hsnap].
  exists samples, st'. split; [reflexivity |].
  destruct (@stats_worker_sends_full_batches sampleExtern acceptingEnv
              everyFiveSeconds 2 5%nat {| statGrpc_agent := sampleAgent |}
              (startStats 0 ∅) startWorld noError samples st'
              ltac:(lia) (fun _ => eq_refl) eq_refl (fun _ => eq_refl) Hsnap)
    as (batches & pending & s' & w' & stream' & Hrun & Hs & Hsent & _ & Hcat
        & Hnb & Hnp & _).
  exists batches, pending, s', w', stream'.
  split; [exact Hrun |]. split; [exact Hs |]. split; [exact Hsent |].
  split; [exact Hcat |]. split; [exact Hnb | exact Hnp].
Defined.

(** X21. How the statistics worker ends.  While the agent is enabled,
    a batch count of 0 or less makes the worker panic in its first
    iteration (a negative length of [make], or the index 0 out of range
    of an empty slice), and so does a first sample taken less than a
    second after [initStats] (the division by zero of [getStats]): a
    collect interval below one second stops the worker.  When the agent
    is disabled from the start the worker returns without a sample and
    without a stream: the retry loop and the worker's loop each test the
    flag once and nothing else happens. *)
Theorem stats_worker_stops_or_panics `{Extern} (env : Env) (probes : nat -> Probe)
    (BatchCount : Z) (fuel : nat) (g : statGrpc) (st : Stats) (w : World) :
  ((forall j, enableAt env j = true) ->
   BatchCount <= 0 ->
   sendStatsWorker env probes BatchCount (S fuel) g st w = Panicked)
  /\ ((forall j, enableAt env j = true) ->
      0 <= Probe_now (probes 1%nat) - Probe_now (probes 0%nat) < 1000000000 ->
      sendStatsWorker env probes BatchCount (S fuel) g st w = Panicked)
  /\ ((forall j, enableAt env j = false) ->
      0 <= BatchCount ->
      sendStatsWorker env probes BatchCount (S fuel) g st w
      = Returned
          (mkStatWorker (resetResponseTime (initStats (probes 0%nat) st)) g
             (mkStatStream None) (replicate (Z.to_nat BatchCount) None) 0,
           mkWorld (step w + 2) (events w ++ [EvEnable false; EvEnable false]))).
Proof.
  split; [| split].
  - intros Hen HB. unfold sendStatsWorker.
    destruct (newStatStreamWithRetry env g w) as [[stream g'] w1].
    destruct (Z.ltb_spec BatchCount 0) as [_ | Hge]; [reflexivity |].
    assert (BatchCount = 0) as -> by lia.
    simpl statsLoop. unfold Enable. rewrite Hen. simpl negb. cbv iota.
    unfold statsIteration.
    destruct (getStats (probes 1%nat) _) as [[sample st1] |]; reflexivity.
  - intros Hen Hdt. unfold sendStatsWorker.
    destruct (newStatStreamWithRetry env g w) as [[stream g'] w1].
    destruct (Z.ltb_spec BatchCount 0) as [_ | Hge]; [reflexivity |].
    simpl statsLoop. unfold Enable. rewrite Hen. simpl negb. cbv iota.
    unfold statsIteration.
    rewrite getStats_divides_by_zero by exact Hdt. reflexivity.
  - intros Hoff HB. unfold sendStatsWorker, newStatStreamWithRetry, withRetry.
    change 99%nat with (S 98).
    rewrite withRetryFrom_disabled by apply Hoff.
    destruct (Z.ltb_spec BatchCount 0) as [Hf | _]; [lia |].
    simpl statsLoop. unfold Enable. rewrite Hoff. simpl.
    unfold tick. simpl. rewrite <- app_assoc. repeat f_equal. lia.
Qed.

Lemma stats_worker_panics_example :
  ((forall j, enableAt acceptingEnv j = true)
   /\ 0 <= Probe_now (everyHalfSecond 1) - Probe_now (everyHalfSecond 0) < 1000000000)
  /\ @sendStatsWorker sampleExtern acceptingEnv everyHalfSecond 2 1
       {| statGrpc_agent := sampleAgent |} (startStats 0 ∅) startWorld
     = Panicked.
Proof.
  assert (Hdt : 0 <= Probe_now (everyHalfSecond 1) - Probe_now (everyHalfSecond 0)
                < 1000000000) by (simpl; lia).
  split; [split; [intros j; reflexivity | exact Hdt] |].
  destruct (@stats_worker_stops_or_panics sampleExtern acceptingEnv everyHalfSecond
              2 0 {| statGrpc_agent := sampleAgent |} (startStats 0 ∅) startWorld)
    as (_ & Hpanic & _).
  apply Hpanic; [intros j; reflexivity | exact Hdt].
Defined.

(** ** The memory figures of a snapshot *)

Section GcDeltas.
Context `{Extern}.

(** The fields of a snapshot that [getStats] reads from the memory
    statistics, and what it remembers for the next call. *)
Lemma getStats_fields (p : Probe) (st : Stats) (s : inspectorStats.t) (st' : Stats) :
  getStats p st = Some (s, st') ->
  inspectorStats.gcNum s
  = GoInt.uint32 (MemStats_NumGC (Probe_mem p) - MemStats_NumGC (lastMemStats st))
  /\ inspectorStats.gcTime s
     = Z.quot (GoInt.int64 (GoInt.uint64
                 (MemStats_PauseTotalNs (Probe_mem p)
                  - MemStats_PauseTotalNs (lastMemStats st))))
              time.Millisecond
  /\ (inspectorStats.heapAlloc s, inspectorStats.heapMax s,
      inspectorStats.nonHeapAlloc s, inspectorStats.nonHeapMax s)
     = (GoInt.int64 (MemStats_HeapAlloc (Probe_mem p)),
        GoInt.int64 (MemStats_Sys (Probe_mem p)),
        GoInt.int64 (MemStats_StackInuse (Probe_mem p)),
        GoInt.int64 (MemStats_StackSys (Probe_mem p)))
  /\ inspectorStats.goroutineNum s = Probe_numGoroutine p
  /\ lastMemStats st' = Probe_mem p
  /\ lastRusage st' = Probe_rusage p
  /\ lastCollectTime st' = Probe_now p.
Proof.
  intros Hget. unfold getStats in Hget.
  destruct (calcResponseAvg st); simpl in Hget; [| discriminate Hget].
  repeat match type of Hget with
         | context [GoInt.div64 ?a ?b] =>
             destruct (GoInt.div64 a b); simpl in Hget; [| discriminate Hget]
         end.
  injection Hget as <- <-. repeat split.
Qed.

(** X22. The garbage-collection figures of a snapshot are differences to
    the previous snapshot.  For memory statistics within the ranges of
    their unsigned types, a snapshot that [getStats] returns reports as
    [gcNum] the number of collections since the previous call, also when
    the 32-bit counter [NumGC] wrapped around in between (the difference
    is then taken modulo 2^32), and as [gcTime] the pause time since the
    previous call in whole milliseconds.  [heapAlloc] is the reading
    [HeapAlloc] itself as long as it is below 2^63 and a negative number
    from there on.  The call remembers the memory statistics it read for
    the next one. *)
Theorem snapshot_gc_deltas (p : Probe) (st : Stats) (s : inspectorStats.t)
    (st' : Stats) :
  getStats p st = Some (s, st') ->
  validMemStats (Probe_mem p) -> validMemStats (lastMemStats st) ->
  let gc := MemStats_NumGC (Probe_mem p) - MemStats_NumGC (lastMemStats st) in
  let pause := MemStats_PauseTotalNs (Probe_mem p)
               - MemStats_PauseTotalNs (lastMemStats st) in
  0 <= inspectorStats.gcNum s < 2 ^ 32
  /\ (0 <= gc -> inspectorStats.gcNum s = gc)
  /\ (gc < 0 -> inspectorStats.gcNum s = gc + 2 ^ 32)
  /\ (0 <= pause < 2 ^ 63 -> inspectorStats.gcTime s = pause / 1000000)
  /\ (MemStats_HeapAlloc (Probe_mem p) < 2 ^ 63 ->
      inspectorStats.heapAlloc s = MemStats_HeapAlloc (Probe_mem p))
  /\ (2 ^ 63 <= MemStats_HeapAlloc (Probe_mem p) -> inspectorStats.heapAlloc s < 0)
  /\ lastMemStats st' = Probe_mem p.
Proof.
  intros Hget (Hh & _ & _ & _ & Hn & Hp) (_ & _ & _ & _ & Hn0 & Hp0). cbv zeta.
  destruct (getStats_fields p st s st' Hget) as (Hgc & Hgt & Hmem & _ & Hlast & _).
  injection Hmem as Hheap _ _ _.
  rewrite Hgc, Hgt, Hheap. clear Hgc Hgt Hheap Hget.
  unfold GoInt.uint32, GoInt.uint64, GoInt.int64, GoInt.wrap, time.Millisecond.
  change (2 ^ 32) with 4294967296 in *.
  change (2 ^ 64) with 18446744073709551616 in *.
  change (2 ^ (64 - 1)) with 9223372036854775808.
  change (2 ^ 63) with 9223372036854775808.
  set (gc := MemStats_NumGC (Probe_mem p) - MemStats_NumGC (lastMemStats st)).
  set (pause := MemStats_PauseTotalNs (Probe_mem p)
                - MemStats_PauseTotalNs (lastMemStats st)).
  assert (Hgcr : -4294967296 < gc < 4294967296) by (unfold gc; lia).
  split; [apply Z.mod_pos_bound; lia |].
  split; [intros Hpos; apply Z.mod_small; lia |].
  split.
  { intros Hneg. rewrite <- (Z.mod_add gc 1 4294967296) by lia.
    apply Z.mod_small. lia. }
  split.
  { intros Hpr. rewrite (Z.mod_small pause) by lia.
    rewrite (Z.mod_small (pause + 9223372036854775808)) by lia.
    replace (pause + 9223372036854775808 - 9223372036854775808) with pause by lia.
    apply Z.quot_div_nonneg; lia. }
  split.
  { intros Hsmall. rewrite Z.mod_small by lia. lia. }
  split; [| exact Hlast].
  intros Hbig.
  replace (MemStats_HeapAlloc (Probe_mem p) + 9223372036854775808)
    with (MemStats_HeapAlloc (Probe_mem p) - 9223372036854775808
          + 1 * 18446744073709551616) by lia.
  rewrite Z.mod_add by lia. rewrite Z.mod_small by lia. lia.
Qed.

End GcDeltas.

Lemma snapshot_gc_deltas_example :
  (validMemStats (Probe_mem gcProbe)
   /\ validMemStats (lastMemStats (startStats 0 ∅)))
  /\ exists s st',
       @getStats sampleExtern gcProbe (startStats 0 ∅) = Some (s, st')
       /\ inspectorStats.gcNum s = 7
       /\ inspectorStats.gcTime s = 2
       /\ inspectorStats.heapAlloc s = 1048576.
Proof.
  assert (Hp : validMemStats (Probe_mem gcProbe)).
  { unfold validMemStats. simpl. lia. }
  assert (Hst : validMemStats (lastMemStats (startStats 0 ∅))).
  { unfold validMemStats. simpl. lia. }
  split; [split; [exact Hp | exact Hst] |].
  eexists _, _. split; [reflexivity |].
  pose proof (@snapshot_gc_deltas sampleExtern gcProbe (startStats 0 ∅) _ _
                eq_refl Hp Hst) as Hthm.
  cbv zeta in Hthm. destruct Hthm as (_ & Hgc & _ & Hgt & Hheap & _).
  split; [| split].
  - exact (Hgc ltac:(simpl; lia)).
  - exact (Hgt ltac:(simpl; lia)).
  - exact (Hheap ltac:(simpl; lia)).
Defined.
